(** * The kauldron training loop (kauldron/train/train_lib.py)

    A shallow embedding of [train_impl], [_enum_steps_with_hooks],
    [_transfer_guard] and [_sync], and the properties of the loop driver:
    order of the per-step effects, the enumerated step range, the
    failure paths, the completion sentinel, the transfer guard and the
    resumption from a checkpoint.

    Python integers are [Z]; the objects the driver mutates (timer, dataset
    iterator, checkpoint directory, file system, the process-wide transfer
    guard) are fields of an explicit machine state; Python exceptions are
    the [Raised] outcome of a state-and-exception monad, which keeps the
    machine state reached when the exception left [train_impl].  Every call
    the driver makes on a collaborator is appended to a trace, together
    with the transfer-guard policy in force when the call was made.

    After the driver come the parts of the other modules that are plain
    Python: the feature-dictionary transforms [Elements], [_ElementWise] and
    the shape checks of [RandomCrop] (kauldron/data/preprocessing.py), and
    the cycle tracker, the argument keys and the display names of
    [ConfigDict] (kauldron/konfig/configdict_base.py).  Their tensor operations, and the
    jax and numpy code of kauldron/metrics/stats.py and
    kauldron/summaries/images.py, are not embedded.

    Not part of the embedding: wall-clock time (the timer counts finished
    steps only), the text sent to [setup.log], the tqdm progress bar and
    floating point ([per_device_batch_size]).  A call on a collaborator
    (checkpointer, writer, evaluators, [trainstep], the device placement, the
    barrier) returns: the exceptions of the embedding are those that the
    statements of the driver raise. *)

From Stdlib Require Import ZArith List String Bool Lia.
From Stdlib Require Import Sorting.Sorted.
From Stdlib Require DecimalString DecimalZ.
Import ListNotations.

Local Open Scope Z_scope.

(** ** Exceptions and global policies *)

(** The exceptions that the statements of the driver raise, one constructor
    per raise site: [ValueError] for the missing step budget,
    [JaxRuntimeError] for [checkify.check_error], which in Python is a
    subclass of [ValueError]. *)
Inductive Exn : Type :=
| ValueError (msg : string)
| StopIteration
| ZeroDivisionError
| JaxRuntimeError.

(** The levels accepted by [jax.transfer_guard]. *)
Inductive Policy : Type :=
| Allow
| Log
| Disallow
| LogExplicit
| DisallowExplicit.

(** The callables that [_enum_steps_with_hooks] registers as hooks. *)
Inductive Hook : Type :=
| Profiler.

(** ** Collaborators of the driver *)

(** Modelled from the spec: [PerformanceTimer] (kauldron/train/timer.py is
    not among the sources).  Section 3 of the specification: the timer holds
    the initial step number and batch-size metadata and is mutated once per
    step by [finish_step]. *)
Record Timer : Type := mkTimer {
  initial_step_num : Z;
  global_batch_size : Z;
  steps_finished : nat
}.

Definition PerformanceTimer (initial_step batch_size : Z) : Timer :=
  {| initial_step_num := initial_step;
     global_batch_size := batch_size;
     steps_finished := 0 |}.

Definition finish_step (t : Timer) : Timer :=
  {| initial_step_num := initial_step_num t;
     global_batch_size := global_batch_size t;
     steps_finished := S (steps_finished t) |}.

(** [checkpoint_state.CheckpointState(state, timer, ds_iter)]: the dataset
    iterator is persisted as its cursor. *)
Record CheckpointState (S : Type) : Type := mkCheckpointState {
  cs_state : S;
  cs_timer : Timer;
  cs_ds_iter : nat
}.
Arguments mkCheckpointState {S} _ _ _.
Arguments cs_state {S} _.
Arguments cs_timer {S} _.
Arguments cs_ds_iter {S} _.

(** The opaque parts of a trainer: the step-execution unit, the dataset and
    the save policy of the checkpointer.  The dataset is a stream indexed by
    the iterator's cursor, [None] once it is exhausted. *)
Record Collaborators : Type := {
  TrainState : Type;
  Batch : Type;
  Auxiliaries : Type;
  trainstep_init : bool -> TrainState;
  trainstep_step :
    TrainState -> Batch -> bool -> bool -> bool -> list string ->
    TrainState * Auxiliaries;
  aux_error : Auxiliaries -> bool;
  device_put : Batch -> Batch;
  train_ds : nat -> option Batch;
  should_save : list (Z * CheckpointState TrainState) -> Z -> bool
}.

(** The configuration fields of [config_lib.Trainer] that [train_impl] reads.
    [evals] lists the keys of [trainer.evals] in dictionary order. *)
Record Trainer : Type := {
  num_train_steps : option Z;
  stop_after_steps : option Z;
  log_summaries_every : Z;
  log_metrics_every : Z;
  checkify_error_categories : list string;
  evals : list string;
  workdir : string;
  batch_size : Z
}.

(** Modelled from the spec: [eval_impl.TRAIN_COMPLETE_FILENAME]
    (kauldron/evals/eval_impl.py is not among the sources); section 6 names
    the file [{workdir}/TRAIN_COMPLETE]. *)
Definition TRAIN_COMPLETE_FILENAME : string := "TRAIN_COMPLETE"%string.

(** [epath.Path(p).joinpath(name)]. *)
Definition joinpath (p name : string) : string :=
  String.append p (String.append "/"%string name).

(** Truth value of a Python collection. *)
Definition truthy {A : Type} (l : list A) : bool :=
  match l with
  | [] => false
  | _ :: _ => true
  end.

Definition is_some {A : Type} (o : option A) : bool :=
  match o with
  | Some _ => true
  | None => false
  end.

(** ** Step enumeration *)

Fixpoint count_from (start : Z) (n : nat) : list Z :=
  match n with
  | O => []
  | S n' => start :: count_from (start + 1) n'
  end.

(** Modelled from the spec: [utils.enum_iter] (kauldron/utils/utils.py is not
    among the sources).  Section 4.2: it produces the integers
    [[init_step, total_steps)], each paired with the next element of the
    iterable, here [itertools.repeat(None)]. *)
Definition enum_iter (init_step total_steps : Z) : list (Z * unit) :=
  map (fun i => (i, tt)) (count_from init_step (Z.to_nat (total_steps - init_step))).

(** What the generator [_enum_steps_with_hooks] is once its prologue has
    run: the indices it will yield and the hooks it calls when it is resumed
    after each of them. *)
Record StepGen : Type := {
  g_steps : list Z;
  g_hooks : list Hook
}.

(** [total_steps] of [_enum_steps_with_hooks]. *)
Definition total_steps_of (num_train_steps : Z) (stop_after_steps : option Z) : Z :=
  let total_steps := num_train_steps + 1 in
  match stop_after_steps with
  | Some s => Z.min total_steps s
  | None => total_steps
  end.

(** The prologue of [_enum_steps_with_hooks], executed by the first [next]
    on the generator; [is_lead_host] is [status.is_lead_host]. *)
Definition _enum_steps_with_hooks
    (initial_step : Z) (num_train_steps stop_after_steps : option Z)
    (is_lead_host : bool) : Exn + StepGen :=
  match num_train_steps with
  | None =>
      inl (ValueError "`trainer.num_train_steps is None`. Please provide a value."%string)
  | Some n =>
      let total_steps := total_steps_of n stop_after_steps in
      let hooks := if is_lead_host then [Profiler] else [] in
      inr {| g_steps := map fst (enum_iter initial_step total_steps);
             g_hooks := hooks |}
  end.

(** [a % b == 0]. *)
Definition py_mod_is_zero (a b : Z) : Exn + bool :=
  if b =? 0 then inl ZeroDivisionError else inr (a mod b =? 0).

(** ** The machine state and the driver *)

Section Driver.

Variable C : Collaborators.

Local Abbreviation State := (TrainState C).
Local Abbreviation Aux := (Auxiliaries C).
Local Abbreviation Ckpt := (CheckpointState (TrainState C)).

(** One entry per call the driver makes on a collaborator.  The events of
    the loop body carry the index of the step that made the call;
    [EvNext] carries the batch that [next(ds_iter)] returned and [EvStep]
    the flags passed to [trainstep.step] and what it returned. *)
Inductive Event : Type :=
| EvSetupRun
| EvInit (skip_transforms : bool)
| EvRestore (noop_if_missing : bool)
| EvWriteConfig
| EvWriteParamOverview (step : Z)
| EvWriteElementSpec (step : Z)
| EvWriteContextStructure (step : Z)
| EvSave (step : Z) (cs : Ckpt)
| EvMaybeEval (name : string) (step : Z)
| EvNext (step : Z) (batch : Batch C)
| EvDevicePut (step : Z)
| EvStep (step : Z) (return_losses return_metrics return_summaries : bool)
         (res : State * Aux)
| EvFinishStep (step : Z)
| EvWriteStepMetrics (step : Z) (log_summaries : bool)
| EvHook (h : Hook) (step : Z)
| EvTouch (path : string)
| EvSync.

(** The local variables of [train_impl] that the loop reads and writes. *)
Record Locals : Type := mkLocals {
  l_state : State;
  l_timer : Timer;
  l_ds_iter : nat;
  l_aux : option Aux
}.

(** What lives outside [train_impl]: [status.is_lead_host],
    [jax.config.jax_disable_jit], the current transfer-guard policy, the
    checkpoints on disk (most recent save first), the existing paths and the
    trace. *)
Record Env : Type := mkEnv {
  e_is_lead_host : bool;
  e_disable_jit : bool;
  e_guard : Policy;
  e_ckpt : list (Z * Ckpt);
  e_fs : list string;
  e_trace : list (Policy * Event)
}.

Definition Machine : Type := (Locals * Env)%type.

Inductive Outcome (A : Type) : Type :=
| Ok (a : A) (m : Machine)
| Raised (x : Exn) (m : Machine).
Arguments Ok {A} _ _.
Arguments Raised {A} _ _.

Definition out_machine {A : Type} (o : Outcome A) : Machine :=
  match o with
  | Ok _ m => m
  | Raised _ m => m
  end.

Definition M (A : Type) : Type := Machine -> Outcome A.

Definition ret {A : Type} (a : A) : M A := fun m => Ok a m.

Definition bind {A B : Type} (c : M A) (k : A -> M B) : M B :=
  fun m =>
    match c m with
    | Ok a m' => k a m'
    | Raised x m' => Raised x m'
    end.

Definition raise {A : Type} (x : Exn) : M A := fun m => Raised x m.

Notation "x <- c1 ;; c2" := (bind c1 (fun x => c2))
  (at level 61, c1 at next level, right associativity).
Notation "c1 ;; c2" := (bind c1 (fun _ => c2))
  (at level 61, right associativity).

Definition lift {A : Type} (r : Exn + A) : M A :=
  match r with
  | inl x => raise x
  | inr a => ret a
  end.

Definition when (b : bool) (c : M unit) : M unit :=
  if b then c else ret tt.

Fixpoint for_each {A : Type} (l : list A) (body : A -> M unit) : M unit :=
  match l with
  | [] => ret tt
  | a :: l' => body a ;; for_each l' body
  end.

(** *** Updates of the environment *)

Definition env_emit (ev : Event) (e : Env) : Env :=
  {| e_is_lead_host := e_is_lead_host e;
     e_disable_jit := e_disable_jit e;
     e_guard := e_guard e;
     e_ckpt := e_ckpt e;
     e_fs := e_fs e;
     e_trace := e_trace e ++ [(e_guard e, ev)] |}.

Definition env_set_guard (p : Policy) (e : Env) : Env :=
  {| e_is_lead_host := e_is_lead_host e;
     e_disable_jit := e_disable_jit e;
     e_guard := p;
     e_ckpt := e_ckpt e;
     e_fs := e_fs e;
     e_trace := e_trace e |}.

Definition env_set_ckpt (ck : list (Z * Ckpt)) (e : Env) : Env :=
  {| e_is_lead_host := e_is_lead_host e;
     e_disable_jit := e_disable_jit e;
     e_guard := e_guard e;
     e_ckpt := ck;
     e_fs := e_fs e;
     e_trace := e_trace e |}.

Definition env_set_fs (fs : list string) (e : Env) : Env :=
  {| e_is_lead_host := e_is_lead_host e;
     e_disable_jit := e_disable_jit e;
     e_guard := e_guard e;
     e_ckpt := e_ckpt e;
     e_fs := fs;
     e_trace := e_trace e |}.

Definition emit (ev : Event) : M unit :=
  fun m => Ok tt (fst m, env_emit ev (snd m)).

Definition get_locals : M Locals := fun m => Ok (fst m) m.

Definition get_env : M Env := fun m => Ok (snd m) m.

Definition set_locals (L : Locals) : M unit := fun m => Ok tt (L, snd m).

Definition modify_env (f : Env -> Env) : M unit := fun m => Ok tt (fst m, f (snd m)).

(** *** The checkpointer *)

(** Modelled from the spec: [Checkpointer] (kauldron/train/checkpointer.py is
    not among the sources).  Section 4.3: [latest_step] is the step of the
    most advanced checkpoint, if any; [save] persists a snapshot of the
    [CheckpointState] under its step; [restore] with [noop_if_missing=True]
    returns the latest checkpoint, or its argument when there is none. *)
Fixpoint ckpt_latest (ck : list (Z * Ckpt)) : option (Z * Ckpt) :=
  match ck with
  | [] => None
  | (s, cs) :: rest =>
      match ckpt_latest rest with
      | Some (s', cs') => if s' <=? s then Some (s, cs) else Some (s', cs')
      | None => Some (s, cs)
      end
  end.

(** Modelled from the spec: [Checkpointer.latest_step] (section 4.3). *)
Definition ckpt_latest_step (ck : list (Z * Ckpt)) : option Z :=
  option_map fst (ckpt_latest ck).

(** Modelled from the spec: [Checkpointer.restore] with
    [noop_if_missing=True] (section 4.3). *)
Definition ckpt_restore (ck : list (Z * Ckpt)) (dflt : Ckpt) : Ckpt :=
  match ckpt_latest ck with
  | Some (_, cs) => cs
  | None => dflt
  end.

(** Modelled from the spec: [Checkpointer.save] (section 4.3); the snapshot is
    taken when the call is made. *)
Definition ckpt_save (step : Z) : M unit :=
  L <- get_locals ;;
  let cs := mkCheckpointState (l_state L) (l_timer L) (l_ds_iter L) in
  emit (EvSave step cs) ;;
  modify_env (fun e => env_set_ckpt ((step, cs) :: e_ckpt e) e).

(** *** The context managers *)

(** [with jax.transfer_guard(p): body]; the previous policy is put back on
    both exits. *)
Definition transfer_guard {A : Type} (p : Policy) (body : M A) : M A :=
  fun m =>
    let old := e_guard (snd m) in
    match body (fst m, env_set_guard p (snd m)) with
    | Ok a m' => Ok a (fst m', env_set_guard old (snd m'))
    | Raised x m' => Raised x (fst m', env_set_guard old (snd m'))
    end.

(** [with _transfer_guard(): body]. *)
Definition _transfer_guard {A : Type} (body : M A) : M A :=
  fun m =>
    if negb (e_disable_jit (snd m))
    then transfer_guard Disallow body m
    else body m.

(** Modelled from the spec: [timer.exclude_from_step_stats()] (the timer is
    not among the sources).  The scope pauses the step clock and resumes it
    on both exits; an embedding without wall-clock time has nothing to
    pause. *)
Definition exclude_from_step_stats {A : Type} (body : M A) : M A := body.

(** [_sync()]. *)
Definition _sync : M unit :=
  transfer_guard Allow (emit EvSync).

(** *** The loop *)

Definition next_ds_iter (i : Z) : M (Batch C) :=
  L <- get_locals ;;
  match train_ds C (l_ds_iter L) with
  | None => raise StopIteration
  | Some batch =>
      set_locals (mkLocals (l_state L) (l_timer L) (S (l_ds_iter L)) (l_aux L)) ;;
      emit (EvNext i batch) ;;
      ret batch
  end.

Definition sharding_device_put (i : Z) (batch : Batch C) : M (Batch C) :=
  emit (EvDevicePut i) ;;
  ret (device_put C batch).

Definition trainstep_step_m (i : Z) (batch : Batch C)
    (return_losses return_metrics return_summaries : bool)
    (categories : list string) : M unit :=
  L <- get_locals ;;
  let res := trainstep_step C (l_state L) batch
               return_losses return_metrics return_summaries categories in
  emit (EvStep i return_losses return_metrics return_summaries res) ;;
  set_locals (mkLocals (fst res) (l_timer L) (l_ds_iter L) (Some (snd res))).

Definition timer_finish_step (i : Z) : M unit :=
  L <- get_locals ;;
  emit (EvFinishStep i) ;;
  set_locals (mkLocals (l_state L) (finish_step (l_timer L)) (l_ds_iter L) (l_aux L)).

(** [jax.device_get(aux.error).throw()]. *)
Definition throw_aux_error : M unit :=
  L <- get_locals ;;
  match l_aux L with
  | Some aux => if aux_error C aux then raise JaxRuntimeError else ret tt
  | None => ret tt
  end.

(** The body of the [for] loop of [train_impl] at step [i]. *)
Definition loop_body (trainer : Trainer) (i : Z) : M unit :=
  exclude_from_step_stats (
    (e <- get_env ;;
     when (should_save C (e_ckpt e) i) (ckpt_save i)) ;;
    for_each (evals trainer) (fun evaluator => emit (EvMaybeEval evaluator i))) ;;
  log_summaries <- lift (py_mod_is_zero i (log_summaries_every trainer)) ;;
  log_metrics <- lift (py_mod_is_zero i (log_metrics_every trainer)) ;;
  let log_any := log_metrics || log_summaries in
  batch <- next_ds_iter i ;;
  batch <- sharding_device_put i batch ;;
  trainstep_step_m i batch log_any log_metrics log_summaries
    (checkify_error_categories trainer) ;;
  timer_finish_step i ;;
  when (truthy (checkify_error_categories trainer)) throw_aux_error ;;
  e <- get_env ;;
  when (log_any && e_is_lead_host e)
    (emit (EvWriteStepMetrics i log_summaries)).

(** [for h in hooks: h(i)], run when the generator is resumed. *)
Definition run_hooks (hooks : list Hook) (i : Z) : M unit :=
  for_each hooks (fun h => emit (EvHook h i)).

(** [for i in gen: body]: the body runs at each yielded index, then the
    generator is resumed and runs its hooks.  When the body raises, the
    generator is never resumed. *)
Fixpoint for_steps (steps : list Z) (hooks : list Hook) (body : Z -> M unit) : M unit :=
  match steps with
  | [] => ret tt
  | i :: rest => body i ;; run_hooks hooks i ;; for_steps rest hooks body
  end.

Definition train_loop (trainer : Trainer) (initial_step : Z) : M unit :=
  _transfer_guard (
    e <- get_env ;;
    gen <- lift (_enum_steps_with_hooks initial_step
                   (num_train_steps trainer) (stop_after_steps trainer)
                   (e_is_lead_host e)) ;;
    for_steps (g_steps gen) (g_hooks gen) (loop_body trainer)).

(** The statements of [train_impl] before the loop: they bind the locals. *)
Definition train_init (trainer : Trainer) (e : Env) : Z * Machine :=
  let e := env_emit EvSetupRun e in
  let latest_step := ckpt_latest_step (e_ckpt e) in
  let initial_step := match latest_step with None => 0 | Some s => s end in
  let state := trainstep_init C (is_some latest_step) in
  let e := env_emit (EvInit (is_some latest_step)) e in
  let timer := PerformanceTimer initial_step (batch_size trainer) in
  let ds_iter := 0%nat in
  let cs := ckpt_restore (e_ckpt e) (mkCheckpointState state timer ds_iter) in
  let e := env_emit (EvRestore true) e in
  let e :=
    if initial_step =? 0
    then env_emit (EvWriteContextStructure initial_step)
           (env_emit (EvWriteElementSpec initial_step)
              (env_emit (EvWriteParamOverview initial_step)
                 (env_emit EvWriteConfig e)))
    else e in
  (initial_step, (mkLocals (cs_state cs) (cs_timer cs) (cs_ds_iter cs) None, e)).

(** The statements after the loop. *)
Definition train_finish (trainer : Trainer) : M (State * option Aux) :=
  e <- get_env ;;
  let wd := workdir trainer in
  when (existsb (String.eqb wd) (e_fs e))
    (let p := joinpath wd TRAIN_COMPLETE_FILENAME in
     emit (EvTouch p) ;;
     modify_env (fun e => env_set_fs (p :: e_fs e) e)) ;;
  _sync ;;
  L <- get_locals ;;
  ret (l_state L, l_aux L).

Definition train_impl (trainer : Trainer) (e : Env) : Outcome (State * option Aux) :=
  let '(initial_step, m) := train_init trainer e in
  (train_loop trainer initial_step ;; train_finish trainer) m.

End Driver.

Arguments EvSetupRun {C}.
Arguments EvInit {C} _.
Arguments EvRestore {C} _.
Arguments EvWriteConfig {C}.
Arguments EvWriteParamOverview {C} _.
Arguments EvWriteElementSpec {C} _.
Arguments EvWriteContextStructure {C} _.
Arguments EvSave {C} _ _.
Arguments EvMaybeEval {C} _ _.
Arguments EvNext {C} _ _.
Arguments EvDevicePut {C} _.
Arguments EvStep {C} _ _ _ _ _.
Arguments EvFinishStep {C} _.
Arguments EvWriteStepMetrics {C} _ _.
Arguments EvHook {C} _ _.
Arguments EvTouch {C} _.
Arguments EvSync {C}.
Arguments Ok {C A} _ _.
Arguments Raised {C A} _ _.
Arguments out_machine {C A} _.
Arguments mkLocals {C} _ _ _ _.
Arguments l_state {C} _.
Arguments l_timer {C} _.
Arguments l_ds_iter {C} _.
Arguments l_aux {C} _.
Arguments mkEnv {C} _ _ _ _ _ _.
Arguments e_is_lead_host {C} _.
Arguments e_disable_jit {C} _.
Arguments e_guard {C} _.
Arguments e_ckpt {C} _.
Arguments e_fs {C} _.
Arguments e_trace {C} _.
Arguments ckpt_latest {C} _.
Arguments ckpt_latest_step {C} _.

(** ** Reading a trace *)

(** The seven effects of a step, in the order of the loop, with the
    placement of the batch on the devices between fetch and execution. *)
Inductive Phase : Type :=
| PSave
| PEval
| PFetch
| PPut
| PStep
| PTimer
| PWrite
| PHook.

Definition rank (p : Phase) : nat :=
  match p with
  | PSave => 0
  | PEval => 1
  | PFetch => 2
  | PPut => 3
  | PStep => 4
  | PTimer => 5
  | PWrite => 6
  | PHook => 7
  end.

(** Evaluators and hooks are dispatched once per registered callable. *)
Definition repeatable (p : Phase) : bool :=
  match p with
  | PEval | PHook => true
  | _ => false
  end.

(** The step and phase of an event of the loop; [None] for the calls made
    before and after the loop. *)
Definition stamp {C : Collaborators} (ev : Event C) : option (Z * Phase) :=
  match ev with
  | EvSave i _ => Some (i, PSave)
  | EvMaybeEval _ i => Some (i, PEval)
  | EvNext i _ => Some (i, PFetch)
  | EvDevicePut i => Some (i, PPut)
  | EvStep i _ _ _ _ => Some (i, PStep)
  | EvFinishStep i => Some (i, PTimer)
  | EvWriteStepMetrics i _ => Some (i, PWrite)
  | EvHook _ i => Some (i, PHook)
  | _ => None
  end.

Definition stamps {C : Collaborators} (tr : list (Policy * Event C)) : list (Z * Phase) :=
  flat_map (fun pe => match stamp (snd pe) with Some s => [s] | None => [] end) tr.

(** [s1] may come before [s2] in a trace: an earlier step, or the same step
    and an earlier phase, or the same repeatable phase of the same step. *)
Definition step_order (s1 s2 : Z * Phase) : Prop :=
  fst s1 < fst s2 \/
  (fst s1 = fst s2 /\
   ((rank (snd s1) < rank (snd s2))%nat \/
    (snd s1 = snd s2 /\ repeatable (snd s1) = true))).

(** The stamps of one complete step: save (when [sv]), one dispatch per
    evaluator, fetch, placement, execution, timer, write (when [wr]), one
    call per hook. *)
Definition step_stamps {A B : Type} (i : Z) (sv : bool) (evaluators : list A)
    (wr : bool) (hooks : list B) : list (Z * Phase) :=
  (if sv then [(i, PSave)] else []) ++
  map (fun _ => (i, PEval)) evaluators ++
  [(i, PFetch); (i, PPut); (i, PStep); (i, PTimer)] ++
  (if wr then [(i, PWrite)] else []) ++
  map (fun _ => (i, PHook)) hooks.

(** The batches fetched, with the step that fetched them. *)
Definition fetched {C : Collaborators} (tr : list (Policy * Event C)) : list (Z * Batch C) :=
  flat_map (fun pe => match snd pe with EvNext i b => [(i, b)] | _ => [] end) tr.

(** The steps at which [write_step_metrics] was called, with its
    [log_summaries] argument. *)
Definition metric_writes {C : Collaborators} (tr : list (Policy * Event C)) : list (Z * bool) :=
  flat_map (fun pe => match snd pe with EvWriteStepMetrics i ls => [(i, ls)] | _ => [] end) tr.

(** The steps at which [trainstep.step] was called, with the flags
    [return_losses], [return_metrics] and [return_summaries] it was given. *)
Definition step_requests {C : Collaborators} (tr : list (Policy * Event C))
    : list (Z * (bool * bool * bool)) :=
  flat_map (fun pe => match snd pe with
                      | EvStep i rl rm rs _ => [(i, (rl, rm, rs))]
                      | _ => []
                      end) tr.

(** What the last call of [trainstep.step] in a trace returned. *)
Fixpoint last_step_result {C : Collaborators} (tr : list (Policy * Event C))
    : option (TrainState C * Auxiliaries C) :=
  match tr with
  | [] => None
  | (_, ev) :: rest =>
      match last_step_result rest with
      | Some r => Some r
      | None => match ev with EvStep _ _ _ _ r => Some r | _ => None end
      end
  end.

Definition is_touch {C : Collaborators} (ev : Event C) : bool :=
  match ev with EvTouch _ => true | _ => false end.

Definition is_sync {C : Collaborators} (ev : Event C) : bool :=
  match ev with EvSync => true | _ => false end.

Definition is_fresh_start_write {C : Collaborators} (ev : Event C) : bool :=
  match ev with
  | EvWriteConfig | EvWriteParamOverview _ | EvWriteElementSpec _
  | EvWriteContextStructure _ => true
  | _ => false
  end.

(** Whether a computation ended without raising. *)
Definition completed {C : Collaborators} {A : Type} (o : Outcome C A) : bool :=
  match o with
  | Ok _ _ => true
  | Raised _ _ => false
  end.

(** The trace entries added to [e] by a run that ended in machine [m]. *)
Definition new_events {C : Collaborators} (e : Env C) (m : Machine C) : list (Policy * Event C) :=
  skipn (List.length (e_trace e)) (e_trace (snd m)).

(** ** A small trainer, to run the driver on *)

(** State: number of steps taken.  Batches are numbered by the cursor and
    the dataset has 100 of them.  A step reports a checkify error on batch 5
    when error tracking is on.  The checkpointer saves every third step. *)
Definition toy : Collaborators :=
  {| TrainState := Z;
     Batch := nat;
     Auxiliaries := bool;
     trainstep_init := fun _ => 0;
     trainstep_step := fun s b _ _ _ cats => (s + 1, truthy cats && Nat.eqb b 5);
     aux_error := fun a => a;
     device_put := fun b => b;
     train_ds := fun n => if Nat.ltb n 100 then Some n else None;
     should_save := fun _ i => i mod 3 =? 0 |}.

Definition toy_trainer (n stop : option Z) (s m : Z) (cats : list string) : Trainer :=
  {| num_train_steps := n;
     stop_after_steps := stop;
     log_summaries_every := s;
     log_metrics_every := m;
     checkify_error_categories := cats;
     evals := ["eval"%string];
     workdir := "/w"%string;
     batch_size := 8 |}.

(** A fresh process on the lead host, with jit enabled, the default
    transfer-guard policy, no checkpoint and an existing working directory. *)
Definition toy_env : Env toy :=
  {| e_is_lead_host := true;
     e_disable_jit := false;
     e_guard := Allow;
     e_ckpt := [];
     e_fs := ["/w"%string];
     e_trace := [] |}.

(** The same process with jit disabled. *)
Definition toy_env_nojit : Env toy :=
  {| e_is_lead_host := true;
     e_disable_jit := true;
     e_guard := Allow;
     e_ckpt := [];
     e_fs := ["/w"%string];
     e_trace := [] |}.

(** A restarted process that finds the checkpoint saved at step [k] by a
    run started from scratch: [k] steps taken, [k] batches consumed. *)
Definition toy_env_at (k : nat) : Env toy :=
  @mkEnv toy true false Allow
    [(Z.of_nat k,
      @mkCheckpointState (TrainState toy) (Z.of_nat k) (mkTimer 0 8 k) k)]
    ["/w"%string] [].

(** ** What one step of the loop does *)

Section StepView.

Variable C : Collaborators.

(** [e] with its checkpoints replaced by [ck] and the calls [evs] appended to
    its trace under the policy of [e]. *)
Definition env_extend (e : Env C) (ck : list (Z * CheckpointState (TrainState C)))
    (evs : list (Event C)) : Env C :=
  {| e_is_lead_host := e_is_lead_host e;
     e_disable_jit := e_disable_jit e;
     e_guard := e_guard e;
     e_ckpt := ck;
     e_fs := e_fs e;
     e_trace := e_trace e ++ map (pair (e_guard e)) evs |}.

Definition cs_of (L : Locals C) : CheckpointState (TrainState C) :=
  mkCheckpointState (l_state L) (l_timer L) (l_ds_iter L).

(** The checkpoints and the calls of the part of a step that is excluded
    from the step statistics. *)
Definition saved_ckpt (i : Z) (L : Locals C) (e : Env C) :=
  if should_save C (e_ckpt e) i then (i, cs_of L) :: e_ckpt e else e_ckpt e.

Definition dispatch_events (trainer : Trainer) (i : Z) (L : Locals C) (e : Env C)
    : list (Event C) :=
  (if should_save C (e_ckpt e) i then [EvSave i (cs_of L)] else []) ++
  map (fun evaluator => EvMaybeEval evaluator i) (evals trainer).

Definition log_summaries_at (trainer : Trainer) (i : Z) : bool :=
  i mod log_summaries_every trainer =? 0.

Definition log_metrics_at (trainer : Trainer) (i : Z) : bool :=
  i mod log_metrics_every trainer =? 0.

Definition log_any_at (trainer : Trainer) (i : Z) : bool :=
  log_metrics_at trainer i || log_summaries_at trainer i.

(** What [trainstep.step] returns at step [i] on the fetched batch [b]. *)
Definition step_result (trainer : Trainer) (i : Z) (L : Locals C) (b : Batch C)
    : TrainState C * Auxiliaries C :=
  trainstep_step C (l_state L) (device_put C b)
    (log_any_at trainer i) (log_metrics_at trainer i) (log_summaries_at trainer i)
    (checkify_error_categories trainer).

Definition exec_events (trainer : Trainer) (i : Z) (L : Locals C) (b : Batch C)
    : list (Event C) :=
  [EvNext i b; EvDevicePut i;
   EvStep i (log_any_at trainer i) (log_metrics_at trainer i)
     (log_summaries_at trainer i) (step_result trainer i L b);
   EvFinishStep i].

(** The locals once the step and the timer update are done. *)
Definition stepped (trainer : Trainer) (i : Z) (L : Locals C) (b : Batch C) : Locals C :=
  mkLocals (fst (step_result trainer i L b)) (finish_step (l_timer L))
    (S (l_ds_iter L)) (Some (snd (step_result trainer i L b))).

Definition write_events (trainer : Trainer) (i : Z) (e : Env C) : list (Event C) :=
  if log_any_at trainer i && e_is_lead_host e
  then [EvWriteStepMetrics i (log_summaries_at trainer i)]
  else [].

Definition checkify_raises (trainer : Trainer) (i : Z) (L : Locals C) (b : Batch C) : bool :=
  truthy (checkify_error_categories trainer) &&
  aux_error C (snd (step_result trainer i L b)).

(** The four ways in which the body of the loop ends at step [i], started
    with locals [L] in environment [e]. *)
Inductive body_view (trainer : Trainer) (i : Z) (L : Locals C) (e : Env C)
    : Outcome C unit -> Prop :=
| BodyZeroDivision :
    log_summaries_every trainer = 0 \/ log_metrics_every trainer = 0 ->
    body_view trainer i L e
      (Raised ZeroDivisionError
         (L, env_extend e (saved_ckpt i L e) (dispatch_events trainer i L e)))
| BodyStopIteration :
    log_summaries_every trainer <> 0 ->
    log_metrics_every trainer <> 0 ->
    train_ds C (l_ds_iter L) = None ->
    body_view trainer i L e
      (Raised StopIteration
         (L, env_extend e (saved_ckpt i L e) (dispatch_events trainer i L e)))
| BodyCheckify (b : Batch C) :
    log_summaries_every trainer <> 0 ->
    log_metrics_every trainer <> 0 ->
    train_ds C (l_ds_iter L) = Some b ->
    checkify_raises trainer i L b = true ->
    body_view trainer i L e
      (Raised JaxRuntimeError
         (stepped trainer i L b,
          env_extend e (saved_ckpt i L e)
            (dispatch_events trainer i L e ++ exec_events trainer i L b)))
| BodyDone (b : Batch C) :
    log_summaries_every trainer <> 0 ->
    log_metrics_every trainer <> 0 ->
    train_ds C (l_ds_iter L) = Some b ->
    checkify_raises trainer i L b = false ->
    body_view trainer i L e
      (Ok tt
         (stepped trainer i L b,
          env_extend e (saved_ckpt i L e)
            (dispatch_events trainer i L e ++ exec_events trainer i L b ++
             write_events trainer i e))).

Definition hook_events (hooks : list Hook) (i : Z) : list (Event C) :=
  map (fun h => EvHook h i) hooks.

(** Stamps of a list of calls, whatever the policy they ran under. *)
Definition estamps (evs : list (Event C)) : list (Z * Phase) :=
  flat_map (fun ev => match stamp ev with Some s => [s] | None => [] end) evs.

(** Fetched batches, metric writes and step requests of a list of calls. *)
Definition efetched (evs : list (Event C)) : list (Z * Batch C) :=
  flat_map (fun ev => match ev with EvNext i b => [(i, b)] | _ => [] end) evs.

Definition ewrites (evs : list (Event C)) : list (Z * bool) :=
  flat_map (fun ev => match ev with EvWriteStepMetrics i ls => [(i, ls)] | _ => [] end) evs.

Definition erequests (evs : list (Event C)) : list (Z * (bool * bool * bool)) :=
  flat_map (fun ev => match ev with
                      | EvStep i rl rm rs _ => [(i, (rl, rm, rs))]
                      | _ => []
                      end) evs.

(** A run of the [for] loop over the steps [l], started with locals [L] in
    environment [e]: how it ends and the calls it made.  The loop ends when
    the steps are exhausted or when the body raises. *)
Inductive loop_view (trainer : Trainer) (hooks : list Hook)
    : list Z -> Locals C -> Env C -> Outcome C unit -> list (Event C) -> Prop :=
| LoopEnd (L : Locals C) (e : Env C) :
    loop_view trainer hooks [] L e (Ok tt (L, e)) []
| LoopAbort (i : Z) (rest : list Z) (L : Locals C) (e : Env C)
    (x : Exn) (L' : Locals C) ck (evs : list (Event C)) :
    body_view trainer i L e (Raised x (L', env_extend e ck evs)) ->
    loop_view trainer hooks (i :: rest) L e
      (Raised x (L', env_extend e ck evs)) evs
| LoopStep (i : Z) (rest : list Z) (L : Locals C) (e : Env C)
    (b : Batch C) (out : Outcome C unit) (evs : list (Event C)) :
    log_summaries_every trainer <> 0 ->
    log_metrics_every trainer <> 0 ->
    train_ds C (l_ds_iter L) = Some b ->
    checkify_raises trainer i L b = false ->
    loop_view trainer hooks rest (stepped trainer i L b)
      (env_extend e (saved_ckpt i L e)
         (dispatch_events trainer i L e ++ exec_events trainer i L b ++
          write_events trainer i e ++ hook_events hooks i))
      out evs ->
    loop_view trainer hooks (i :: rest) L e out
      (dispatch_events trainer i L e ++ exec_events trainer i L b ++
       write_events trainer i e ++ hook_events hooks i ++ evs).

(** The step at which [train_impl] starts in environment [e]. *)
Definition initial_step_of (e : Env C) : Z :=
  match ckpt_latest_step (e_ckpt e) with
  | None => 0
  | Some s => s
  end.

(** The calls made before the loop. *)
Definition init_events (e : Env C) : list (Event C) :=
  [EvSetupRun; EvInit (is_some (ckpt_latest_step (e_ckpt e))); EvRestore true] ++
  (if initial_step_of e =? 0
   then [EvWriteConfig; EvWriteParamOverview (initial_step_of e);
         EvWriteElementSpec (initial_step_of e);
         EvWriteContextStructure (initial_step_of e)]
   else []).

(** The locals at loop entry: restored, or initial when there is no
    checkpoint. *)
Definition init_locals (trainer : Trainer) (e : Env C) : Locals C :=
  let cs :=
    ckpt_restore C (e_ckpt e)
      (mkCheckpointState
         (trainstep_init C (is_some (ckpt_latest_step (e_ckpt e))))
         (PerformanceTimer (initial_step_of e) (batch_size trainer)) 0%nat) in
  mkLocals (cs_state cs) (cs_timer cs) (cs_ds_iter cs) None.

(** The transfer-guard policy inside the loop. *)
Definition loop_guard (e : Env C) : Policy :=
  if e_disable_jit e then e_guard e else Disallow.

(** The steps and hooks of the loop of [train_impl]. *)
Definition loop_steps (n : Z) (trainer : Trainer) (e : Env C) : list Z :=
  count_from (initial_step_of e)
    (Z.to_nat (total_steps_of n (stop_after_steps trainer) - initial_step_of e)).

Definition loop_hooks (e : Env C) : list Hook :=
  if e_is_lead_host e then [Profiler] else [].

(** The environment in which the loop of [train_impl] starts. *)
Definition loop_env (e : Env C) : Env C :=
  env_set_guard C (loop_guard e) (env_extend e (e_ckpt e) (init_events e)).

Definition workdir_exists (trainer : Trainer) (e : Env C) : bool :=
  existsb (String.eqb (workdir trainer)) (e_fs e).

Definition sentinel (trainer : Trainer) : string :=
  joinpath (workdir trainer) TRAIN_COMPLETE_FILENAME.

(** The calls made after the loop, before the barrier. *)
Definition finish_events (trainer : Trainer) (e : Env C) : list (Event C) :=
  if workdir_exists trainer e then [EvTouch (sentinel trainer)] else [].

(** The trace that a run of [train_impl] adds when its loop made the calls
    [evs]; [done] tells whether the loop ended without exception. *)
Definition run_trace (trainer : Trainer) (e : Env C) (evs : list (Event C))
    (done : bool) : list (Policy * Event C) :=
  map (pair (e_guard e)) (init_events e) ++
  map (pair (loop_guard e)) evs ++
  (if done
   then map (pair (e_guard e)) (finish_events trainer e) ++ [(Allow, EvSync)]
   else []).

(** How [train_impl] ends after its loop ended with [out] having made the
    calls [evs]. *)
Definition finish (trainer : Trainer) (e : Env C) (out : Outcome C unit)
    (evs : list (Event C)) : Outcome C (TrainState C * option (Auxiliaries C)) :=
  match out with
  | Raised x (L, e') =>
      Raised x
        (L, mkEnv (e_is_lead_host e) (e_disable_jit e) (e_guard e)
              (e_ckpt e') (e_fs e)
              (e_trace e ++ run_trace trainer e evs false))
  | Ok _ (L, e') =>
      Ok (l_state L, l_aux L)
        (L, mkEnv (e_is_lead_host e) (e_disable_jit e) (e_guard e)
              (e_ckpt e')
              (if workdir_exists trainer e then sentinel trainer :: e_fs e else e_fs e)
              (e_trace e ++ run_trace trainer e evs true))
  end.

End StepView.

Arguments env_extend {C} _ _ _.
Arguments cs_of {C} _.
Arguments estamps {C} _.
Arguments efetched {C} _.
Arguments ewrites {C} _.
Arguments erequests {C} _.

(** ** Further readings of a run *)

(** The calls of the loop in a trace: those that carry a step and a phase. *)
Definition loop_calls {C : Collaborators} (tr : list (Policy * Event C))
    : list (Policy * Event C) :=
  filter (fun pe => is_some (stamp (snd pe))) tr.

(** The checkpoints saved, with their steps, in the order of the saves. *)
Definition saves {C : Collaborators} (tr : list (Policy * Event C))
    : list (Z * CheckpointState (TrainState C)) :=
  flat_map (fun pe => match snd pe with EvSave k cs => [(k, cs)] | _ => [] end) tr.

(** [trainer] with another [stop_after_steps]. *)
Definition with_stop_after_steps (trainer : Trainer) (stop : option Z) : Trainer :=
  {| num_train_steps := num_train_steps trainer;
     stop_after_steps := stop;
     log_summaries_every := log_summaries_every trainer;
     log_metrics_every := log_metrics_every trainer;
     checkify_error_categories := checkify_error_categories trainer;
     evals := evals trainer;
     workdir := workdir trainer;
     batch_size := batch_size trainer |}.

(** A worker that is not the lead host, otherwise as [toy_env]. *)
Definition toy_env_worker : Env toy :=
  {| e_is_lead_host := false;
     e_disable_jit := false;
     e_guard := Allow;
     e_ckpt := [];
     e_fs := ["/w"%string];
     e_trace := [] |}.

(** As [toy], with a dataset of three batches only. *)
Definition toy_short : Collaborators :=
  {| TrainState := Z;
     Batch := nat;
     Auxiliaries := bool;
     trainstep_init := fun _ => 0;
     trainstep_step := fun s b _ _ _ cats => (s + 1, truthy cats && Nat.eqb b 5);
     aux_error := fun a => a;
     device_put := fun b => b;
     train_ds := fun n => if Nat.ltb n 3 then Some n else None;
     should_save := fun _ i => i mod 3 =? 0 |}.

Definition toy_short_env : Env toy_short :=
  {| e_is_lead_host := true;
     e_disable_jit := false;
     e_guard := Allow;
     e_ckpt := [];
     e_fs := ["/w"%string];
     e_trace := [] |}.

(** The calls that only the lead host makes. *)
Definition lead_only {C : Collaborators} (ev : Event C) : bool :=
  match ev with
  | EvWriteStepMetrics _ _ | EvHook _ _ => true
  | _ => false
  end.

(** The step of a call of the loop is below [s]. *)
Definition before_step {C : Collaborators} (s : Z) (pe : Policy * Event C) : bool :=
  match stamp (snd pe) with
  | Some (i, _) => i <? s
  | None => false
  end.

(** * Preprocessing transforms over feature dictionaries
      (kauldron/data/preprocessing.py) *)

(** The exceptions raised by the transforms. *)
Inductive DataExn : Type :=
| DataValueError
| DataKeyError.

(** [k in keys] for a set or a sequence of strings. *)
Definition str_in (k : string) (keys : list string) : bool :=
  existsb (String.eqb k) keys.

(** [set(keys)]: every key once.  The order of a Python set is not
    specified and no use is made of it. *)
Fixpoint str_set (keys : list string) : list string :=
  match keys with
  | [] => []
  | k :: rest => if str_in k rest then str_set rest else k :: str_set rest
  end.

Section PyDict.

Variable V : Type.

(** A Python [dict] with string keys: the items in insertion order, each key
    once. *)
Definition dict : Type := list (string * V).

Definition dict_keys (d : dict) : list string := map fst d.

(** [d.get(k)]. *)
Fixpoint dict_get (d : dict) (k : string) : option V :=
  match d with
  | [] => None
  | (k', v) :: rest => if String.eqb k' k then Some v else dict_get rest k
  end.

(** [d[k] = v]: an existing key keeps its position. *)
Fixpoint dict_set (d : dict) (k : string) (v : V) : dict :=
  match d with
  | [] => [(k, v)]
  | (k', v') :: rest =>
      if String.eqb k' k then (k', v) :: rest else (k', v') :: dict_set rest k v
  end.

(** [d.update(items)]. *)
Definition dict_update (d : dict) (items : list (string * V)) : dict :=
  fold_left (fun acc kv => dict_set acc (fst kv) (snd kv)) items d.

(** [{k: v for k, v in items}]. *)
Definition dict_of (items : list (string * V)) : dict := dict_update [] items.

End PyDict.

Arguments dict_keys {V} _.
Arguments dict_get {V} _ _.
Arguments dict_set {V} _ _ _.
Arguments dict_update {V} _ _.
Arguments dict_of {V} _.

(** The fields of the dataclass [Elements]; [rename] is a mapping. *)
Record Elements : Type := {
  el_keep : list string;
  el_drop : list string;
  el_rename : list (string * string)
}.

(** [Elements.__post_init__]; [meta] is [grain.META_FEATURES], a constant of
    the grain library.  The messages of the exceptions are not modelled.  The
    result holds the fields as the method leaves them: [keep] and [drop] are
    replaced by their sets. *)
Definition Elements_post_init (meta : list string) (self : Elements)
    : DataExn + Elements :=
  if truthy (el_keep self) && truthy (el_drop self) then inl DataValueError
  else
    let keep := str_set (el_keep self) in
    let drop := str_set (el_drop self) in
    let rename_keys := map fst (el_rename self) in
    let rename_values := map snd (el_rename self) in
    let keep_and_rename :=
      filter (fun k => str_in k rename_keys || str_in k rename_values) keep in
    if truthy keep_and_rename then inl DataKeyError
    else
      let drop_and_rename := filter (fun k => str_in k rename_keys) drop in
      if truthy drop_and_rename then inl DataKeyError
      else
        let drop_rename_meta :=
          filter (fun k => str_in k drop || str_in k rename_keys ||
                           str_in k rename_values) meta in
        if truthy drop_rename_meta then inl DataKeyError
        else
          let keep_meta := filter (fun k => str_in k meta) keep in
          if truthy keep_meta then inl DataKeyError
          else inr {| el_keep := keep; el_drop := drop; el_rename := el_rename self |}.

(** [Elements.map]. *)
Definition Elements_map {V : Type} (meta : list string) (self : Elements)
    (features : dict V) : DataExn + dict V :=
  let rename := el_rename self in
  let output :=
    if truthy (el_keep self)
    then dict_of (filter (fun kv => str_in (fst kv) (el_keep self)) features)
    else if truthy (el_drop self)
    then dict_of (filter (fun kv => negb (str_in (fst kv) (el_drop self)) &&
                                    negb (str_in (fst kv) (dict_keys rename)))
                    features)
    else dict_of (filter (fun kv => negb (str_in (fst kv) (dict_keys rename)))
                    features) in
  let renamed :=
    dict_of (flat_map (fun kv => match dict_get rename (fst kv) with
                                 | Some k' => [(k', snd kv)]
                                 | None => []
                                 end) features) in
  let overwrites :=
    filter (fun k => str_in k (dict_keys output)) (dict_keys renamed) in
  if truthy overwrites then inl DataKeyError
  else
    let output := dict_update output renamed in
    let output :=
      dict_update output
        (dict_of (filter (fun kv => str_in (fst kv) meta) features)) in
    inr output.

(** The forms of the field [key] of [_ElementWise]. *)
Inductive KeySpec : Type :=
| KeyStr (k : string)
| KeySeq (ks : list string)
| KeyDict (d : list (string * string)).

(** [_ElementWise.__post_init__]: the key as a mapping from feature key to
    output key. *)
Definition _ElementWise_post_init (key : KeySpec) : DataExn + dict string :=
  match key with
  | KeyStr k =>
      if String.eqb k EmptyString then inl DataKeyError else inr [(k, k)]
  | KeySeq ks =>
      if truthy ks then inr (dict_of (map (fun k => (k, k)) ks)) else inl DataKeyError
  | KeyDict d =>
      if truthy d then inr d else inl DataKeyError
  end.

(** [_ElementWise._per_element], as the list of what the generator yields,
    or the [KeyError] that it raises at its end when no key matched. *)
Definition _per_element {V : Type} (key : dict string) (features : dict V)
    : DataExn + list (string * V * bool) :=
  let yielded :=
    map (fun kv => match dict_get key (fst kv) with
                   | Some out_key => (out_key, snd kv, true)
                   | None => (fst kv, snd kv, false)
                   end) features in
  let is_noop := negb (existsb (fun kv => str_in (fst kv) (dict_keys key)) features) in
  if is_noop then inl DataKeyError else inr yielded.

(** [ElementWiseTransform.map], for a total [map_element]. *)
Definition ElementWiseTransform_map {V : Type} (key : dict string)
    (map_element : V -> V) (features : dict V) : DataExn + dict V :=
  match _per_element key features with
  | inl x => inl x
  | inr yielded =>
      inr (dict_of (map (fun kvt : string * V * bool =>
                           let '(k, element, should_transform) := kvt in
                           (k, if should_transform then map_element element
                               else element))
                      yielded))
  end.

(** [ElementWiseRandomTransform.random_map], for a total
    [random_map_element]. *)
Definition ElementWiseRandomTransform_random_map {V S : Type} (key : dict string)
    (random_map_element : V -> S -> V) (features : dict V) (seed : S)
    : DataExn + dict V :=
  match _per_element key features with
  | inl x => inl x
  | inr yielded =>
      inr (fold_left
             (fun features_out (kvt : string * V * bool) =>
                let '(k, element, should_transform) := kvt in
                if should_transform
                then dict_set features_out k (random_map_element element seed)
                else dict_set features_out k element)
             yielded [])
  end.

(** ** Readings of the transforms *)

(** The feature keys that [Elements.map] passes on under their own name,
    before the renaming. *)
Definition el_selected (self : Elements) (k : string) : bool :=
  if truthy (el_keep self) then str_in k (el_keep self)
  else negb (str_in k (el_drop self)) &&
       negb (str_in k (dict_keys (el_rename self))).

(** No two keys are renamed to the same name. *)
Definition rename_injective (rename : dict string) : Prop :=
  forall a b c, dict_get rename a = Some c -> dict_get rename b = Some c -> a = b.

(** The items of the renamed features, in the order of the features. *)
Definition renamed_items {V : Type} (rename : dict string) (features : dict V)
    : list (string * V) :=
  flat_map (fun kv => match dict_get rename (fst kv) with
                      | Some k' => [(k', snd kv)]
                      | None => []
                      end) features.

(** The fields as [Elements.__post_init__] leaves them. *)
Definition Elements_sets (self : Elements) : Elements :=
  {| el_keep := str_set (el_keep self);
     el_drop := str_set (el_drop self);
     el_rename := el_rename self |}.

(** What [Elements.__post_init__] asks of the fields; [meta] is
    [grain.META_FEATURES]. *)
Definition Elements_valid (meta : list string) (self : Elements) : Prop :=
  (el_keep self = [] \/ el_drop self = []) /\
  (forall k, In k (el_keep self) ->
     ~ In k (map fst (el_rename self)) /\ ~ In k (map snd (el_rename self)) /\
     ~ In k meta) /\
  (forall k, In k (el_drop self) ->
     ~ In k (map fst (el_rename self)) /\ ~ In k meta) /\
  (forall k, In k meta ->
     ~ In k (map fst (el_rename self)) /\ ~ In k (map snd (el_rename self))).

(** The key under which [_per_element] yields the feature [k]. *)
Definition out_key (key : dict string) (k : string) : string :=
  match dict_get key k with
  | Some k' => k'
  | None => k
  end.

(** Features and transforms to run the transforms on. *)
Definition toy_meta : list string := ["_index"%string].

Definition toy_features : dict Z :=
  [("image"%string, 1); ("label"%string, 2); ("extra"%string, 3);
   ("_index"%string, 0)].

Definition toy_elements : Elements :=
  {| el_keep := ["image"%string];
     el_drop := [];
     el_rename := [("label"%string, "y"%string)] |}.

Definition toy_elements_clash : Elements :=
  {| el_keep := [];
     el_drop := ["extra"%string];
     el_rename := [("label"%string, "image"%string)] |}.

Definition toy_elements_plain : Elements :=
  {| el_keep := ["image"%string]; el_drop := []; el_rename := [] |}.

(** [s in l] for every [s] once: the keys of a [dict]. *)
Fixpoint nodupb (l : list string) : bool :=
  match l with
  | [] => true
  | k :: rest => negb (str_in k rest) && nodupb rest
  end.

(** * The cycle tracker of the [ConfigDict] repr
      (kauldron/konfig/configdict_base.py) *)

Inductive KonfigExn : Type :=
| KonfigKeyError
| KonfigIndexError.

(** [_VisitedTracker]: [count] is the next value of the [itertools.count],
    [pyid_to_id] the mapping from [id(obj)] to an id or [None], of which only
    lookup, membership and assignment are used, [pyid_was_repr] a set. *)
Record _VisitedTracker : Type := mkVisitedTracker {
  count : Z;
  pyid_to_id : Z -> option (option Z);
  pyid_was_repr : list Z
}.

(** [d[pyid] = v]. *)
Definition pyid_set (d : Z -> option (option Z)) (pyid : Z) (v : option Z)
    : Z -> option (option Z) :=
  fun p => if p =? pyid then Some v else d p.

(** [_VisitedTracker()]: the defaults of the fields, then [__post_init__],
    which takes the first value of the counter. *)
Definition _VisitedTracker_new : _VisitedTracker :=
  let fresh := 0 in
  {| count := fresh + 1; pyid_to_id := fun _ => None; pyid_was_repr := [] |}.

(** [_VisitedTracker.track_if_visited], on [pyid = id(obj)]. *)
Definition track_if_visited (self : _VisitedTracker) (pyid : Z)
    : bool * _VisitedTracker :=
  match pyid_to_id self pyid with
  | None =>
      (false, {| count := count self;
                 pyid_to_id := pyid_set (pyid_to_id self) pyid None;
                 pyid_was_repr := pyid_was_repr self |})
  | Some None =>
      (true, {| count := count self + 1;
                pyid_to_id := pyid_set (pyid_to_id self) pyid (Some (count self));
                pyid_was_repr := pyid_was_repr self |})
  | Some (Some _) => (true, self)
  end.

(** [_VisitedTracker.get_id_and_was_repr], on [pyid = id(obj)]. *)
Definition get_id_and_was_repr (self : _VisitedTracker) (pyid : Z)
    : KonfigExn + (Z * bool * _VisitedTracker) :=
  match pyid_to_id self pyid with
  | None => inl KonfigKeyError
  | Some id_ =>
      match id_ with
      | None => inr (0, false, self)
      | Some i =>
          if i =? 0 then inr (0, false, self)
          else if existsb (Z.eqb i) (pyid_was_repr self) then inr (i, true, self)
          else inr (i, false, {| count := count self;
                                 pyid_to_id := pyid_to_id self;
                                 pyid_was_repr := i :: pyid_was_repr self |})
      end
  end.

(** The tracker after [track_if_visited] on each of [pyids] in turn. *)
Definition track_all (pyids : list Z) (t : _VisitedTracker) : _VisitedTracker :=
  fold_left (fun t p => snd (track_if_visited t p)) pyids t.

(** [get_id_and_was_repr] on each of [pyids] in turn: the results and the
    tracker after the last. *)
Fixpoint repr_all (pyids : list Z) (t : _VisitedTracker)
    : KonfigExn + (list (Z * bool) * _VisitedTracker) :=
  match pyids with
  | [] => inr ([], t)
  | p :: rest =>
      match get_id_and_was_repr t p with
      | inl x => inl x
      | inr (r, t') =>
          match repr_all rest t' with
          | inl x => inl x
          | inr (rs, t'') => inr (r :: rs, t'')
          end
      end
  end.

(** How often [track_if_visited] has seen [pyid], up to two. *)
Definition seen (t : _VisitedTracker) (pyid : Z) : nat :=
  match pyid_to_id t pyid with
  | None => 0%nat
  | Some None => 1%nat
  | Some (Some _) => 2%nat
  end.

(** The ids given so far are at least one, below the counter, and given to
    one object each. *)
Definition tracker_inv (t : _VisitedTracker) : Prop :=
  1 <= count t /\
  (forall p i, pyid_to_id t p = Some (Some i) -> 1 <= i < count t) /\
  (forall p q i, pyid_to_id t p = Some (Some i) ->
                 pyid_to_id t q = Some (Some i) -> p = q).

(** The tracker that a repr pass ends with, [t] if it raised. *)
Definition repr_tracker (o : KonfigExn + (list (Z * bool) * _VisitedTracker))
    (t : _VisitedTracker) : _VisitedTracker :=
  match o with
  | inr (_, t') => t'
  | inl _ => t
  end.

(** A watch pass to run the tracker on: the object 10 is met three times,
    20 twice and 30 once. *)
Definition toy_watched : _VisitedTracker :=
  track_all [10; 20; 10; 30; 20; 10] _VisitedTracker_new.

(** ** [RandomCrop.random_map]: the checks on the shapes *)

(** [d is None or d >= 0]. *)
Definition dim_ok (d : option Z) : bool :=
  match d with
  | None => true
  | Some d => 0 <=? d
  end.

(** [a == b] for two dimensions, each an [int] or [None]. *)
Definition dim_eqb (a b : option Z) : bool :=
  match a, b with
  | Some x, Some y => x =? y
  | None, None => true
  | _, _ => false
  end.

(** [RandomCrop.random_map]; [shape_of v] is [v.shape], of known rank,
    [shape] the field of that name and [key] the field after
    [__post_init__]. *)
Definition RandomCrop_random_map {V S : Type} (shape_of : V -> list (option Z))
    (key : dict string) (shape : list (option Z))
    (random_map_element : V -> S -> V) (features : dict V) (seed : S)
    : DataExn + dict V :=
  if negb (forallb dim_ok shape) then inl DataValueError
  else
    let shapes :=
      dict_of (map (fun kv => (fst kv, shape_of (snd kv)))
                 (filter (fun kv => str_in (fst kv) (dict_keys key)) features)) in
    if existsb (fun ks => negb (Nat.eqb (List.length (snd ks)) (List.length shape)))
         shapes
    then inl DataValueError
    else
      let ref_shape :=
        match shapes with
        | [] => None
        | (ref_key, ref_shape) :: _ => Some ref_shape
        end in
      let clash :=
        match ref_shape with
        | None => false
        | Some ref_shape =>
            existsb (fun ks =>
                       existsb (fun rkt : option Z * option Z * option Z =>
                                  let '(ref_dim, key_dim, target_dim) := rkt in
                                  negb (dim_eqb ref_dim key_dim) &&
                                  is_some target_dim)
                         (combine (combine ref_shape (snd ks)) shape))
              shapes
        end in
      if clash then inl DataValueError
      else ElementWiseRandomTransform_random_map key random_map_element
             features seed.

(** ** [ConfigDict._normalize_arg_key] *)

(** A key of a [ConfigDict]: a [str] or an [int]. *)
Inductive ArgKey : Type :=
| KeyName (s : string)
| KeyPos (i : Z).

(** [str(i)]. *)
Definition str (i : Z) : string :=
  DecimalString.NilZero.string_of_int (Z.to_int i).

(** [ConfigDict._normalize_arg_key]; [num_args] is what
    [configdict_proxy.num_args(self)] returns. *)
Definition _normalize_arg_key (num_args : Z) (key : ArgKey) (can_append : bool)
    : KonfigExn + string :=
  match key with
  | KeyPos key =>
      let key := if key <? 0 then num_args + key else key in
      if negb ((0 <=? key) && (key <? num_args + Z.b2z can_append))
      then inl KonfigIndexError
      else inr (str key)
  | KeyName key => inr key
  end.

(** Features that are their own shape, to run the checks of the crop on. *)
Definition toy_shaped : dict (list (option Z)) :=
  [("image"%string, [Some 8; Some 8; Some 3]);
   ("mask"%string, [Some 8; Some 8; Some 1]);
   ("label"%string, [])].

Definition toy_crop_key : dict string :=
  [("image"%string, "image"%string); ("mask"%string, "mask"%string)].

(** ** [_normalize_qualname] and [register_aliases] *)

(** The aliases that the module starts with. *)
Definition _ALIASES : dict string :=
  [("numpy"%string, "np"%string); ("tensorflow"%string, "tf"%string);
   ("flax.linen"%string, "nn"%string)].

(** [register_aliases], on the dict that [_ALIASES] names. *)
Definition register_aliases (registry aliases : dict string) : dict string :=
  dict_update registry aliases.

(** [s[n:]]. *)
Fixpoint string_drop (n : nat) (s : string) : string :=
  match n, s with
  | O, _ => s
  | S n', String _ s' => string_drop n' s'
  | S _, EmptyString => EmptyString
  end.

(** [name.replace(key, alias, 1)] for a [name] that starts with [key]: the
    first occurrence of [key] is the prefix. *)
Definition replace_prefix (key alias name : string) : string :=
  String.append alias (string_drop (String.length key) name).

(** The characters [':'] and ['.']. *)
Definition colon : Ascii.ascii := Ascii.ascii_of_nat 58.
Definition dot : Ascii.ascii := Ascii.ascii_of_nat 46.

(** [name.replace(':', '.')]. *)
Fixpoint colons_to_dots (name : string) : string :=
  match name with
  | EmptyString => EmptyString
  | String c rest =>
      String (if Ascii.eqb c colon then dot else c) (colons_to_dots rest)
  end.

(** [_normalize_qualname], with the dict that [_ALIASES] names. *)
Definition _normalize_qualname (aliases : dict string) (name : string) : string :=
  colons_to_dots
    (fold_left (fun name ka =>
                  if String.prefix (fst ka) name
                  then replace_prefix (fst ka) (snd ka) name
                  else name)
       aliases name).

(** ** Proof steps shared by the ordering lemmas *)

(** Case analysis on the membership of a stamp in a list built from
    appends, maps, conditionals and explicit elements. *)
Ltac in_cases :=
  repeat match goal with
  | H : In _ (_ ++ _) |- _ => apply in_app_or in H; destruct H as [H|H]
  | H : In _ (map _ _) |- _ => apply in_map_iff in H; destruct H as [? [<- _]]
  | H : In _ (if ?b then _ else _) |- _ => destruct b
  | H : In _ (_ :: _) |- _ => destruct H as [<-|H]
  | H : In _ [] |- _ => destruct H
  end.

(** Two stamps of the same step taken from two parts of a step: the first
    has the smaller rank. *)
Ltac cross_order :=
  let x := fresh "x" in let y := fresh "y" in
  let Hx := fresh "Hx" in let Hy := fresh "Hy" in
  intros x y Hx Hy; in_cases;
  right; (split; [reflexivity|]); left; cbn; lia.

(** ** The enumerated steps *)

Lemma count_from_length (a : Z) (n : nat) : List.length (count_from a n) = n.
Proof.
  revert a; induction n as [|n IH]; intros a; simpl; [reflexivity|].
  now rewrite IH.
Qed.

Lemma count_from_In (n : nat) :
  forall a i, In i (count_from a n) <-> a <= i < a + Z.of_nat n.
Proof.
  induction n as [|n IH]; intros a i; simpl.
  - split; [tauto | lia].
  - rewrite IH. lia.
Qed.

Lemma count_from_nth (n : nat) :
  forall a j d, (j < n)%nat -> nth j (count_from a n) d = a + Z.of_nat j.
Proof.
  induction n as [|n IH]; intros a j d Hj; [lia|].
  destruct j as [|j]; simpl.
  - lia.
  - rewrite IH by lia. lia.
Qed.

Lemma count_from_app (n1 n2 : nat) :
  forall a, count_from a (n1 + n2) = count_from a n1 ++ count_from (a + Z.of_nat n1) n2.
Proof.
  induction n1 as [|n1 IH]; intros a.
  - simpl. now rewrite Z.add_0_r.
  - cbn [Nat.add count_from app]. rewrite IH. do 3 f_equal. lia.
Qed.

Lemma enum_iter_steps (a t : Z) :
  map fst (enum_iter a t) = count_from a (Z.to_nat (t - a)).
Proof.
  unfold enum_iter. rewrite map_map. simpl. apply map_id.
Qed.

(** C2. For [initial_step <= num_train_steps] the enumerator raises nothing
    and yields exactly the consecutive integers
    [initial_step, initial_step + 1, ..., total_steps - 1], where
    [total_steps] is [min (num_train_steps + 1) stop_after_steps] when
    [stop_after_steps] is given and [num_train_steps + 1] otherwise; the index
    [num_train_steps] is among them when [stop_after_steps] does not cut it
    off. *)
Theorem enum_steps_consecutive
    (initial_step n : Z) (stop_after_steps : option Z) (lead : bool) :
  initial_step <= n ->
  exists gen,
    _enum_steps_with_hooks initial_step (Some n) stop_after_steps lead = inr gen /\
    let total_steps :=
      match stop_after_steps with
      | Some s => Z.min (n + 1) s
      | None => n + 1
      end in
    List.length (g_steps gen) = Z.to_nat (total_steps - initial_step) /\
    (forall j d, (j < List.length (g_steps gen))%nat ->
                 nth j (g_steps gen) d = initial_step + Z.of_nat j) /\
    (forall i, In i (g_steps gen) <-> initial_step <= i < total_steps) /\
    (match stop_after_steps with Some s => n < s | None => True end ->
     In n (g_steps gen)).
Proof.
  intros Hle. eexists. split; [reflexivity|].
  cbn [g_steps]. rewrite enum_iter_steps.
  assert (Ht : total_steps_of n stop_after_steps =
               match stop_after_steps with
               | Some s => Z.min (n + 1) s
               | None => n + 1
               end) by reflexivity.
  rewrite Ht. clear Ht. cbv zeta.
  set (t := match stop_after_steps with Some s => Z.min (n + 1) s | None => n + 1 end).
  rewrite count_from_length.
  split; [reflexivity|].
  split; [intros j d Hj; now apply count_from_nth|].
  split.
  - intros i. rewrite count_from_In. lia.
  - intros Hcut. apply count_from_In.
    assert (t = n + 1) by (subst t; destruct stop_after_steps; lia).
    lia.
Qed.

(** Resuming at step 3 with a budget of 10 steps cut at 7. *)
Lemma enum_steps_consecutive_witness :
  3 <= 10 /\
  exists gen,
    _enum_steps_with_hooks 3 (Some 10) (Some 7) true = inr gen /\
    g_steps gen = [3; 4; 5; 6].
Proof.
  split; [lia|].
  destruct (enum_steps_consecutive 3 10 (Some 7) true) as [gen [Hg _]]; [lia|].
  exists gen. split; [exact Hg|].
  inversion Hg. reflexivity.
Defined.

(** ** The body of the loop *)

Section BodyFacts.

Variable C : Collaborators.

Lemma env_extend_nil (e : Env C) : env_extend e (e_ckpt e) [] = e.
Proof.
  destruct e. unfold env_extend. simpl. now rewrite app_nil_r.
Qed.

Lemma env_emit_extend (ev : Event C) (e : Env C) :
  env_emit C ev e = env_extend e (e_ckpt e) [ev].
Proof. reflexivity. Qed.

Lemma env_extend_extend (e : Env C) ck ck' (a b : list (Event C)) :
  env_extend (env_extend e ck a) ck' b = env_extend e ck' (a ++ b).
Proof.
  unfold env_extend. simpl. now rewrite map_app, app_assoc.
Qed.

Lemma e_ckpt_extend (e : Env C) ck (a : list (Event C)) :
  e_ckpt (env_extend e ck a) = ck.
Proof. reflexivity. Qed.

Lemma for_each_emit {A : Type} (f : A -> Event C) (l : list A) :
  forall (L : Locals C) (e : Env C),
    for_each C l (fun a => emit C (f a)) (L, e) =
    Ok tt (L, env_extend e (e_ckpt e) (map f l)).
Proof.
  induction l as [|a l IH]; intros L e.
  - simpl. unfold ret. now rewrite env_extend_nil.
  - cbn [for_each]. unfold bind at 1. unfold emit at 1. cbn [fst snd].
    rewrite IH, env_emit_extend, env_extend_extend. reflexivity.
Qed.

Lemma run_hooks_run (hooks : list Hook) (i : Z) (L : Locals C) (e : Env C) :
  run_hooks C hooks i (L, e) = Ok tt (L, env_extend e (e_ckpt e) (hook_events C hooks i)).
Proof. apply for_each_emit. Qed.

Lemma ckpt_save_run (i : Z) (L : Locals C) (e : Env C) :
  ckpt_save C i (L, e) =
  Ok tt (L, env_extend e ((i, cs_of L) :: e_ckpt e) [EvSave i (cs_of L)]).
Proof. reflexivity. Qed.

(** The excluded part of a step: save when due, then every evaluator. *)
Lemma dispatch_run (trainer : Trainer) (i : Z) (L : Locals C) (e : Env C) :
  exclude_from_step_stats C
    (bind C
       (bind C (get_env C)
          (fun e0 => when C (should_save C (e_ckpt e0) i) (ckpt_save C i)))
       (fun _ => for_each C (evals trainer)
                   (fun evaluator => emit C (EvMaybeEval evaluator i))))
    (L, e) =
  Ok tt (L, env_extend e (saved_ckpt C i L e) (dispatch_events C trainer i L e)).
Proof.
  unfold exclude_from_step_stats, saved_ckpt, dispatch_events.
  unfold bind at 1. unfold bind at 1. unfold get_env at 1. cbn [fst snd].
  destruct (should_save C (e_ckpt e) i); cbn [when].
  - rewrite ckpt_save_run, for_each_emit, env_extend_extend. reflexivity.
  - unfold ret. rewrite for_each_emit. reflexivity.
Qed.

Lemma body_done_tail (trainer : Trainer) (i : Z) (L L' : Locals C) (e : Env C)
    ck (evs : list (Event C)) (w : bool) (ev : Event C) :
  body_view C trainer i L e
    (Ok tt (L', env_extend e ck
                  (evs ++ (if w && e_is_lead_host e then [ev] else [])))) ->
  body_view C trainer i L e
    ((if w && e_is_lead_host (env_extend e ck evs)
      then fun m : Machine C => Ok tt (fst m, env_emit C ev (snd m))
      else fun m : Machine C => Ok tt m) (L', env_extend e ck evs)).
Proof.
  cbn [e_is_lead_host env_extend].
  destruct (w && e_is_lead_host e); cbn [fst snd].
  - now rewrite env_emit_extend, env_extend_extend.
  - now rewrite app_nil_r.
Qed.

Lemma body_spec (trainer : Trainer) (i : Z) (L : Locals C) (e : Env C) :
  body_view C trainer i L e (loop_body C trainer i (L, e)).
Proof.
  unfold loop_body.
  unfold bind at 1. rewrite dispatch_run.
  unfold py_mod_is_zero.
  destruct (Z.eqb_spec (log_summaries_every trainer) 0) as [Hs|Hs].
  { cbn. apply BodyZeroDivision. now left. }
  unfold bind at 1. cbn [lift ret].
  destruct (Z.eqb_spec (log_metrics_every trainer) 0) as [Hm|Hm].
  { cbn. apply BodyZeroDivision. now right. }
  unfold bind at 1. cbn [lift ret].
  unfold bind at 1. unfold next_ds_iter. unfold bind at 1. unfold get_locals at 1.
  cbn [fst snd].
  destruct (train_ds C (l_ds_iter L)) as [b|] eqn:Hds.
  2:{ cbn. now apply BodyStopIteration. }
  pose proof (BodyCheckify C trainer i L e b Hs Hm Hds) as HC.
  pose proof (BodyDone C trainer i L e b Hs Hm Hds) as HD.
  unfold checkify_raises, stepped, exec_events, write_events, step_result,
    log_any_at, log_metrics_at, log_summaries_at in HC, HD.
  cbn -[Z.modulo Z.eqb truthy].
  unfold throw_aux_error, bind, get_locals, get_env, when, emit, ret, raise.
  cbn -[Z.modulo Z.eqb truthy].
  set (res := trainstep_step C _ _ _ _ _ _) in *.
  rewrite !env_emit_extend, !e_ckpt_extend, !env_extend_extend. cbn [app].
  destruct (truthy (checkify_error_categories trainer));
    cbn [andb l_aux fst snd] in HC, HD |- *.
  - destruct (aux_error C (snd res)).
    + exact (HC eq_refl).
    + specialize (HD eq_refl). rewrite app_assoc in HD.
      apply body_done_tail. exact HD.
  - specialize (HD eq_refl). rewrite app_assoc in HD.
    apply body_done_tail. exact HD.
Qed.

Lemma for_steps_cons (trainer : Trainer) (hooks : list Hook) (i : Z) (rest : list Z)
    (L : Locals C) (e : Env C) :
  for_steps C (i :: rest) hooks (loop_body C trainer) (L, e) =
  match loop_body C trainer i (L, e) with
  | Ok _ (L1, e1) =>
      for_steps C rest hooks (loop_body C trainer)
        (L1, env_extend e1 (e_ckpt e1) (hook_events C hooks i))
  | Raised x m => Raised x m
  end.
Proof.
  cbn [for_steps]. unfold bind at 1.
  destruct (loop_body C trainer i (L, e)) as [[] [L1 e1]|x m]; [|reflexivity].
  unfold bind at 1. now rewrite run_hooks_run.
Qed.

Lemma loop_spec (trainer : Trainer) (hooks : list Hook) (l : list Z) :
  forall (L : Locals C) (e : Env C),
  exists evs,
    loop_view C trainer hooks l L e
      (for_steps C l hooks (loop_body C trainer) (L, e)) evs.
Proof.
  induction l as [|i rest IH]; intros L e.
  - exists []. apply LoopEnd.
  - rewrite for_steps_cons.
    destruct (body_spec trainer i L e) as [Hz|Hs Hm Hds|b Hs Hm Hds Hc|b Hs Hm Hds Hc].
    + eexists. apply LoopAbort. now apply BodyZeroDivision.
    + eexists. apply LoopAbort. now apply BodyStopIteration.
    + eexists. apply LoopAbort. now apply BodyCheckify.
    + rewrite e_ckpt_extend, env_extend_extend, <- !app_assoc.
      destruct (IH (stepped C trainer i L b)
                  (env_extend e (saved_ckpt C i L e)
                     (dispatch_events C trainer i L e ++
                      exec_events C trainer i L b ++ write_events C trainer i e ++
                      hook_events C hooks i))) as [evs Hevs].
      exists (dispatch_events C trainer i L e ++ exec_events C trainer i L b ++
              write_events C trainer i e ++ hook_events C hooks i ++ evs).
      now apply LoopStep.
Qed.

Lemma loop_view_env (trainer : Trainer) (hooks : list Hook) l L e out evs :
  loop_view C trainer hooks l L e out evs ->
  exists ck, snd (out_machine out) = env_extend e ck evs.
Proof.
  induction 1 as [L e|i rest L e x L' ck evs Hb|i rest L e b out evs Hs Hm Hds Hc Hl IH].
  - exists (e_ckpt e). cbn. now rewrite env_extend_nil.
  - now exists ck.
  - destruct IH as [ck IH]. exists ck.
    rewrite IH, env_extend_extend, <- !app_assoc. reflexivity.
Qed.

Lemma train_init_run (trainer : Trainer) (e : Env C) :
  train_init C trainer e =
  (initial_step_of C e,
   (init_locals C trainer e, env_extend e (e_ckpt e) (init_events C e))).
Proof.
  unfold train_init, init_locals, init_events, initial_step_of. cbv zeta.
  rewrite !env_emit_extend, !e_ckpt_extend.
  destruct (match ckpt_latest_step (e_ckpt e) with None => 0 | Some s => s end =? 0);
    rewrite ?env_emit_extend, ?e_ckpt_extend, !env_extend_extend; reflexivity.
Qed.

(** [train_impl] when [num_train_steps] is [None]: the generator raises at
    its first [next]. *)
Lemma train_impl_none (trainer : Trainer) (e : Env C) :
  num_train_steps trainer = None ->
  exists msg,
    train_impl C trainer e =
    Raised (ValueError msg)
      (init_locals C trainer e, env_extend e (e_ckpt e) (init_events C e)).
Proof.
  intros Hn. eexists.
  unfold train_impl. rewrite train_init_run.
  unfold bind at 1. unfold train_loop, _transfer_guard, transfer_guard.
  cbn [fst snd e_disable_jit env_extend].
  unfold bind at 1 3. unfold get_env. cbn [fst snd].
  rewrite Hn. cbn [_enum_steps_with_hooks lift raise].
  destruct (e_disable_jit e); cbn [negb]; [reflexivity|].
  unfold raise. cbn. reflexivity.
Qed.

Lemma train_finish_run (trainer : Trainer) (e e' : Env C) (L : Locals C) ck
    (evs : list (Event C)) :
  e_ckpt e' = ck ->
  train_finish C trainer
    (L, mkEnv (e_is_lead_host e) (e_disable_jit e) (e_guard e) ck (e_fs e)
          ((e_trace e ++ map (pair (e_guard e)) (init_events C e)) ++
           map (pair (loop_guard C e)) evs)) =
  finish C trainer e (Ok tt (L, e')) evs.
Proof.
  intros <-.
  unfold train_finish, finish, run_trace, finish_events.
  set (I := map (pair (e_guard e)) (init_events C e)).
  set (V := map (pair (loop_guard C e)) evs).
  unfold bind at 1. unfold get_env at 1. cbn [fst snd e_fs].
  fold (workdir_exists C trainer e). fold (sentinel trainer).
  destruct (workdir_exists C trainer e); cbn [when];
    unfold bind, modify_env, _sync, transfer_guard, get_locals, ret;
    unfold emit; unfold env_emit, env_set_fs, env_set_guard;
    cbn [fst snd e_is_lead_host e_disable_jit e_guard e_ckpt e_fs e_trace map];
    do 3 f_equal; rewrite <- !app_assoc; reflexivity.
Qed.

Lemma loop_env_trace (e : Env C) ck (evs : list (Event C)) :
  env_set_guard C (e_guard e) (env_extend (loop_env C e) ck evs) =
  mkEnv (e_is_lead_host e) (e_disable_jit e) (e_guard e) ck (e_fs e)
    ((e_trace e ++ map (pair (e_guard e)) (init_events C e)) ++
     map (pair (loop_guard C e)) evs).
Proof. reflexivity. Qed.

(** [train_impl] when [num_train_steps] is given: the loop, then the
    sentinel and the barrier. *)
Lemma train_impl_some (trainer : Trainer) (e : Env C) (n : Z) :
  num_train_steps trainer = Some n ->
  exists out evs,
    loop_view C trainer (loop_hooks C e) (loop_steps C n trainer e)
      (init_locals C trainer e) (loop_env C e) out evs /\
    train_impl C trainer e = finish C trainer e out evs.
Proof.
  intros Hn.
  destruct (loop_spec trainer (loop_hooks C e) (loop_steps C n trainer e)
              (init_locals C trainer e) (loop_env C e)) as [evs Hv].
  eexists. exists evs. split; [exact Hv|].
  destruct (loop_view_env _ _ _ _ _ _ _ Hv) as [ck Hck].
  unfold train_impl. rewrite train_init_run.
  unfold bind at 1. unfold train_loop, _transfer_guard, transfer_guard.
  unfold bind at 1 3. unfold bind at 1 2. unfold get_env at 1 2.
  cbn [fst snd e_disable_jit e_is_lead_host e_guard env_extend].
  rewrite Hn. cbn [_enum_steps_with_hooks lift ret g_steps g_hooks].
  rewrite enum_iter_steps.
  fold (loop_hooks C e). fold (loop_steps C n trainer e).
  change (e_is_lead_host (env_set_guard C Disallow
            (env_extend e (e_ckpt e) (init_events C e))))
    with (e_is_lead_host e).
  fold (loop_hooks C e).
  assert (He : loop_env C e =
               if negb (e_disable_jit e)
               then env_set_guard C Disallow (env_extend e (e_ckpt e) (init_events C e))
               else env_extend e (e_ckpt e) (init_events C e)).
  { unfold loop_env, loop_guard. now destruct (e_disable_jit e). }
  assert (Hg : forall e' : Env C,
             e_guard e' = loop_guard C e ->
             e_disable_jit e = true ->
             env_set_guard C (e_guard e) e' = e').
  { intros [] Hg' Hj. unfold loop_guard in Hg'. rewrite Hj in Hg'.
    cbn in Hg'. subst. reflexivity. }
  destruct (e_disable_jit e) eqn:Hj; cbn [negb] in He |- *; rewrite <- He.
  - destruct (for_steps C _ _ _ _) as [[] [L' e']|x [L' e']];
      cbn [snd out_machine] in Hck; subst e'.
    + rewrite <- (Hg (env_extend (loop_env C e) ck evs)) by reflexivity.
      rewrite loop_env_trace. now apply train_finish_run.
    + rewrite <- (Hg (env_extend (loop_env C e) ck evs)) by reflexivity.
      rewrite loop_env_trace. unfold finish, run_trace.
      now rewrite app_nil_r, app_assoc.
  - destruct (for_steps C _ _ _ _) as [[] [L' e']|x [L' e']];
      cbn [snd fst out_machine] in Hck |- *; subst e'.
    + rewrite loop_env_trace. now apply train_finish_run.
    + rewrite loop_env_trace. unfold finish, run_trace.
      now rewrite app_nil_r, app_assoc.
Qed.

End BodyFacts.

(** ** Reading the trace of a run *)

Section TraceFacts.

Variable C : Collaborators.

Lemma new_events_app (e : Env C) (m : Machine C) (d : list (Policy * Event C)) :
  e_trace (snd m) = e_trace e ++ d -> new_events e m = d.
Proof.
  intros H. unfold new_events. rewrite H.
  rewrite skipn_app, skipn_all, Nat.sub_diag. reflexivity.
Qed.

Lemma pair_inj (g : Policy) (a b : list (Event C)) :
  map (pair g) a = map (pair g) b -> a = b.
Proof.
  revert b; induction a as [|x a IH]; intros [|y b] H; try discriminate; [reflexivity|].
  cbn in H. injection H as Hx Hr. f_equal; auto.
Qed.

Lemma env_extend_inj (e : Env C) ck ck' (a b : list (Event C)) :
  env_extend e ck a = env_extend e ck' b -> ck = ck' /\ a = b.
Proof.
  unfold env_extend. intros H. injection H as Hck Htr.
  split; [assumption|].
  apply app_inv_head in Htr. now apply pair_inj in Htr.
Qed.

(** How the body of the loop can raise. *)
Lemma abort_inv (trainer : Trainer) (i : Z) (L L' : Locals C) (e : Env C)
    (x : Exn) ck (evs : list (Event C)) :
  body_view C trainer i L e (Raised x (L', env_extend e ck evs)) ->
  (x <> JaxRuntimeError /\ L' = L /\ evs = dispatch_events C trainer i L e) \/
  (exists b,
     x = JaxRuntimeError /\
     train_ds C (l_ds_iter L) = Some b /\
     checkify_raises C trainer i L b = true /\
     L' = stepped C trainer i L b /\
     evs = dispatch_events C trainer i L e ++ exec_events C trainer i L b).
Proof.
  intros H.
  inversion H as [Hz Heq|Hs Hm Hds Heq|b Hs Hm Hds Hc Heq|];
    match goal with Hx : _ ++ map _ _ = _ ++ map _ _ |- _ =>
      apply app_inv_head, pair_inj in Hx end;
    subst.
  - left. repeat split; congruence.
  - left. repeat split; congruence.
  - right. exists b. repeat split; trivial.
Qed.

Lemma stamps_app (a b : list (Policy * Event C)) :
  stamps (a ++ b) = stamps a ++ stamps b.
Proof. apply flat_map_app. Qed.

Lemma estamps_app (a b : list (Event C)) :
  estamps (a ++ b) = estamps a ++ estamps b.
Proof. apply flat_map_app. Qed.

Lemma stamps_pair (g : Policy) (evs : list (Event C)) :
  stamps (map (pair g) evs) = estamps evs.
Proof.
  induction evs as [|ev evs IH]; [reflexivity|].
  unfold stamps, estamps in *. cbn [map flat_map snd]. now rewrite IH.
Qed.

Lemma stamps_init (g : Policy) (e : Env C) :
  stamps (map (pair g) (init_events C e)) = [].
Proof. unfold init_events. now destruct (initial_step_of C e =? 0). Qed.

Lemma stamps_finish (g : Policy) (trainer : Trainer) (e : Env C) :
  stamps (map (pair g) (finish_events C trainer e) ++ [(Allow, EvSync)]) = [].
Proof. unfold finish_events. now destruct (workdir_exists C trainer e). Qed.

Lemma stamps_run_trace (trainer : Trainer) (e : Env C) (evs : list (Event C))
    (done : bool) :
  stamps (run_trace C trainer e evs done) = estamps evs.
Proof.
  unfold run_trace. rewrite !stamps_app, stamps_init, stamps_pair.
  destruct done; [rewrite stamps_finish|]; cbn; now rewrite app_nil_r.
Qed.

End TraceFacts.

(** ** Runs of [train_impl] *)

Section RunFacts.

Variable C : Collaborators.

Lemma finish_new_events (trainer : Trainer) (e : Env C) (out : Outcome C unit)
    (evs : list (Event C)) :
  new_events e (out_machine (finish C trainer e out evs)) =
  run_trace C trainer e evs (completed out).
Proof.
  apply new_events_app.
  destruct out as [[] [L e']|x [L e']]; reflexivity.
Qed.

Lemma train_impl_none_events (trainer : Trainer) (e : Env C) :
  num_train_steps trainer = None ->
  new_events e (out_machine (train_impl C trainer e)) =
  run_trace C trainer e [] false.
Proof.
  intros Hn. destruct (train_impl_none C trainer e Hn) as [msg ->].
  apply new_events_app. unfold run_trace. cbn. now rewrite app_nil_r.
Qed.

(** Every run of [train_impl] adds the calls made before the loop, the
    calls [evs] of the loop and, when the loop completes, the sentinel and
    the barrier. *)
Lemma train_impl_events (trainer : Trainer) (e : Env C) :
  exists evs,
    new_events e (out_machine (train_impl C trainer e)) =
    run_trace C trainer e evs (completed (train_impl C trainer e)) /\
    match num_train_steps trainer with
    | None => evs = [] /\ completed (train_impl C trainer e) = false
    | Some n =>
        exists out,
          loop_view C trainer (loop_hooks C e) (loop_steps C n trainer e)
            (init_locals C trainer e) (loop_env C e) out evs /\
          train_impl C trainer e = finish C trainer e out evs
    end.
Proof.
  destruct (num_train_steps trainer) as [n|] eqn:Hn.
  - destruct (train_impl_some C trainer e n Hn) as [out [evs [Hv Hrun]]].
    exists evs. split; [|now exists out].
    rewrite Hrun, finish_new_events.
    now destruct out as [[] [L e']|x [L e']].
  - exists []. destruct (train_impl_none C trainer e Hn) as [msg Hrun].
    split; [|split; [reflexivity|now rewrite Hrun]].
    rewrite train_impl_none_events by assumption. now rewrite Hrun.
Qed.

End RunFacts.

(** ** Order of the effects of a step *)

Section OrderFacts.

Variable C : Collaborators.

Lemma sorted_app {A : Type} (R : A -> A -> Prop) (l1 l2 : list A) :
  StronglySorted R l1 -> StronglySorted R l2 ->
  (forall x y, In x l1 -> In y l2 -> R x y) ->
  StronglySorted R (l1 ++ l2).
Proof.
  induction l1 as [|a l1 IH]; intros H1 H2 Hc; [exact H2|].
  inversion H1 as [|? ? Hs Hf]; subst. cbn. constructor.
  - apply IH; auto. intros x y Hx Hy. apply Hc; [now right|assumption].
  - apply Forall_app. split; [assumption|].
    apply Forall_forall. intros y Hy. apply Hc; [now left|assumption].
Qed.

Lemma sorted_app_inv {A : Type} (R : A -> A -> Prop) (l1 l2 : list A) :
  StronglySorted R (l1 ++ l2) ->
  StronglySorted R l1 /\ StronglySorted R l2 /\
  (forall x y, In x l1 -> In y l2 -> R x y).
Proof.
  induction l1 as [|a l1 IH]; cbn; intros H.
  - repeat split; [constructor|assumption|intros x y []].
  - inversion H as [|? ? Hs Hf]; subst.
    destruct (IH Hs) as [H1 [H2 Hc]].
    apply Forall_app in Hf. destruct Hf as [Hf1 Hf2].
    repeat split; [now constructor|assumption|].
    intros x y [<-|Hx] Hy; [|now apply Hc].
    rewrite Forall_forall in Hf2. now apply Hf2.
Qed.

Lemma count_from_sorted (n : nat) : forall a, StronglySorted Z.lt (count_from a n).
Proof.
  induction n as [|n IH]; intros a; cbn; constructor; [apply IH|].
  apply Forall_forall. intros i Hi. apply count_from_In in Hi. lia.
Qed.

Lemma repeated_sorted {A : Type} (i : Z) (p : Phase) (l : list A) :
  repeatable p = true ->
  StronglySorted step_order (map (fun _ => (i, p)) l).
Proof.
  intros Hp. induction l as [|a l IH]; cbn; constructor; [assumption|].
  apply Forall_forall. intros s Hs. apply in_map_iff in Hs.
  destruct Hs as [? [<- _]]. right. split; [reflexivity|]. right. now split.
Qed.

Lemma step_stamps_sorted {A B : Type} (i : Z) (sv : bool) (evaluators : list A)
    (wr : bool) (hooks : list B) :
  StronglySorted step_order (step_stamps i sv evaluators wr hooks).
Proof.
  unfold step_stamps.
  apply sorted_app; [destruct sv; repeat constructor| |cross_order].
  apply sorted_app; [now apply repeated_sorted| |cross_order].
  apply sorted_app; [|apply sorted_app|cross_order].
  - repeat constructor; right; (split; [reflexivity|]); left; cbn; lia.
  - destruct wr; repeat constructor.
  - now apply repeated_sorted.
  - cross_order.
Qed.

Lemma estamps_dispatch (trainer : Trainer) (i : Z) (L : Locals C) (e : Env C) :
  estamps (dispatch_events C trainer i L e) =
  (if should_save C (e_ckpt e) i then [(i, PSave)] else []) ++
  map (fun _ => (i, PEval)) (evals trainer).
Proof.
  unfold dispatch_events. rewrite estamps_app. f_equal.
  - now destruct (should_save C (e_ckpt e) i).
  - induction (evals trainer) as [|a l IH]; [reflexivity|].
    unfold estamps in *. cbn. now rewrite IH.
Qed.

Lemma estamps_exec (trainer : Trainer) (i : Z) (L : Locals C) (b : Batch C) :
  estamps (exec_events C trainer i L b) =
  [(i, PFetch); (i, PPut); (i, PStep); (i, PTimer)].
Proof. reflexivity. Qed.

Lemma estamps_write (trainer : Trainer) (i : Z) (e : Env C) :
  estamps (write_events C trainer i e) =
  if log_any_at trainer i && e_is_lead_host e then [(i, PWrite)] else [].
Proof.
  unfold write_events. now destruct (log_any_at trainer i && e_is_lead_host e).
Qed.

Lemma estamps_hooks (hooks : list Hook) (i : Z) :
  estamps (hook_events C hooks i) = map (fun _ => (i, PHook)) hooks.
Proof.
  induction hooks as [|h l IH]; [reflexivity|].
  unfold estamps, hook_events in *. cbn. now rewrite IH.
Qed.

(** The stamps of a step that ran to completion. *)
Lemma estamps_step (trainer : Trainer) (hooks : list Hook) (i : Z)
    (L : Locals C) (e : Env C) (b : Batch C) :
  estamps (dispatch_events C trainer i L e ++ exec_events C trainer i L b ++
           write_events C trainer i e ++ hook_events C hooks i) =
  step_stamps i (should_save C (e_ckpt e) i) (evals trainer)
    (log_any_at trainer i && e_is_lead_host e) hooks.
Proof.
  rewrite !estamps_app, estamps_dispatch, estamps_exec, estamps_write, estamps_hooks.
  unfold step_stamps. now rewrite <- app_assoc.
Qed.

Lemma step_stamps_step {A B : Type} (i : Z) (sv : bool) (evaluators : list A)
    (wr : bool) (hooks : list B) :
  Forall (fun s => fst s = i) (step_stamps i sv evaluators wr hooks).
Proof.
  apply Forall_forall. intros s Hs. unfold step_stamps in Hs.
  in_cases; reflexivity.
Qed.

(** The stamps of a step that raised are an initial part of those of a
    complete step. *)
Lemma estamps_abort (trainer : Trainer) (i : Z) (L L' : Locals C) (e : Env C)
    (x : Exn) ck (evs : list (Event C)) :
  body_view C trainer i L e (Raised x (L', env_extend e ck evs)) ->
  exists rest,
    step_stamps i (should_save C (e_ckpt e) i) (evals trainer) false (@nil Hook) =
    estamps evs ++ rest.
Proof.
  intros H. apply abort_inv in H.
  destruct H as [[_ [_ ->]]|[b [_ [_ [_ [_ ->]]]]]].
  - rewrite estamps_dispatch. unfold step_stamps. rewrite app_assoc.
    eexists. reflexivity.
  - rewrite estamps_app, estamps_dispatch, estamps_exec. unfold step_stamps.
    exists []. cbn [map app]. now rewrite !app_nil_r, <- app_assoc.
Qed.

(** The calls of a loop over increasing steps are stamped in order, and
    only with steps of the loop. *)
Lemma loop_sorted (trainer : Trainer) (hooks : list Hook) l L e out evs :
  loop_view C trainer hooks l L e out evs ->
  StronglySorted Z.lt l ->
  StronglySorted step_order (estamps evs) /\
  Forall (fun s => In (fst s) l) (estamps evs).
Proof.
  induction 1 as [L e|i rest L e x L' ck evs Hb|i rest L e b out evs Hs Hm Hds Hc Hl IH];
    intros Hsorted.
  - split; constructor.
  - destruct (estamps_abort _ _ _ _ _ _ _ _ Hb) as [tl Htl].
    pose proof (step_stamps_sorted i (should_save C (e_ckpt e) i) (evals trainer)
                  false (@nil Hook)) as Hso.
    pose proof (step_stamps_step i (should_save C (e_ckpt e) i) (evals trainer)
                  false (@nil Hook)) as Hst.
    rewrite Htl in Hso, Hst.
    apply sorted_app_inv in Hso. apply Forall_app in Hst.
    split; [tauto|].
    eapply Forall_impl; [|exact (proj1 Hst)].
    intros s ->. now left.
  - inversion Hsorted as [|? ? Hrest Hlt]; subst.
    destruct (IH Hrest) as [IHs IHf].
    rewrite !app_assoc, estamps_app, <- !app_assoc, estamps_step.
    pose proof (step_stamps_step i (should_save C (e_ckpt e) i) (evals trainer)
                  (log_any_at trainer i && e_is_lead_host e) hooks) as Hst.
    split.
    + apply sorted_app; [apply step_stamps_sorted|assumption|].
      intros s1 s2 H1 H2. left.
      rewrite Forall_forall in Hst, IHf, Hlt.
      rewrite (Hst s1 H1). apply Hlt. now apply IHf.
    + apply Forall_app. split.
      * eapply Forall_impl; [|exact Hst]. intros s ->. now left.
      * eapply Forall_impl; [|exact IHf]. intros s Hin. now right.
Qed.

Lemma In_estamps (evs : list (Event C)) (ev : Event C) (s : Z * Phase) :
  In ev evs -> stamp ev = Some s -> In s (estamps evs).
Proof.
  intros Hin Hs. unfold estamps. apply in_flat_map.
  exists ev. split; [assumption|]. rewrite Hs. now left.
Qed.

(** A loop that completes fetched, executed and timed each of its steps,
    after a dispatch to every evaluator and before a call of every hook. *)
Lemma loop_completed_steps (trainer : Trainer) (hooks : list Hook) l L e out evs :
  loop_view C trainer hooks l L e out evs ->
  completed out = true ->
  forall i, In i l ->
    (In (i, PFetch) (estamps evs) /\ In (i, PPut) (estamps evs) /\
     In (i, PStep) (estamps evs) /\ In (i, PTimer) (estamps evs)) /\
    (forall evaluator, In evaluator (evals trainer) ->
                       In (EvMaybeEval evaluator i) evs) /\
    (forall h, In h hooks -> In (EvHook h i) evs).
Proof.
  induction 1 as [L e|i rest L e x L' ck evs Hb|i rest L e b out evs Hs Hm Hds Hc Hl IH];
    intros Hdone j Hj.
  - destruct Hj.
  - discriminate.
  - rewrite !estamps_app, estamps_exec.
    destruct Hj as [<-|Hj].
    + split; [|split].
      * repeat split; apply in_or_app; right; apply in_or_app; left; cbn; tauto.
      * intros evaluator Hev. apply in_or_app. left.
        unfold dispatch_events. apply in_or_app. right.
        now apply (in_map (fun a => EvMaybeEval a i)).
      * intros h Hh. do 3 (apply in_or_app; right). apply in_or_app. left.
        now apply (in_map (fun a => EvHook a i)).
    + destruct (IH Hdone j Hj) as [[H1 [H2 [H3 H4]]] [He Hh]].
      split; [|split].
      * repeat split; do 4 (apply in_or_app; right); assumption.
      * intros evaluator Hev. do 4 (apply in_or_app; right). now apply He.
      * intros h Hin. do 4 (apply in_or_app; right). now apply Hh.
Qed.

End OrderFacts.

Section StepOrder.

Variable C : Collaborators.

Lemma completed_finish (trainer : Trainer) (e : Env C) (out : Outcome C unit)
    (evs : list (Event C)) :
  completed (finish C trainer e out evs) = completed out.
Proof. now destruct out as [[] [L e']|x [L e']]. Qed.



End StepOrder.


(** ** Failure on an undefined step budget *)

Section NoBudget.

Variable C : Collaborators.

(** C3, as the code has it.  When [num_train_steps] is [None], [train_impl]
    raises [ValueError] when the loop is entered, that is after the setup,
    the initialisation of the state, the restoration of the checkpoint and,
    when the run starts at step 0, the four fresh-start writer calls, which
    are the only calls made.  No checkpoint is saved, no path is created (so
    no sentinel), no batch is fetched, no step is executed and
    [write_step_metrics] is not called; the transfer guard is back to the
    ambient policy. *)
Theorem no_budget_raises_at_loop_entry (trainer : Trainer) (e : Env C) :
  num_train_steps trainer = None ->
  exists msg m,
    train_impl C trainer e = Raised (ValueError msg) m /\
    e_ckpt (snd m) = e_ckpt e /\
    e_fs (snd m) = e_fs e /\
    e_guard (snd m) = e_guard e /\
    new_events e m =
      map (pair (e_guard e))
        ([EvSetupRun; EvInit (is_some (ckpt_latest_step (e_ckpt e)));
          EvRestore true] ++
         (if match ckpt_latest_step (e_ckpt e) with None => 0 | Some s => s end =? 0
          then [EvWriteConfig; EvWriteParamOverview 0; EvWriteElementSpec 0;
                EvWriteContextStructure 0]
          else [])).
Proof.
  intros Hn. destruct (train_impl_none C trainer e Hn) as [msg Hrun].
  exists msg. eexists. split; [exact Hrun|].
  repeat split.
  apply new_events_app. cbn [snd env_extend e_trace]. do 2 f_equal.
  unfold init_events, initial_step_of.
  destruct (Z.eqb_spec
              match ckpt_latest_step (e_ckpt e) with None => 0 | Some s => s end 0)
    as [->|]; reflexivity.
Qed.

End NoBudget.

(** A fresh run without step budget. *)
Lemma no_budget_raises_at_loop_entry_witness :
  num_train_steps (toy_trainer None None 1 1 []) = None /\
  exists msg m,
    train_impl toy (toy_trainer None None 1 1 []) toy_env = Raised (ValueError msg) m /\
    e_ckpt (snd m) = [] /\
    e_fs (snd m) = ["/w"%string].
Proof.
  split; [reflexivity|].
  destruct (no_budget_raises_at_loop_entry toy (toy_trainer None None 1 1 []) toy_env
              eq_refl) as [msg [m [Hrun [Hck [Hfs _]]]]].
  exists msg, m. repeat split; assumption.
Defined.

(** C3 as stated fails: on a fresh start the driver has restored the
    checkpointer and made the four fresh-start writer calls by the time the
    error is raised. *)
Lemma no_budget_counterexample :
  let trainer := toy_trainer None None 1 1 [] in
  num_train_steps trainer = None /\
  exists x m,
    train_impl toy trainer toy_env = Raised x m /\
    new_events toy_env m =
      [(Allow, EvSetupRun); (Allow, EvInit false); (Allow, EvRestore true);
       (Allow, EvWriteConfig); (Allow, EvWriteParamOverview 0);
       (Allow, EvWriteElementSpec 0); (Allow, EvWriteContextStructure 0)].
Proof.
  cbv zeta. split; [reflexivity|].
  eexists. eexists. split; reflexivity.
Qed.

(** ** The end of a run: sentinel, barrier, result *)

Section Completion.

Variable C : Collaborators.

(** Every call of the loop carries a step and a phase. *)
Lemma loop_events_stamped (trainer : Trainer) (hooks : list Hook) l L e out evs :
  loop_view C trainer hooks l L e out evs ->
  Forall (fun ev => stamp ev <> None) evs.
Proof.
  assert (Hd : forall i L e, Forall (fun ev : Event C => stamp ev <> None)
                               (dispatch_events C trainer i L e)).
  { intros i L0 e0. unfold dispatch_events. apply Forall_app. split.
    - destruct (should_save C (e_ckpt e0) i); repeat constructor; discriminate.
    - apply Forall_forall. intros ev Hin. apply in_map_iff in Hin.
      destruct Hin as [? [<- _]]. discriminate. }
  assert (Hx : forall i L b, Forall (fun ev : Event C => stamp ev <> None)
                               (exec_events C trainer i L b)).
  { intros i L0 b. repeat constructor; discriminate. }
  induction 1 as [L e|i rest L e x L' ck evs Hb|i rest L e b out evs Hs Hm Hds Hc Hl IH].
  - constructor.
  - apply abort_inv in Hb.
    destruct Hb as [[_ [_ ->]]|[b [_ [_ [_ [_ ->]]]]]]; [apply Hd|].
    apply Forall_app. split; [apply Hd|apply Hx].
  - apply Forall_app; split; [apply Hd|].
    apply Forall_app; split; [apply Hx|].
    apply Forall_app; split; [|apply Forall_app; split; [|exact IH]].
    + unfold write_events.
      destruct (log_any_at trainer i && e_is_lead_host e); repeat constructor.
      discriminate.
    + apply Forall_forall. intros ev Hin. apply in_map_iff in Hin.
      destruct Hin as [? [<- _]]. discriminate.
Qed.

Lemma init_events_unstamped (e : Env C) :
  Forall (fun ev => stamp ev = None /\ is_touch ev = false /\ is_sync ev = false)
    (init_events C e).
Proof.
  unfold init_events. destruct (initial_step_of C e =? 0); repeat constructor.
Qed.

(** Neither the calls before the loop nor those of the loop touch a file or
    synchronise. *)
Lemma before_finish_quiet (trainer : Trainer) (hooks : list Hook) l L e0 out evs
    (g1 g2 : Policy) (e : Env C) :
  loop_view C trainer hooks l L e0 out evs ->
  Forall (fun pe : Policy * Event C =>
            is_touch (snd pe) = false /\ is_sync (snd pe) = false)
    (map (pair g1) (init_events C e) ++ map (pair g2) evs).
Proof.
  intros Hv. apply Forall_app. split; apply Forall_forall; intros [g ev] Hin;
    apply in_map_iff in Hin; destruct Hin as [ev' [[= <- <-] Hin]]; cbn [snd].
  - pose proof (init_events_unstamped e) as Hi. rewrite Forall_forall in Hi.
    now apply Hi.
  - pose proof (loop_events_stamped _ _ _ _ _ _ _ Hv) as Hs.
    rewrite Forall_forall in Hs. specialize (Hs _ Hin).
    destruct ev'; try (now split); now elim Hs.
Qed.

Lemma last_step_result_app (a b : list (Policy * Event C)) :
  last_step_result (a ++ b) =
  match last_step_result b with
  | Some r => Some r
  | None => last_step_result a
  end.
Proof.
  induction a as [|[g ev] a IH]; cbn [app last_step_result].
  - now destruct (last_step_result b).
  - rewrite IH. destruct (last_step_result b); [reflexivity|].
    reflexivity.
Qed.

Lemma last_step_result_none (g : Policy) (evs : list (Event C)) :
  Forall (fun ev => match ev with EvStep _ _ _ _ _ => False | _ => True end) evs ->
  last_step_result (map (pair g) evs) = None.
Proof.
  induction 1 as [|ev evs Hev _ IH]; [reflexivity|].
  cbn [map last_step_result]. rewrite IH. now destruct ev.
Qed.

(** What a step that ran to completion leaves as last result. *)
Lemma last_step_result_step (trainer : Trainer) (hooks : list Hook) (g : Policy)
    (i : Z) (L : Locals C) (e : Env C) (b : Batch C) :
  last_step_result
    (map (pair g)
       (dispatch_events C trainer i L e ++ exec_events C trainer i L b ++
        write_events C trainer i e ++ hook_events C hooks i)) =
  Some (step_result C trainer i L b).
Proof.
  rewrite !map_app, !last_step_result_app.
  rewrite (last_step_result_none g (hook_events C hooks i)).
  2:{ apply Forall_forall. intros ev Hin. apply in_map_iff in Hin.
      now destruct Hin as [? [<- _]]. }
  rewrite (last_step_result_none g (write_events C trainer i e)).
  2:{ unfold write_events.
      destruct (log_any_at trainer i && e_is_lead_host e); repeat constructor. }
  reflexivity.
Qed.

(** The locals at the end of a completed loop hold what the last executed
    step returned; they are the initial ones when no step was executed. *)
Lemma loop_last_result (trainer : Trainer) (hooks : list Hook) (g : Policy)
    l L e out evs :
  loop_view C trainer hooks l L e out evs ->
  completed out = true ->
  match last_step_result (map (pair g) evs) with
  | Some r =>
      l_state (fst (out_machine out)) = fst r /\
      l_aux (fst (out_machine out)) = Some (snd r)
  | None => fst (out_machine out) = L
  end.
Proof.
  induction 1 as [L e|i rest L e x L' ck evs Hb|i rest L e b out evs Hs Hm Hds Hc Hl IH];
    intros Hdone.
  - reflexivity.
  - discriminate.
  - specialize (IH Hdone).
    rewrite !app_assoc, map_app, last_step_result_app, <- !app_assoc.
    destruct (last_step_result (map (pair g) evs)) as [r|]; [exact IH|].
    rewrite last_step_result_step, IH. now split.
Qed.

End Completion.

Section CompletionClaims.

Variable C : Collaborators.

(** A run that returns had a step budget and a loop that completed. *)
Lemma train_impl_completed (trainer : Trainer) (e : Env C) r m :
  train_impl C trainer e = Ok r m ->
  exists n L e' evs,
    num_train_steps trainer = Some n /\
    loop_view C trainer (loop_hooks C e) (loop_steps C n trainer e)
      (init_locals C trainer e) (loop_env C e) (Ok tt (L, e')) evs /\
    Ok r m = finish C trainer e (Ok tt (L, e')) evs.
Proof.
  intros Hrun.
  destruct (num_train_steps trainer) as [n|] eqn:Hn.
  - destruct (train_impl_some C trainer e n Hn) as [out [evs [Hv Hfin]]].
    rewrite Hrun in Hfin.
    destruct out as [[] [L e']|x [L e']]; [|discriminate].
    now exists n, L, e', evs.
  - destruct (train_impl_none C trainer e Hn) as [msg Hfin]. congruence.
Qed.

(** C8. When [train_impl] returns [(st, aux)], the last calls of the run are
    the creation of [{workdir}/TRAIN_COMPLETE], made only when the working
    directory exists, followed by the barrier, which runs under the [allow]
    policy; no file is touched and no barrier is run before them.  The file
    system gains the sentinel exactly when the working directory exists.
    The returned [st] and [aux] are the final locals: what the last executed
    step returned, or the restored state and no auxiliaries when no step was
    executed. *)
Theorem completion_sentinel_then_barrier (trainer : Trainer) (e : Env C) st aux m :
  train_impl C trainer e = Ok (st, aux) m ->
  exists pre,
    new_events e m =
      pre ++
      (if existsb (String.eqb (workdir trainer)) (e_fs e)
       then [(e_guard e, EvTouch (joinpath (workdir trainer) TRAIN_COMPLETE_FILENAME))]
       else []) ++
      [(Allow, EvSync)] /\
    Forall (fun pe : Policy * Event C =>
              is_touch (snd pe) = false /\ is_sync (snd pe) = false) pre /\
    e_fs (snd m) =
      (if existsb (String.eqb (workdir trainer)) (e_fs e)
       then joinpath (workdir trainer) TRAIN_COMPLETE_FILENAME :: e_fs e
       else e_fs e) /\
    st = l_state (fst m) /\ aux = l_aux (fst m) /\
    match last_step_result pre with
    | Some r => st = fst r /\ aux = Some (snd r)
    | None => st = l_state (init_locals C trainer e) /\ aux = None
    end.
Proof.
  intros Hrun.
  destruct (train_impl_completed trainer e _ _ Hrun) as [n [L [e' [evs [Hn [Hv Hfin]]]]]].
  cbn [finish] in Hfin. injection Hfin as Hst Haux Hm. subst st aux m.
  exists (map (pair (e_guard e)) (init_events C e) ++ map (pair (loop_guard C e)) evs).
  split; [|split; [|split; [|split; [|split]]]].
  - apply new_events_app. cbn [snd e_trace]. f_equal.
    unfold run_trace, finish_events, workdir_exists, sentinel.
    rewrite <- app_assoc. do 2 f_equal.
    now destruct (existsb (String.eqb (workdir trainer)) (e_fs e)).
  - exact (before_finish_quiet C _ _ _ _ _ _ _ _ _ e Hv).
  - reflexivity.
  - reflexivity.
  - reflexivity.
  - rewrite last_step_result_app.
    pose proof (loop_last_result C _ _ (loop_guard C e) _ _ _ _ _ Hv eq_refl) as Hl.
    cbn [out_machine fst] in Hl.
    destruct (last_step_result (map (pair (loop_guard C e)) evs)) as [r|].
    + exact Hl.
    + rewrite last_step_result_none.
      * subst L. now split.
      * eapply Forall_impl; [|apply init_events_unstamped].
        intros ev [Hs _]. now destruct ev.
Qed.

(** C7, as the code has it.  When the loop stops early because
    [stop_after_steps < num_train_steps] and [train_impl] returns, no step
    from [stop_after_steps] on was run, and the sentinel is written all the
    same, exactly when the working directory exists: the driver does not
    tell an early stop from a full run. *)
Theorem early_stop_writes_sentinel (trainer : Trainer) (e : Env C) n s r m :
  num_train_steps trainer = Some n ->
  stop_after_steps trainer = Some s ->
  s < n ->
  train_impl C trainer e = Ok r m ->
  Forall (fun st => fst st < s) (stamps (new_events e m)) /\
  (forall g p,
      In (g, EvTouch p) (new_events e m) <->
      existsb (String.eqb (workdir trainer)) (e_fs e) = true /\
      g = e_guard e /\
      p = joinpath (workdir trainer) TRAIN_COMPLETE_FILENAME) /\
  (existsb (String.eqb (workdir trainer)) (e_fs e) = true ->
   In (joinpath (workdir trainer) TRAIN_COMPLETE_FILENAME) (e_fs (snd m))).
Proof.
  intros Hn Hstop Hlt Hrun.
  destruct (train_impl_completed trainer e _ _ Hrun) as [n' [L [e' [evs [Hn' [Hv Hfin]]]]]].
  assert (n' = n) by congruence. subst n'.
  pose proof (f_equal (fun o => new_events e (out_machine o)) Hfin) as Hd.
  cbn beta in Hd. rewrite finish_new_events in Hd. cbn [out_machine completed] in Hd.
  split; [|split].
  - rewrite Hd, stamps_run_trace.
    destruct (loop_sorted C _ _ _ _ _ _ _ Hv (count_from_sorted _ _)) as [_ Hin].
    eapply Forall_impl; [|exact Hin].
    intros st Hst. unfold loop_steps in Hst. apply count_from_In in Hst.
    rewrite Hstop in Hst. unfold total_steps_of in Hst. lia.
  - intros g p. rewrite Hd. unfold run_trace.
    pose proof (before_finish_quiet C _ _ _ _ _ _ _ (e_guard e) (loop_guard C e) e Hv)
      as Hq.
    rewrite Forall_forall in Hq.
    unfold finish_events, workdir_exists, sentinel.
    rewrite app_assoc, in_app_iff.
    split.
    + intros [Hin|Hin].
      * apply Hq in Hin. cbn in Hin. destruct Hin; discriminate.
      * destruct (existsb (String.eqb (workdir trainer)) (e_fs e)); cbn in Hin.
        -- destruct Hin as [[= <- <-]|[[=]|[]]]. now repeat split.
        -- destruct Hin as [[=]|[]].
    + intros [Hwd [-> ->]]. right. rewrite Hwd. now left.
  - intros Hwd. cbn [finish] in Hfin. injection Hfin as _ Hm. subst m.
    cbn [snd e_fs]. unfold workdir_exists, sentinel. rewrite Hwd. now left.
Qed.

End CompletionClaims.

(** A fresh run of two steps in an existing working directory. *)
Lemma completion_sentinel_then_barrier_witness :
  let trainer := toy_trainer (Some 1) None 1 1 [] in
  let m := out_machine (train_impl toy trainer toy_env) in
  train_impl toy trainer toy_env = Ok (2, Some false) m /\
  exists pre,
    new_events toy_env m =
      pre ++ [(Allow, EvTouch "/w/TRAIN_COMPLETE"%string)] ++ [(Allow, EvSync)] /\
    last_step_result pre = Some (2, false).
Proof.
  cbv zeta.
  assert (Hrun : train_impl toy (toy_trainer (Some 1) None 1 1 []) toy_env =
                 Ok (2, Some false)
                   (out_machine (train_impl toy (toy_trainer (Some 1) None 1 1 []) toy_env)))
    by (vm_compute; reflexivity).
  split; [exact Hrun|].
  destruct (completion_sentinel_then_barrier toy _ _ _ _ _ Hrun)
    as [pre [Hd [_ [_ [_ [_ Hl]]]]]].
  exists pre. split; [exact Hd|].
  destruct (last_step_result pre) as [[s a]|].
  - destruct Hl as [Hs Ha]. cbn in Hs, Ha. now inversion Ha; subst.
  - destruct Hl as [_ Ha]. discriminate.
Defined.

(** A budget of 10 steps cut after 3. *)
Lemma early_stop_writes_sentinel_witness :
  let trainer := toy_trainer (Some 10) (Some 3) 1 1 [] in
  let m := out_machine (train_impl toy trainer toy_env) in
  3 < 10 /\
  train_impl toy trainer toy_env = Ok (3, Some false) m /\
  Forall (fun st => fst st < 3) (stamps (new_events toy_env m)) /\
  In (joinpath (workdir trainer) TRAIN_COMPLETE_FILENAME) (e_fs (snd m)).
Proof.
  cbv zeta.
  assert (Hrun : train_impl toy (toy_trainer (Some 10) (Some 3) 1 1 []) toy_env =
                 Ok (3, Some false)
                   (out_machine
                      (train_impl toy (toy_trainer (Some 10) (Some 3) 1 1 []) toy_env)))
    by (vm_compute; reflexivity).
  split; [lia|]. split; [exact Hrun|].
  destruct (early_stop_writes_sentinel toy
              (toy_trainer (Some 10) (Some 3) 1 1 []) toy_env 10 3 _ _
              eq_refl eq_refl ltac:(lia) Hrun) as [Hs [_ Hfs]].
  split; [exact Hs|]. apply Hfs. reflexivity.
Defined.

(** C7 as stated fails: with [num_train_steps = 10] and
    [stop_after_steps = 3] the loop runs steps 0, 1 and 2 only, the driver
    returns, and the sentinel has been written. *)
Lemma early_stop_counterexample :
  let trainer := toy_trainer (Some 10) (Some 3) 1 1 [] in
  let o := train_impl toy trainer toy_env in
  stop_after_steps trainer = Some 3 /\
  num_train_steps trainer = Some 10 /\
  completed o = true /\
  map fst (fetched (new_events toy_env (out_machine o))) = [0; 1; 2] /\
  filter (fun pe => is_touch (snd pe)) (new_events toy_env (out_machine o)) =
    [(Allow, EvTouch "/w/TRAIN_COMPLETE"%string)] /\
  e_fs (snd (out_machine o)) = ["/w/TRAIN_COMPLETE"%string; "/w"%string].
Proof.
  cbv zeta. vm_compute. repeat split.
Qed.

(** ** The transfer guard *)

Section Guard.

Variable C : Collaborators.

(** C9, as the code has it.  Every call of the loop body and of the hooks
    runs under the [disallow] policy when [jax_disable_jit] is off; when it
    is on, [_transfer_guard] installs nothing and the loop runs under the
    ambient policy.  The barrier always runs under [allow], which is
    installed for it alone: every other call outside the loop runs under the
    ambient policy.  The ambient policy is in force again when [train_impl]
    ends, whether it returns or raises. *)
Theorem transfer_guard_scope (trainer : Trainer) (e : Env C) :
  let o := train_impl C trainer e in
  Forall (fun pe : Policy * Event C =>
            fst pe =
            match stamp (snd pe) with
            | Some _ => if e_disable_jit e then e_guard e else Disallow
            | None => if is_sync (snd pe) then Allow else e_guard e
            end)
    (new_events e (out_machine o)) /\
  e_guard (snd (out_machine o)) = e_guard e.
Proof.
  cbv zeta.
  destruct (train_impl_events C trainer e) as [evs [Hd Hcase]].
  assert (Hstamped : Forall (fun ev : Event C => stamp ev <> None) evs).
  { destruct (num_train_steps trainer).
    - destruct Hcase as [out [Hv _]]. exact (loop_events_stamped C _ _ _ _ _ _ _ Hv).
    - destruct Hcase as [-> _]. constructor. }
  split.
  - rewrite Hd. unfold run_trace.
    apply Forall_app. split; [|apply Forall_app; split].
    + apply Forall_forall. intros [g ev] Hin. apply in_map_iff in Hin.
      destruct Hin as [ev' [[= <- <-] Hin]].
      pose proof (init_events_unstamped C e) as Hi. rewrite Forall_forall in Hi.
      destruct (Hi _ Hin) as [Hs [_ Hy]]. cbn [fst snd]. now rewrite Hs, Hy.
    + apply Forall_forall. intros [g ev] Hin. apply in_map_iff in Hin.
      destruct Hin as [ev' [[= <- <-] Hin]].
      rewrite Forall_forall in Hstamped. specialize (Hstamped _ Hin).
      cbn [fst snd]. destruct (stamp ev'); [reflexivity|now elim Hstamped].
    + destruct (completed (train_impl C trainer e)); [|constructor].
      unfold finish_events.
      destruct (workdir_exists C trainer e); repeat constructor.
  - destruct (num_train_steps trainer) as [n|] eqn:Hn.
    + destruct Hcase as [out [_ ->]]. now destruct out as [[] [L e']|x [L e']].
    + destruct (train_impl_none C trainer e Hn) as [msg ->]. reflexivity.
Qed.

End Guard.

(** C9 as stated fails: with [jax_disable_jit] on, the whole body of the
    loop and the hook run under the ambient [allow] policy. *)
Lemma transfer_guard_counterexample :
  let o := train_impl toy (toy_trainer (Some 0) None 1 1 []) toy_env_nojit in
  completed o = true /\
  map (fun pe => (fst pe, stamp (snd pe)))
    (filter (fun pe => is_some (stamp (snd pe)))
       (new_events toy_env_nojit (out_machine o))) =
  [(Allow, Some (0, PSave)); (Allow, Some (0, PEval)); (Allow, Some (0, PFetch));
   (Allow, Some (0, PPut)); (Allow, Some (0, PStep)); (Allow, Some (0, PTimer));
   (Allow, Some (0, PWrite)); (Allow, Some (0, PHook))].
Proof.
  cbv zeta. vm_compute. split; reflexivity.
Qed.

(** ** Projections of the trace of a run *)

Section Projections.

Variable C : Collaborators.

Lemma flat_map_nil {A B : Type} (f : A -> list B) (l : list A) :
  Forall (fun a => f a = []) l -> flat_map f l = [].
Proof.
  induction 1 as [|a l Ha _ IH]; [reflexivity|].
  cbn. now rewrite Ha, IH.
Qed.

Lemma flat_map_pair {X : Type} (f : Event C -> list X) (g : Policy)
    (evs : list (Event C)) :
  flat_map (fun pe : Policy * Event C => f (snd pe)) (map (pair g) evs) =
  flat_map f evs.
Proof.
  induction evs as [|ev evs IH]; [reflexivity|].
  cbn. now rewrite IH.
Qed.

(** A projection that ignores the calls made outside the loop sees only the
    calls of the loop. *)
Lemma run_trace_flat {X : Type} (f : Event C -> list X) (trainer : Trainer)
    (e : Env C) (evs : list (Event C)) (done : bool) :
  (forall ev, stamp ev = None -> f ev = []) ->
  flat_map (fun pe : Policy * Event C => f (snd pe)) (run_trace C trainer e evs done) =
  flat_map f evs.
Proof.
  intros Hf. unfold run_trace. rewrite !flat_map_app, !flat_map_pair.
  rewrite (flat_map_nil f (init_events C e)).
  2:{ eapply Forall_impl; [|apply init_events_unstamped].
      intros ev [Hs _]. now apply Hf. }
  destruct done; cbn [app]; [|now rewrite app_nil_r].
  rewrite flat_map_app, flat_map_pair.
  rewrite (flat_map_nil f (finish_events C trainer e)).
  2:{ unfold finish_events. destruct (workdir_exists C trainer e); repeat constructor.
      now apply Hf. }
  cbn. rewrite (Hf EvSync eq_refl). now rewrite app_nil_r.
Qed.

Lemma fetched_run_trace (trainer : Trainer) (e : Env C) evs done :
  fetched (run_trace C trainer e evs done) = efetched evs.
Proof.
  apply (run_trace_flat
           (fun ev => match ev with EvNext i b => [(i, b)] | _ => [] end)).
  intros ev Hs. now destruct ev.
Qed.

Lemma metric_writes_run_trace (trainer : Trainer) (e : Env C) evs done :
  metric_writes (run_trace C trainer e evs done) = ewrites evs.
Proof.
  apply (run_trace_flat
           (fun ev => match ev with EvWriteStepMetrics i ls => [(i, ls)] | _ => [] end)).
  intros ev Hs. now destruct ev.
Qed.

Lemma step_requests_run_trace (trainer : Trainer) (e : Env C) evs done :
  step_requests (run_trace C trainer e evs done) = erequests evs.
Proof.
  apply (run_trace_flat
           (fun ev => match ev with
                      | EvStep i rl rm rs _ => [(i, (rl, rm, rs))]
                      | _ => []
                      end)).
  intros ev Hs. now destruct ev.
Qed.

(** The kinds of calls in the parts of a step. *)
Lemma dispatch_events_kind (trainer : Trainer) (i : Z) (L : Locals C) (e : Env C) :
  Forall (fun ev => match ev with
                    | EvSave j _ | EvMaybeEval _ j => j = i
                    | _ => False
                    end)
    (dispatch_events C trainer i L e).
Proof.
  unfold dispatch_events. apply Forall_app. split.
  - destruct (should_save C (e_ckpt e) i); repeat constructor.
  - apply Forall_forall. intros ev Hin. apply in_map_iff in Hin.
    now destruct Hin as [? [<- _]].
Qed.

Lemma hook_events_kind (hooks : list Hook) (i : Z) :
  Forall (fun ev : Event C => match ev with EvHook _ j => j = i | _ => False end)
    (hook_events C hooks i).
Proof.
  apply Forall_forall. intros ev Hin. apply in_map_iff in Hin.
  now destruct Hin as [? [<- _]].
Qed.

Lemma write_events_kind (trainer : Trainer) (i : Z) (e : Env C) :
  Forall (fun ev : Event C =>
            match ev with EvWriteStepMetrics j _ => j = i | _ => False end)
    (write_events C trainer i e).
Proof.
  unfold write_events.
  destruct (log_any_at trainer i && e_is_lead_host e); repeat constructor.
Qed.

Lemma efetched_dispatch (trainer : Trainer) (i : Z) (L : Locals C) (e : Env C) :
  efetched (dispatch_events C trainer i L e) = [].
Proof.
  apply flat_map_nil. eapply Forall_impl; [|apply dispatch_events_kind].
  intros ev. now destruct ev.
Qed.

Lemma efetched_write (trainer : Trainer) (i : Z) (e : Env C) :
  efetched (write_events C trainer i e) = [].
Proof.
  apply flat_map_nil. eapply Forall_impl; [|apply write_events_kind].
  intros ev. now destruct ev.
Qed.

Lemma efetched_hooks (hooks : list Hook) (i : Z) :
  efetched (hook_events C hooks i) = [].
Proof.
  apply flat_map_nil. eapply Forall_impl; [|apply hook_events_kind].
  intros ev. now destruct ev.
Qed.

Lemma ewrites_dispatch (trainer : Trainer) (i : Z) (L : Locals C) (e : Env C) :
  ewrites (dispatch_events C trainer i L e) = [].
Proof.
  apply flat_map_nil. eapply Forall_impl; [|apply dispatch_events_kind].
  intros ev. now destruct ev.
Qed.

Lemma ewrites_hooks (hooks : list Hook) (i : Z) :
  ewrites (hook_events C hooks i) = [].
Proof.
  apply flat_map_nil. eapply Forall_impl; [|apply hook_events_kind].
  intros ev. now destruct ev.
Qed.

Lemma ewrites_write (trainer : Trainer) (i : Z) (e : Env C) :
  ewrites (write_events C trainer i e) =
  if log_any_at trainer i && e_is_lead_host e
  then [(i, log_summaries_at trainer i)] else [].
Proof.
  unfold write_events. now destruct (log_any_at trainer i && e_is_lead_host e).
Qed.

Lemma erequests_dispatch (trainer : Trainer) (i : Z) (L : Locals C) (e : Env C) :
  erequests (dispatch_events C trainer i L e) = [].
Proof.
  apply flat_map_nil. eapply Forall_impl; [|apply dispatch_events_kind].
  intros ev. now destruct ev.
Qed.

Lemma erequests_write (trainer : Trainer) (i : Z) (e : Env C) :
  erequests (write_events C trainer i e) = [].
Proof.
  apply flat_map_nil. eapply Forall_impl; [|apply write_events_kind].
  intros ev. now destruct ev.
Qed.

Lemma erequests_hooks (hooks : list Hook) (i : Z) :
  erequests (hook_events C hooks i) = [].
Proof.
  apply flat_map_nil. eapply Forall_impl; [|apply hook_events_kind].
  intros ev. now destruct ev.
Qed.

(** What a completed step contributes to each projection. *)
Lemma efetched_step (trainer : Trainer) (hooks : list Hook) (i : Z)
    (L : Locals C) (e : Env C) (b : Batch C) (evs : list (Event C)) :
  efetched (dispatch_events C trainer i L e ++ exec_events C trainer i L b ++
            write_events C trainer i e ++ hook_events C hooks i ++ evs) =
  (i, b) :: efetched evs.
Proof.
  unfold efetched at 1. rewrite !flat_map_app.
  fold (efetched (dispatch_events C trainer i L e)).
  fold (efetched (write_events C trainer i e)).
  fold (efetched (hook_events C hooks i)). fold (efetched evs).
  now rewrite efetched_dispatch, efetched_write, efetched_hooks.
Qed.

Lemma ewrites_step (trainer : Trainer) (hooks : list Hook) (i : Z)
    (L : Locals C) (e : Env C) (b : Batch C) (evs : list (Event C)) :
  ewrites (dispatch_events C trainer i L e ++ exec_events C trainer i L b ++
           write_events C trainer i e ++ hook_events C hooks i ++ evs) =
  (if log_any_at trainer i && e_is_lead_host e
   then [(i, log_summaries_at trainer i)] else []) ++ ewrites evs.
Proof.
  unfold ewrites at 1. rewrite !flat_map_app.
  fold (ewrites (dispatch_events C trainer i L e)).
  fold (ewrites (write_events C trainer i e)).
  fold (ewrites (hook_events C hooks i)). fold (ewrites evs).
  now rewrite ewrites_dispatch, ewrites_write, ewrites_hooks.
Qed.

Lemma erequests_step (trainer : Trainer) (hooks : list Hook) (i : Z)
    (L : Locals C) (e : Env C) (b : Batch C) (evs : list (Event C)) :
  erequests (dispatch_events C trainer i L e ++ exec_events C trainer i L b ++
             write_events C trainer i e ++ hook_events C hooks i ++ evs) =
  (i, (log_any_at trainer i, log_metrics_at trainer i, log_summaries_at trainer i))
  :: erequests evs.
Proof.
  unfold erequests at 1. rewrite !flat_map_app.
  fold (erequests (dispatch_events C trainer i L e)).
  fold (erequests (write_events C trainer i e)).
  fold (erequests (hook_events C hooks i)). fold (erequests evs).
  now rewrite erequests_dispatch, erequests_write, erequests_hooks.
Qed.

End Projections.

(** ** Logging cadence *)

Section Cadence.

Variable C : Collaborators.

(** The metric writes and the step requests of a completed loop. *)
Lemma loop_logging (trainer : Trainer) (hooks : list Hook) l L e out evs :
  loop_view C trainer hooks l L e out evs ->
  completed out = true ->
  ewrites evs =
    map (fun i => (i, log_summaries_at trainer i))
      (filter (fun i => log_any_at trainer i && e_is_lead_host e) l) /\
  erequests evs =
    map (fun i => (i, (log_any_at trainer i, log_metrics_at trainer i,
                       log_summaries_at trainer i))) l.
Proof.
  induction 1 as [L e|i rest L e x L' ck evs Hb|i rest L e b out evs Hs Hm Hds Hc Hl IH];
    intros Hdone.
  - split; reflexivity.
  - discriminate.
  - destruct (IH Hdone) as [IHw IHr]. cbn [e_is_lead_host env_extend] in IHw.
    rewrite ewrites_step, erequests_step, IHw, IHr. split; [|reflexivity].
    cbn [filter]. now destruct (log_any_at trainer i && e_is_lead_host e).
Qed.

(** C5, as the code has it.  In a run that returns, [trainstep.step] is
    asked for metrics at step [i] if and only if [i mod log_metrics_every = 0]
    and for summaries if and only if [i mod log_summaries_every = 0];
    [write_step_metrics] is called on the lead host only, at the steps where
    either cadence matches, with [log_summaries] telling whether the summary
    cadence matched.  With [log_metrics_every = 1] every step logs on the
    lead host; when both cadences are at least [total_steps] and the run
    starts at a non-negative step, no step other than step 0 logs. *)
Theorem logging_cadence (trainer : Trainer) (e : Env C) n r m :
  num_train_steps trainer = Some n ->
  train_impl C trainer e = Ok r m ->
  let every_m := log_metrics_every trainer in
  let every_s := log_summaries_every trainer in
  let total_steps := total_steps_of n (stop_after_steps trainer) in
  let steps := count_from (initial_step_of C e)
                 (Z.to_nat (total_steps - initial_step_of C e)) in
  let d := new_events e m in
  step_requests d =
    map (fun i => (i, ((i mod every_m =? 0) || (i mod every_s =? 0),
                       i mod every_m =? 0, i mod every_s =? 0))) steps /\
  metric_writes d =
    map (fun i => (i, i mod every_s =? 0))
      (filter (fun i => ((i mod every_m =? 0) || (i mod every_s =? 0)) &&
                        e_is_lead_host e) steps) /\
  (forall i,
      (exists ls, In (i, ls) (metric_writes d)) <->
      In i steps /\ e_is_lead_host e = true /\
      (i mod every_m = 0 \/ i mod every_s = 0)) /\
  (every_m = 1 -> e_is_lead_host e = true ->
   forall i, In i steps -> exists ls, In (i, ls) (metric_writes d)) /\
  (0 <= initial_step_of C e -> total_steps <= every_m -> total_steps <= every_s ->
   forall i ls, In (i, ls) (metric_writes d) -> i = 0).
Proof.
  intros Hn Hrun. cbv zeta.
  destruct (train_impl_completed C trainer e _ _ Hrun) as [n' [L [e' [evs [Hn' [Hv Hfin]]]]]].
  assert (n' = n) by congruence. subst n'.
  pose proof (f_equal (fun o => new_events e (out_machine o)) Hfin) as Hd.
  cbn beta in Hd. rewrite finish_new_events in Hd. cbn [out_machine completed] in Hd.
  destruct (loop_logging _ _ _ _ _ _ _ Hv eq_refl) as [Hw Hr].
  change (e_is_lead_host (loop_env C e)) with (e_is_lead_host e) in Hw.
  unfold loop_steps, log_any_at, log_metrics_at, log_summaries_at in Hw, Hr.
  rewrite Hd, step_requests_run_trace, metric_writes_run_trace, Hw, Hr.
  set (steps := count_from (initial_step_of C e) _).
  assert (Hiff : forall i,
             (exists ls,
                 In (i, ls)
                   (map (fun i => (i, i mod log_summaries_every trainer =? 0))
                      (filter (fun i =>
                                 ((i mod log_metrics_every trainer =? 0) ||
                                  (i mod log_summaries_every trainer =? 0)) &&
                                 e_is_lead_host e) steps))) <->
             In i steps /\ e_is_lead_host e = true /\
             (i mod log_metrics_every trainer = 0 \/
              i mod log_summaries_every trainer = 0)).
  { intros i. split.
    - intros [ls Hin]. apply in_map_iff in Hin. destruct Hin as [j [[= <- <-] Hin]].
      apply filter_In in Hin. destruct Hin as [Hin Hb].
      apply andb_prop in Hb. destruct Hb as [Hb Hlead].
      apply orb_prop in Hb. rewrite !Z.eqb_eq in Hb. tauto.
    - intros [Hin [Hlead Hmod]]. eexists. apply in_map_iff. exists i.
      split; [reflexivity|]. apply filter_In. split; [assumption|].
      rewrite Hlead, andb_true_r. apply orb_true_iff. now rewrite !Z.eqb_eq. }
  split; [reflexivity|]. split; [reflexivity|]. split; [exact Hiff|]. split.
  - intros Hone Hlead i Hin. apply Hiff. repeat split; trivial.
    left. rewrite Hone. apply Z.mod_1_r.
  - intros Hinit Hm Hs i ls Hin.
    assert (Hex : exists ls, In (i, ls)
                    (map (fun i => (i, i mod log_summaries_every trainer =? 0))
                       (filter (fun i =>
                                  ((i mod log_metrics_every trainer =? 0) ||
                                   (i mod log_summaries_every trainer =? 0)) &&
                                  e_is_lead_host e) steps))) by now exists ls.
    apply Hiff in Hex. destruct Hex as [Hi [_ Hmod]].
    subst steps. apply count_from_In in Hi.
    destruct Hmod as [Hmod|Hmod];
      rewrite Z.mod_small in Hmod by lia; exact Hmod.
Qed.

End Cadence.

(** Five steps with metrics every 3 steps and summaries every 2. *)
Lemma logging_cadence_witness :
  let trainer := toy_trainer (Some 4) None 2 3 [] in
  let m := out_machine (train_impl toy trainer toy_env) in
  train_impl toy trainer toy_env = Ok (5, Some false) m /\
  metric_writes (new_events toy_env m) =
    map (fun i => (i, i mod 2 =? 0))
      (filter (fun i => ((i mod 3 =? 0) || (i mod 2 =? 0)) && true)
         (count_from 0 5)).
Proof.
  cbv zeta.
  assert (Hrun : train_impl toy (toy_trainer (Some 4) None 2 3 []) toy_env =
                 Ok (5, Some false)
                   (out_machine (train_impl toy (toy_trainer (Some 4) None 2 3 []) toy_env)))
    by (vm_compute; reflexivity).
  split; [exact Hrun|].
  destruct (logging_cadence toy (toy_trainer (Some 4) None 2 3 []) toy_env 4 _ _
              eq_refl Hrun) as [_ [Hw _]].
  exact Hw.
Defined.

(** C5 as stated fails: with [log_metrics_every = 2] and
    [log_summaries_every = 1], [write_step_metrics] is called at step 1
    although [1 mod 2] is not 0. *)
Lemma logging_cadence_counterexample :
  let trainer := toy_trainer (Some 1) None 1 2 [] in
  let o := train_impl toy trainer toy_env in
  log_metrics_every trainer = 2 /\
  completed o = true /\
  metric_writes (new_events toy_env (out_machine o)) = [(0, true); (1, true)] /\
  (1 mod 2 =? 0) = false.
Proof.
  cbv zeta. vm_compute. repeat split.
Qed.

(** ** Deferred checkify errors *)

Section Checkify.

Variable C : Collaborators.

(** A loop that ends on a checkify error ends right after the execution
    and the timer update of the step that reported it. *)
Lemma loop_checkify (trainer : Trainer) (hooks : list Hook) l L0 e0 out evs :
  loop_view C trainer hooks l L0 e0 out evs ->
  forall L' e', out = Raised JaxRuntimeError (L', e') ->
  exists k L b pre,
    train_ds C (l_ds_iter L) = Some b /\
    checkify_raises C trainer k L b = true /\
    L' = stepped C trainer k L b /\
    evs = pre ++ exec_events C trainer k L b.
Proof.
  induction 1 as [L e|i rest L e x L1 ck evs Hb|i rest L e b out evs Hs Hm Hds Hc Hl IH];
    intros L' e' Hout.
  - discriminate.
  - injection Hout as -> -> _.
    apply abort_inv in Hb.
    destruct Hb as [[Hx _]|[b [_ [Hds [Hc [-> ->]]]]]]; [now elim Hx|].
    now exists i, L, b, (dispatch_events C trainer i L e).
  - destruct (IH _ _ Hout) as [k [Lk [bk [pre [Hds' [Hc' [-> ->]]]]]]].
    exists k, Lk, bk.
    exists (dispatch_events C trainer i L e ++ exec_events C trainer i L b ++
            write_events C trainer i e ++ hook_events C hooks i ++ pre).
    repeat split; trivial. now rewrite <- !app_assoc.
Qed.

Lemma dispatch_no_step (trainer : Trainer) (i : Z) (L : Locals C) (e : Env C)
    k rl rm rs res :
  ~ In (EvStep k rl rm rs res) (dispatch_events C trainer i L e).
Proof.
  unfold dispatch_events. intros Hin. apply in_app_or in Hin as [Hin|Hin].
  - destruct (should_save C (e_ckpt e) i); [|contradiction].
    destruct Hin as [Hin|[]]. discriminate.
  - apply in_map_iff in Hin as [x [Hx _]]. discriminate.
Qed.

Lemma exec_step_inv (trainer : Trainer) (i : Z) (L : Locals C) (b : Batch C)
    k rl rm rs res :
  In (EvStep k rl rm rs res) (exec_events C trainer i L b) ->
  k = i /\ rl = log_any_at trainer i /\ rm = log_metrics_at trainer i /\
  rs = log_summaries_at trainer i /\ res = step_result C trainer i L b.
Proof.
  unfold exec_events. intros [H|[H|[H|[H|[]]]]]; try discriminate.
  injection H as <- <- <- <- <-. now repeat split.
Qed.

(** A step execution that reports an error while error tracking is on ends
    the loop: the loop raises the checkify error right after that execution
    and the timer update. *)
Lemma loop_reported_error (trainer : Trainer) (hooks : list Hook) l L0 e0 out evs :
  loop_view C trainer hooks l L0 e0 out evs ->
  truthy (checkify_error_categories trainer) = true ->
  forall k rl rm rs res,
    In (EvStep k rl rm rs res) evs ->
    aux_error C (snd res) = true ->
    exists L b pre e',
      out = Raised JaxRuntimeError (stepped C trainer k L b, e') /\
      train_ds C (l_ds_iter L) = Some b /\
      res = step_result C trainer k L b /\
      rl = log_any_at trainer k /\ rm = log_metrics_at trainer k /\
      rs = log_summaries_at trainer k /\
      evs = pre ++ exec_events C trainer k L b.
Proof.
  intros Hv Hcat.
  induction Hv as [L e|i rest L e x L1 ck evs Hb|i rest L e b out evs Hs Hm Hds Hc Hl IH];
    intros k rl rm rs res Hin Herr.
  - contradiction.
  - apply abort_inv in Hb.
    destruct Hb as [[_ [_ ->]]|[b [-> [Hds [Hc [-> ->]]]]]].
    + now apply dispatch_no_step in Hin.
    + apply in_app_or in Hin as [Hin|Hin]; [now apply dispatch_no_step in Hin|].
      apply exec_step_inv in Hin as (-> & -> & -> & -> & ->).
      exists L, b, (dispatch_events C trainer i L e). eexists.
      now repeat split.
  - apply in_app_or in Hin as [Hin|Hin]; [now apply dispatch_no_step in Hin|].
    apply in_app_or in Hin as [Hin|Hin].
    { apply exec_step_inv in Hin as (-> & _ & _ & _ & ->). exfalso.
      unfold checkify_raises in Hc. rewrite Hcat, Herr in Hc. discriminate. }
    apply in_app_or in Hin as [Hin|Hin].
    { exfalso. unfold write_events in Hin.
      destruct (_ && _); [destruct Hin as [Hin|[]]; discriminate | contradiction]. }
    apply in_app_or in Hin as [Hin|Hin].
    { exfalso. unfold hook_events in Hin.
      apply in_map_iff in Hin as [h [Hh _]]. discriminate. }
    destruct (IH _ _ _ _ _ Hin Herr) as (Lk & bk & pre & e' & Hout & Hdk & Hres & Hrl & Hrm & Hrs & ->).
    exists Lk, bk.
    exists (dispatch_events C trainer i L e ++ exec_events C trainer i L b ++
            write_events C trainer i e ++ hook_events C hooks i ++ pre), e'.
    repeat split; trivial. now rewrite <- !app_assoc.
Qed.

(** C6, as the code has it.  When error tracking is on and a step execution
    of the run reports an error, at a step [k], [train_impl] raises the
    checkify error and that execution is the last: the run ends with the
    batch fetch, the placement, this execution and the timer update of step
    [k], and the locals hold the state and auxiliaries that the execution
    returned and the updated timer.  The raise precedes the metrics write:
    [write_step_metrics] is not called for step [k], whatever the cadence.
    The sentinel is not written. *)
Theorem checkify_raise_after_update (trainer : Trainer) (e : Env C)
    g k rl rm rs res :
  truthy (checkify_error_categories trainer) = true ->
  In (g, EvStep k rl rm rs res)
    (new_events e (out_machine (train_impl C trainer e))) ->
  aux_error C (snd res) = true ->
  exists m L b pre,
    let log_metrics := k mod log_metrics_every trainer =? 0 in
    let log_summaries := k mod log_summaries_every trainer =? 0 in
    train_impl C trainer e = Raised JaxRuntimeError m /\
    train_ds C (l_ds_iter L) = Some b /\
    res = trainstep_step C (l_state L) (device_put C b)
            (log_metrics || log_summaries) log_metrics log_summaries
            (checkify_error_categories trainer) /\
    fst m = mkLocals (fst res) (finish_step (l_timer L)) (S (l_ds_iter L))
              (Some (snd res)) /\
    new_events e m =
      pre ++
      map (pair (if e_disable_jit e then e_guard e else Disallow))
        [EvNext k b; EvDevicePut k;
         EvStep k (log_metrics || log_summaries) log_metrics log_summaries res;
         EvFinishStep k] /\
    (forall g ls, ~ In (g, EvWriteStepMetrics k ls) (new_events e m)) /\
    (forall g p, ~ In (g, EvTouch p) (new_events e m)) /\
    e_fs (snd m) = e_fs e.
Proof.
  intros Hcat Hin Herr.
  destruct (num_train_steps trainer) as [n|] eqn:Hn.
  2:{ exfalso. rewrite (train_impl_none_events C trainer e Hn) in Hin.
      unfold run_trace in Hin. cbn [map app] in Hin. rewrite app_nil_r in Hin.
      apply in_map_iff in Hin as [ev [[= _ ->] Hin]].
      pose proof (init_events_unstamped C e) as Hi. rewrite Forall_forall in Hi.
      destruct (Hi _ Hin) as [Hs _]. discriminate. }
  destruct (train_impl_some C trainer e n Hn) as [out [evs [Hv Hfin]]].
  assert (Hevs : In (EvStep k rl rm rs res) evs).
  { rewrite Hfin, finish_new_events in Hin. unfold run_trace in Hin.
    apply in_app_or in Hin as [Hin|Hin].
    - apply in_map_iff in Hin as [ev [[= _ ->] Hin]].
      pose proof (init_events_unstamped C e) as Hi. rewrite Forall_forall in Hi.
      destruct (Hi _ Hin) as [Hs _]. discriminate.
    - apply in_app_or in Hin as [Hin|Hin].
      + now apply in_map_iff in Hin as [ev [[= _ ->] Hin]].
      + exfalso. destruct (completed out); [|contradiction].
        apply in_app_or in Hin as [Hin|[Hin|[]]]; [|discriminate].
        apply in_map_iff in Hin as [ev [[= _ ->] Hin]].
        unfold finish_events in Hin.
        destruct (workdir_exists C trainer e); [|contradiction].
        destruct Hin as [Hin|[]]. discriminate. }
  destruct (loop_reported_error _ _ _ _ _ _ _ Hv Hcat _ _ _ _ _ Hevs Herr)
    as (L & b & pre & e' & -> & Hds & Hres & -> & -> & -> & Hpre).
  cbn [finish] in Hfin.
  eexists. exists L, b.
  exists (map (pair (e_guard e)) (init_events C e) ++ map (pair (loop_guard C e)) pre).
  cbv zeta.
  split; [exact Hfin|].
  rewrite (new_events_app C e _ (run_trace C trainer e evs false)) by reflexivity.
  split; [exact Hds|]. split; [exact Hres|].
  split; [cbn [fst]; unfold stepped; now rewrite <- Hres|].
  split; [|split; [|split]].
  - unfold run_trace. rewrite Hpre, map_app, app_nil_r, <- app_assoc.
    unfold exec_events. now rewrite <- Hres.
  - intros g' ls Hw.
    destruct (loop_sorted C _ _ _ _ _ _ _ Hv (count_from_sorted _ _)) as [Hso _].
    rewrite Hpre, estamps_app in Hso. apply sorted_app_inv in Hso.
    destruct Hso as [_ [_ Hcross]].
    unfold run_trace in Hw. rewrite app_nil_r in Hw.
    apply in_app_or in Hw. destruct Hw as [Hw|Hw];
      apply in_map_iff in Hw; destruct Hw as [ev [[= _ ->] Hw]].
    + pose proof (init_events_unstamped C e) as Hi. rewrite Forall_forall in Hi.
      destruct (Hi _ Hw) as [Hs _]. discriminate.
    + rewrite Hpre in Hw. apply in_app_or in Hw. destruct Hw as [Hw|Hw].
      * specialize (Hcross (k, PWrite) (k, PFetch)
                      (In_estamps C _ _ _ Hw eq_refl) (or_introl eq_refl)).
        destruct Hcross as [Hlt|[_ [Hlt|[Hne _]]]]; cbn in *; try lia; discriminate.
      * cbn in Hw. intuition discriminate.
  - intros g' p Hw. unfold run_trace in Hw. rewrite app_nil_r in Hw.
    pose proof (before_finish_quiet C _ _ _ _ _ _ _ (e_guard e) (loop_guard C e) e Hv)
      as Hq.
    rewrite Forall_forall in Hq. apply Hq in Hw. cbn in Hw.
    destruct Hw; discriminate.
  - reflexivity.
Qed.

(** Conversely, when [train_impl] raises the checkify error, error tracking
    is on and the last calls of the run are, at some step [k], the batch
    fetch, the placement, a step execution that reported an error and the
    timer update. *)
Lemma checkify_raise_reported (trainer : Trainer) (e : Env C) m :
  train_impl C trainer e = Raised JaxRuntimeError m ->
  exists k L b pre,
    let log_metrics := k mod log_metrics_every trainer =? 0 in
    let log_summaries := k mod log_summaries_every trainer =? 0 in
    let res := trainstep_step C (l_state L) (device_put C b)
                 (log_metrics || log_summaries) log_metrics log_summaries
                 (checkify_error_categories trainer) in
    truthy (checkify_error_categories trainer) = true /\
    train_ds C (l_ds_iter L) = Some b /\
    aux_error C (snd res) = true /\
    fst m = mkLocals (fst res) (finish_step (l_timer L)) (S (l_ds_iter L))
              (Some (snd res)) /\
    new_events e m =
      pre ++
      map (pair (if e_disable_jit e then e_guard e else Disallow))
        [EvNext k b; EvDevicePut k;
         EvStep k (log_metrics || log_summaries) log_metrics log_summaries res;
         EvFinishStep k] /\
    (forall g ls, ~ In (g, EvWriteStepMetrics k ls) (new_events e m)) /\
    (forall g p, ~ In (g, EvTouch p) (new_events e m)) /\
    e_fs (snd m) = e_fs e.
Proof.
  intros Hrun.
  destruct (num_train_steps trainer) as [n|] eqn:Hn.
  2:{ destruct (train_impl_none C trainer e Hn) as [msg Hfin]. congruence. }
  destruct (train_impl_some C trainer e n Hn) as [out [evs [Hv Hfin]]].
  rewrite Hrun in Hfin.
  destruct out as [[] [L' e']|x [L' e']]; [discriminate|].
  cbn [finish] in Hfin. injection Hfin as Hx Hm. subst x m.
  destruct (loop_checkify _ _ _ _ _ _ _ Hv _ _ eq_refl)
    as [k [L [b [pre [Hds [Hc [HL Hevs]]]]]]].
  apply andb_prop in Hc. destruct Hc as [Hcat Herr].
  exists k, L, b.
  exists (map (pair (e_guard e)) (init_events C e) ++ map (pair (loop_guard C e)) pre).
  cbv zeta.
  assert (Hd : new_events e
                 (L', mkEnv (e_is_lead_host e) (e_disable_jit e) (e_guard e)
                        (e_ckpt e') (e_fs e)
                        (e_trace e ++ run_trace C trainer e evs false)) =
               run_trace C trainer e evs false) by now apply new_events_app.
  rewrite Hd.
  split; [exact Hcat|]. split; [exact Hds|]. split; [exact Herr|].
  split; [exact HL|]. split; [|split; [|split]].
  - unfold run_trace. rewrite Hevs, map_app, app_nil_r, <- app_assoc. reflexivity.
  - intros g ls Hin.
    destruct (loop_sorted C _ _ _ _ _ _ _ Hv (count_from_sorted _ _)) as [Hso _].
    rewrite Hevs, estamps_app in Hso. apply sorted_app_inv in Hso.
    destruct Hso as [_ [_ Hcross]].
    unfold run_trace in Hin. rewrite app_nil_r in Hin.
    apply in_app_or in Hin. destruct Hin as [Hin|Hin];
      apply in_map_iff in Hin; destruct Hin as [ev [[= _ ->] Hin]].
    + pose proof (init_events_unstamped C e) as Hi. rewrite Forall_forall in Hi.
      destruct (Hi _ Hin) as [Hs _]. discriminate.
    + rewrite Hevs in Hin. apply in_app_or in Hin. destruct Hin as [Hin|Hin].
      * specialize (Hcross (k, PWrite) (k, PFetch)
                      (In_estamps C _ _ _ Hin eq_refl) (or_introl eq_refl)).
        destruct Hcross as [Hlt|[_ [Hlt|[Hne _]]]]; cbn in *; try lia; discriminate.
      * cbn in Hin. intuition discriminate.
  - intros g p Hin. unfold run_trace in Hin. rewrite app_nil_r in Hin.
    pose proof (before_finish_quiet C _ _ _ _ _ _ _ (e_guard e) (loop_guard C e) e Hv)
      as Hq.
    rewrite Forall_forall in Hq. apply Hq in Hin. cbn in Hin.
    destruct Hin; discriminate.
  - reflexivity.
Qed.

End Checkify.

(** Error tracking on; the step reports an error on the sixth batch. *)
Lemma checkify_raise_after_update_witness :
  let trainer := toy_trainer (Some 10) None 1 1 ["nan"%string] in
  let m := out_machine (train_impl toy trainer toy_env) in
  In (Disallow, @EvStep toy 5 true true true (6, true)) (new_events toy_env m) /\
  train_impl toy trainer toy_env = Raised JaxRuntimeError m /\
  (forall g ls, ~ In (g, EvWriteStepMetrics 5 ls) (new_events toy_env m)) /\
  e_fs (snd m) = e_fs toy_env.
Proof.
  cbv zeta.
  assert (Hin : In (Disallow, @EvStep toy 5 true true true (6, true))
                  (new_events toy_env
                     (out_machine
                        (train_impl toy (toy_trainer (Some 10) None 1 1 ["nan"%string])
                           toy_env)))).
  { apply (nth_error_In _ 47). vm_compute. reflexivity. }
  split; [exact Hin|].
  destruct (checkify_raise_after_update toy
              (toy_trainer (Some 10) None 1 1 ["nan"%string]) toy_env
              Disallow 5 true true true (6, true))
    as (m & L & b & pre & Hrun & _ & _ & _ & _ & Hw & _ & Hfs).
  - reflexivity.
  - exact Hin.
  - reflexivity.
  - rewrite Hrun. cbn [out_machine]. split; [reflexivity|]. split; [exact Hw | exact Hfs].
Defined.

(** C6 as stated fails on the metrics write: with [log_metrics_every = 1]
    the cadence matches at every step, the step execution reports the error
    at step 5, the state and the timer have their sixth update, and
    [write_step_metrics] was called for steps 0 to 4 only. *)
Lemma checkify_counterexample :
  let trainer := toy_trainer (Some 10) None 1 1 ["nan"%string] in
  let o := train_impl toy trainer toy_env in
  o = Raised JaxRuntimeError (out_machine o) /\
  (5 mod log_metrics_every trainer =? 0) = true /\
  l_state (fst (out_machine o)) = 6 /\
  steps_finished (l_timer (fst (out_machine o))) = 6%nat /\
  map fst (step_requests (new_events toy_env (out_machine o))) = [0; 1; 2; 3; 4; 5] /\
  map fst (metric_writes (new_events toy_env (out_machine o))) = [0; 1; 2; 3; 4].
Proof.
  cbv zeta. vm_compute. repeat split.
Qed.

(** ** Starting from a checkpoint *)

Section Resume.

Variable C : Collaborators.

Lemma filter_none {A : Type} (f : A -> bool) (l : list A) :
  Forall (fun a => f a = false) l -> filter f l = [].
Proof.
  induction 1 as [|a l Ha _ IH]; [reflexivity|].
  cbn. now rewrite Ha.
Qed.

Lemma initial_step_latest (e : Env C) k cs :
  ckpt_latest (e_ckpt e) = Some (k, cs) -> initial_step_of C e = k.
Proof.
  intros H. unfold initial_step_of, ckpt_latest_step. now rewrite H.
Qed.

Lemma init_locals_latest (trainer : Trainer) (e : Env C) k cs :
  ckpt_latest (e_ckpt e) = Some (k, cs) ->
  init_locals C trainer e = mkLocals (cs_state cs) (cs_timer cs) (cs_ds_iter cs) None.
Proof.
  intros H. unfold init_locals, ckpt_restore. now rewrite H.
Qed.

(** The first batch fetched by a completed loop is the one under the
    cursor, and it is fetched by the first step. *)
Lemma loop_first_fetch (trainer : Trainer) (hooks : list Hook) k rest L e out evs :
  loop_view C trainer hooks (k :: rest) L e out evs ->
  completed out = true ->
  exists b, train_ds C (l_ds_iter L) = Some b /\ hd_error (efetched evs) = Some (k, b).
Proof.
  intros Hv Hdone.
  inversion Hv as [|? ? ? ? x L' ck evs' Hb|? ? ? ? b out' evs' Hs Hm Hds Hc Hl]; subst.
  - discriminate.
  - exists b. split; [assumption|]. now rewrite efetched_step.
Qed.

(** C10, as the code has it.  The loop starts at [latest_step] when a
    checkpoint exists and at 0 otherwise: no call of the loop belongs to an
    earlier step, and when the run completes with [latest_step = k] inside
    the step range, the first batch fetched is fetched by step [k] itself
    and is the one under the restored cursor, so that the step at which the
    checkpoint was saved runs again.  The four fresh-start writer calls are
    made exactly when the initial step is 0, that is when there is no
    checkpoint or when the latest checkpoint is that of step 0. *)
Theorem resume_starts_at_latest_step (trainer : Trainer) (e : Env C) :
  let o := train_impl C trainer e in
  let d := new_events e (out_machine o) in
  let initial_step :=
    match ckpt_latest_step (e_ckpt e) with None => 0 | Some k => k end in
  Forall (fun st => initial_step <= fst st) (stamps d) /\
  (forall k cs n,
      ckpt_latest (e_ckpt e) = Some (k, cs) ->
      num_train_steps trainer = Some n ->
      k < total_steps_of n (stop_after_steps trainer) ->
      completed o = true ->
      initial_step = k /\
      exists b,
        train_ds C (cs_ds_iter cs) = Some b /\
        hd_error (fetched d) = Some (k, b)) /\
  map snd (filter (fun pe => is_fresh_start_write (snd pe)) d) =
    (if initial_step =? 0
     then [EvWriteConfig; EvWriteParamOverview 0; EvWriteElementSpec 0;
           EvWriteContextStructure 0]
     else []).
Proof.
  cbv zeta. fold (initial_step_of C e).
  destruct (train_impl_events C trainer e) as [evs [Hd Hcase]].
  rewrite Hd. split; [|split].
  - rewrite stamps_run_trace.
    destruct (num_train_steps trainer) as [n|].
    + destruct Hcase as [out [Hv _]].
      destruct (loop_sorted C _ _ _ _ _ _ _ Hv (count_from_sorted _ _)) as [_ Hin].
      eapply Forall_impl; [|exact Hin].
      intros st Hst. unfold loop_steps in Hst. apply count_from_In in Hst. lia.
    + destruct Hcase as [-> _]. constructor.
  - intros k cs n Hck Hn Hlt Hdone.
    split; [now apply initial_step_latest with cs|].
    rewrite Hn in Hcase. destruct Hcase as [out [Hv Hrun]].
    rewrite Hrun, completed_finish in Hdone.
    unfold loop_steps in Hv.
    rewrite (initial_step_latest e k cs Hck) in Hv.
    rewrite (init_locals_latest trainer e k cs Hck) in Hv.
    destruct (Z.to_nat (total_steps_of n (stop_after_steps trainer) - k)) as [|N] eqn:HN;
      [lia|].
    cbn [count_from] in Hv.
    destruct (loop_first_fetch _ _ _ _ _ _ _ _ Hv Hdone) as [b [Hds Hhd]].
    exists b. split; [exact Hds|]. now rewrite fetched_run_trace.
  - unfold run_trace. rewrite !filter_app, !map_app.
    rewrite (filter_none _ (map (pair (loop_guard C e)) evs)).
    2:{ apply Forall_forall. intros [g ev] Hin. apply in_map_iff in Hin.
        destruct Hin as [ev' [[= <- <-] Hin]]. cbn [snd].
        assert (Hstamped : Forall (fun ev : Event C => stamp ev <> None) evs).
        { destruct (num_train_steps trainer).
          - destruct Hcase as [out [Hv _]].
            exact (loop_events_stamped C _ _ _ _ _ _ _ Hv).
          - destruct Hcase as [-> _]. constructor. }
        rewrite Forall_forall in Hstamped. specialize (Hstamped _ Hin).
        destruct ev'; try reflexivity; now elim Hstamped. }
    rewrite (filter_none _ (if completed (train_impl C trainer e) then _ else _)).
    2:{ destruct (completed (train_impl C trainer e)); [|constructor].
        unfold finish_events.
        destruct (workdir_exists C trainer e); repeat constructor. }
    cbn [map app]. rewrite app_nil_r.
    unfold init_events.
    destruct (Z.eqb_spec (initial_step_of C e) 0) as [->|]; reflexivity.
Qed.

End Resume.

(** A restart from the checkpoint of step 3, with a budget of 4 steps. *)
Lemma resume_starts_at_latest_step_witness :
  let trainer := toy_trainer (Some 4) None 1 1 [] in
  let o := train_impl toy trainer (toy_env_at 3) in
  ckpt_latest (e_ckpt (toy_env_at 3)) =
    Some (3, @mkCheckpointState (TrainState toy) 3 (mkTimer 0 8 3) 3%nat) /\
  3 < total_steps_of 4 None /\
  completed o = true /\
  exists b,
    train_ds toy 3%nat = Some b /\
    hd_error (fetched (new_events (toy_env_at 3) (out_machine o))) = Some (3, b).
Proof.
  cbv zeta.
  assert (Hdone : completed (train_impl toy (toy_trainer (Some 4) None 1 1 [])
                               (toy_env_at 3)) = true)
    by (vm_compute; reflexivity).
  split; [reflexivity|]. split; [cbn; lia|]. split; [exact Hdone|].
  destruct (resume_starts_at_latest_step toy (toy_trainer (Some 4) None 1 1 [])
              (toy_env_at 3)) as [_ [Hfirst _]].
  destruct (Hfirst 3 (@mkCheckpointState (TrainState toy) 3 (mkTimer 0 8 3) 3%nat) 4
              eq_refl eq_refl ltac:(cbn; lia) Hdone) as [_ Hb].
  exact Hb.
Defined.

(** C10 as stated fails on the fresh-start calls: a restarted process that
    finds the checkpoint of step 0 starts at step 0 and makes the four
    fresh-start writer calls, although a checkpoint exists (the state is
    initialised with [skip_transforms=True]). *)
Lemma resume_counterexample :
  let trainer := toy_trainer (Some 1) None 1 1 [] in
  let o := train_impl toy trainer (toy_env_at 0) in
  ckpt_latest_step (e_ckpt (toy_env_at 0)) = Some 0 /\
  map snd (firstn 7 (new_events (toy_env_at 0) (out_machine o))) =
    [EvSetupRun; EvInit true; EvRestore true;
     EvWriteConfig; EvWriteParamOverview 0; EvWriteElementSpec 0;
     EvWriteContextStructure 0].
Proof.
  cbv zeta. vm_compute. split; reflexivity.
Qed.

(** ** Resuming replays the batches *)

Section RoundTrip.

Variable C : Collaborators.

Lemma abort_reason (trainer : Trainer) (i : Z) (L : Locals C) (e : Env C) x m :
  body_view C trainer i L e (Raised x m) ->
  (log_summaries_every trainer = 0 \/ log_metrics_every trainer = 0) \/
  train_ds C (l_ds_iter L) = None \/
  exists b, train_ds C (l_ds_iter L) = Some b /\
            checkify_raises C trainer i L b = true.
Proof.
  intros H. inversion H; subst; eauto.
Qed.

(** The step depends on the locals through what a checkpoint holds. *)
Lemma stepped_cs_of (trainer : Trainer) (i : Z) (L L2 : Locals C) (b : Batch C) :
  cs_of L = cs_of L2 ->
  stepped C trainer i L b = stepped C trainer i L2 b /\
  checkify_raises C trainer i L b = checkify_raises C trainer i L2 b /\
  l_ds_iter L = l_ds_iter L2.
Proof.
  unfold cs_of. intros [= Hs Ht Hd].
  unfold checkify_raises, stepped, step_result. now rewrite Hs, Ht, Hd.
Qed.

(** Two loops over the same steps, started with locals that hold the same
    checkpoint state, possibly in different environments: when the first
    completes, so does the second, with the same batches and, unless no step
    was run, the same locals. *)
Lemma loop_sim (trainer : Trainer) (hooks hooks2 : list Hook) l L e out evs :
  loop_view C trainer hooks l L e out evs ->
  completed out = true ->
  forall L2 e2 out2 evs2,
    cs_of L = cs_of L2 ->
    loop_view C trainer hooks2 l L2 e2 out2 evs2 ->
    completed out2 = true /\
    efetched evs2 = efetched evs /\
    (L = L2 \/ l <> [] -> fst (out_machine out2) = fst (out_machine out)).
Proof.
  induction 1 as [L e|i rest L e x L' ck evs Hb|i rest L e b out evs Hs Hm Hds Hc Hl IH];
    intros Hdone L2 e2 out2 evs2 Hcs Hv2.
  - inversion Hv2; subst. repeat split. intros [->|Hne]; [reflexivity|now elim Hne].
  - discriminate.
  - destruct (stepped_cs_of trainer i L L2 b Hcs) as [Hst [Hcr Hcur]].
    inversion Hv2 as [|? ? ? ? x L' ck evs' Hb|? ? ? ? b2 out' evs' Hs2 Hm2 Hds2 Hc2 Hl2];
      subst.
    + exfalso. apply abort_reason in Hb.
      destruct Hb as [[Hz|Hz]|[Hnone|[b2 [Hds2 Hc2]]]]; try contradiction.
      * congruence.
      * assert (b2 = b) by congruence. subst b2. congruence.
    + assert (b2 = b) by congruence. subst b2.
      rewrite <- Hst in Hl2.
      destruct (IH Hdone _ _ _ _ eq_refl Hl2) as [Hd2 [Hf Hloc]].
      split; [exact Hd2|]. split.
      * now rewrite !efetched_step, Hf.
      * intros _. apply Hloc. now left.
Qed.

(** A completed loop whose trace has a save at step [k]: the loop reached
    step [k] with the locals that were saved, and before that fetched only
    batches of the earlier steps. *)
Lemma loop_split_at_save (trainer : Trainer) (hooks : list Hook) l L e out evs :
  loop_view C trainer hooks l L e out evs ->
  completed out = true ->
  forall k cs, In (EvSave k cs) evs ->
  exists l1 l2 Lk ek evs_a evs_b,
    l = l1 ++ k :: l2 /\
    cs = cs_of Lk /\
    loop_view C trainer hooks (k :: l2) Lk ek out evs_b /\
    evs = evs_a ++ evs_b /\
    Forall (fun sb => In (fst sb) l1) (efetched evs_a).
Proof.
  induction 1 as [L e|i rest L e x L' ck evs Hb|i rest L e b out evs Hs Hm Hds Hc Hl IH];
    intros Hdone k cs Hin.
  - destruct Hin.
  - discriminate.
  - apply in_app_or in Hin. destruct Hin as [Hin|Hin].
    + pose proof (dispatch_events_kind C trainer i L e) as Hk.
      unfold dispatch_events in Hin. apply in_app_or in Hin.
      destruct Hin as [Hin|Hin].
      * destruct (should_save C (e_ckpt e) i); [|destruct Hin].
        destruct Hin as [[= <- <-]|[]].
        exists [], rest, L, e, [].
        eexists. split; [reflexivity|]. split; [reflexivity|].
        split; [eapply LoopStep; eassumption|]. split; [reflexivity|constructor].
      * apply in_map_iff in Hin. destruct Hin as [? [[=] _]].
    + assert (Hin' : In (EvSave k cs) evs).
      { apply in_app_or in Hin. destruct Hin as [Hin|Hin].
        { cbn in Hin. intuition discriminate. }
        apply in_app_or in Hin. destruct Hin as [Hin|Hin].
        { pose proof (write_events_kind C trainer i e) as Hk.
          rewrite Forall_forall in Hk. now apply Hk in Hin. }
        apply in_app_or in Hin. destruct Hin as [Hin|Hin]; [|exact Hin].
        pose proof (hook_events_kind C hooks i) as Hk.
        rewrite Forall_forall in Hk. now apply Hk in Hin. }
      destruct (IH Hdone k cs Hin')
        as [l1 [l2 [Lk [ek [evs_a [evs_b [Hl1 [Hcs [Hv [Hevs Hfa]]]]]]]]]].
      exists (i :: l1), l2, Lk, ek.
      exists (dispatch_events C trainer i L e ++ exec_events C trainer i L b ++
              write_events C trainer i e ++ hook_events C hooks i ++ evs_a).
      exists evs_b.
      split; [now rewrite Hl1|]. split; [exact Hcs|]. split; [exact Hv|]. split.
      * rewrite Hevs, <- !app_assoc. reflexivity.
      * rewrite efetched_step. constructor; [now left|].
        eapply Forall_impl; [|exact Hfa]. intros sb Hsb. now right.
Qed.

Lemma count_from_suffix (l1 : list Z) :
  forall a N k l2,
    count_from a N = l1 ++ k :: l2 ->
    k :: l2 = count_from k (Z.to_nat (a + Z.of_nat N - k)) /\
    Forall (fun i => i < k) l1.
Proof.
  induction l1 as [|x l1 IH]; intros a N k l2 H.
  - destruct N as [|N]; [discriminate|]. cbn in H. injection H as -> <-.
    replace (Z.to_nat (k + Z.of_nat (S N) - k)) with (S N) by lia.
    split; [reflexivity|constructor].
  - destruct N as [|N]; [discriminate|]. cbn in H. injection H as <- H.
    destruct (IH _ _ _ _ H) as [Hs Hf].
    split.
    + rewrite Hs. f_equal. lia.
    + constructor; [|exact Hf].
      assert (Hin : In k (count_from (a + 1) N))
        by (rewrite H; apply in_or_app; right; now left).
      apply count_from_In in Hin. lia.
Qed.

Lemma filter_all {A : Type} (f : A -> bool) (l : list A) :
  Forall (fun a => f a = true) l -> filter f l = l.
Proof.
  induction 1 as [|a l Ha _ IH]; [reflexivity|].
  cbn. now rewrite Ha, IH.
Qed.

Lemma filter_filter_imp {A : Type} (f g : A -> bool) (l : list A) :
  (forall a, f a = true -> g a = true) ->
  filter f (filter g l) = filter f l.
Proof.
  intros Himp. induction l as [|a l IH]; [reflexivity|].
  cbn. destruct (g a) eqn:Hg; cbn.
  - now rewrite IH.
  - destruct (f a) eqn:Hf; [|exact IH].
    apply Himp in Hf. congruence.
Qed.

Lemma efetched_In (evs : list (Event C)) i b :
  In (i, b) (efetched evs) -> In (EvNext i b) evs.
Proof.
  unfold efetched. intros H. apply in_flat_map in H.
  destruct H as [ev [Hin Hev]].
  destruct ev; try (now destruct Hev).
  destruct Hev as [[= <- <-]|[]]. exact Hin.
Qed.

(** A stamped call of the trace of a run is a call of its loop. *)
Lemma run_trace_stamped (trainer : Trainer) (e : Env C) evs done g ev :
  In (g, ev) (run_trace C trainer e evs done) ->
  stamp ev <> None ->
  In ev evs.
Proof.
  intros Hin Hs. unfold run_trace in Hin.
  apply in_app_or in Hin. destruct Hin as [Hin|Hin].
  { apply in_map_iff in Hin. destruct Hin as [ev' [[= _ ->] Hin]].
    pose proof (init_events_unstamped C e) as Hi. rewrite Forall_forall in Hi.
    now destruct (Hi _ Hin). }
  apply in_app_or in Hin. destruct Hin as [Hin|Hin].
  { apply in_map_iff in Hin. now destruct Hin as [ev' [[= _ ->] Hin]]. }
  destruct done; [|destruct Hin].
  apply in_app_or in Hin. destruct Hin as [Hin|Hin].
  - unfold finish_events in Hin.
    destruct (workdir_exists C trainer e); cbn in Hin; [|destruct Hin].
    destruct Hin as [[= _ <-]|[]]. now elim Hs.
  - destruct Hin as [[= _ <-]|[]]. now elim Hs.
Qed.

End RoundTrip.

Section RoundTripClaim.

Variable C : Collaborators.

(** C4. Let a run of [train_impl] return and have saved the checkpoint [cs]
    at step [k].  A restarted process whose checkpointer has this save as
    its latest checkpoint returns the same result, and the batches it
    fetches are, step for step, those the first run fetched from step [k]
    on: step [k] is replayed on the batch under the saved cursor, and from
    step [k + 1] onward the batch sequence is that of the uninterrupted
    run. *)
Theorem resume_replays_batches (trainer : Trainer) (e1 e2 : Env C) r m1 g k cs :
  train_impl C trainer e1 = Ok r m1 ->
  In (g, EvSave k cs) (new_events e1 m1) ->
  ckpt_latest (e_ckpt e2) = Some (k, cs) ->
  exists m2,
    train_impl C trainer e2 = Ok r m2 /\
    fetched (new_events e2 m2) =
      filter (fun sb => k <=? fst sb) (fetched (new_events e1 m1)) /\
    filter (fun sb => k + 1 <=? fst sb) (fetched (new_events e2 m2)) =
      filter (fun sb => k + 1 <=? fst sb) (fetched (new_events e1 m1)).
Proof.
  intros Hrun Hsave Hlatest.
  destruct (train_impl_completed C trainer e1 _ _ Hrun)
    as [n [L1 [e1' [evs1 [Hn [Hv1 Hfin1]]]]]].
  pose proof (f_equal (fun o => new_events e1 (out_machine o)) Hfin1) as Hd1.
  cbn beta in Hd1. rewrite finish_new_events in Hd1. cbn [out_machine completed] in Hd1.
  rewrite Hd1 in Hsave |- *.
  apply run_trace_stamped in Hsave; [|discriminate].
  destruct (loop_split_at_save C _ _ _ _ _ _ _ Hv1 eq_refl k cs Hsave)
    as [l1 [l2 [Lk [ek [evs_a [evs_b [Hl [Hcs [Hvk [Hevs Hfa]]]]]]]]]].
  unfold loop_steps in Hl.
  destruct (count_from_suffix _ _ _ _ _ Hl) as [Hsuf Hlt].
  assert (Htot : initial_step_of C e1 +
                 Z.of_nat (Z.to_nat (total_steps_of n (stop_after_steps trainer)
                                     - initial_step_of C e1)) =
                 total_steps_of n (stop_after_steps trainer)).
  { destruct (Z.to_nat _) eqn:HN in Hl; [|lia].
    cbn in Hl. now destruct l1. }
  rewrite Htot in Hsuf.
  destruct (train_impl_some C trainer e2 n Hn) as [out2 [evs2 [Hv2 Hfin2]]].
  unfold loop_steps in Hv2.
  rewrite (initial_step_latest C e2 k cs Hlatest), <- Hsuf in Hv2.
  rewrite (init_locals_latest C trainer e2 k cs Hlatest) in Hv2.
  assert (Hsame : cs_of Lk =
                  cs_of (mkLocals (cs_state cs) (cs_timer cs) (cs_ds_iter cs) None)).
  { rewrite Hcs. reflexivity. }
  destruct (loop_sim C _ _ _ _ _ _ _ _ Hvk eq_refl _ _ _ _ Hsame Hv2)
    as [Hdone2 [Hf2 Hloc2]].
  destruct out2 as [[] [L2 e2']|x m]; [|discriminate].
  cbn [out_machine fst] in Hloc2.
  rewrite Hloc2 in Hfin2 by (right; discriminate).
  cbn [finish] in Hfin1, Hfin2. injection Hfin1 as Hr _.
  eexists. split; [rewrite Hfin2, Hr; reflexivity|].
  assert (Hd2 : forall fs, new_events e2
                  (L1, mkEnv (e_is_lead_host e2) (e_disable_jit e2) (e_guard e2)
                         (e_ckpt e2') fs
                         (e_trace e2 ++ run_trace C trainer e2 evs2 true)) =
                run_trace C trainer e2 evs2 true)
    by (intros fs; now apply new_events_app).
  rewrite Hd2, !fetched_run_trace, Hf2, Hevs.
  assert (Hfilter : efetched evs_b =
                    filter (fun sb => k <=? fst sb) (efetched (evs_a ++ evs_b))).
  { unfold efetched at 2. rewrite flat_map_app, filter_app.
    fold (efetched evs_a). fold (efetched evs_b).
    rewrite (filter_none _ (efetched evs_a)).
    2:{ eapply Forall_impl; [|exact Hfa]. intros sb Hsb. cbn beta.
        rewrite Forall_forall in Hlt. apply Hlt in Hsb. lia. }
    rewrite filter_all; [reflexivity|].
    apply Forall_forall. intros [j bj] Hin. cbn [fst].
    apply efetched_In in Hin.
    assert (Hsorted : StronglySorted Z.lt (k :: l2))
      by (rewrite Hsuf; apply count_from_sorted).
    destruct (loop_sorted C _ _ _ _ _ _ _ Hvk Hsorted) as [_ Hsteps].
    rewrite Forall_forall in Hsteps.
    specialize (Hsteps (j, PFetch) (In_estamps C _ _ _ Hin eq_refl)).
    cbn [fst] in Hsteps. rewrite Hsuf in Hsteps.
    apply count_from_In in Hsteps. lia. }
  split; [exact Hfilter|].
  rewrite Hfilter at 1. apply filter_filter_imp.
  intros sb Hsb. lia.
Qed.

End RoundTripClaim.

(** A fresh run of five steps saves at step 3; the restart from that save
    fetches the batches of steps 3 and 4 again. *)
Lemma resume_replays_batches_witness :
  let trainer := toy_trainer (Some 4) None 1 1 [] in
  let m1 := out_machine (train_impl toy trainer toy_env) in
  let cs := @mkCheckpointState (TrainState toy) 3 (mkTimer 0 8 3) 3%nat in
  train_impl toy trainer toy_env = Ok (5, Some false) m1 /\
  In (Disallow, EvSave 3 cs) (new_events toy_env m1) /\
  ckpt_latest (e_ckpt (toy_env_at 3)) = Some (3, cs) /\
  exists m2,
    train_impl toy trainer (toy_env_at 3) = Ok (5, Some false) m2 /\
    fetched (new_events (toy_env_at 3) m2) = [(3, 3%nat); (4, 4%nat)].
Proof.
  cbv zeta.
  assert (Hrun : train_impl toy (toy_trainer (Some 4) None 1 1 []) toy_env =
                 Ok (5, Some false)
                   (out_machine (train_impl toy (toy_trainer (Some 4) None 1 1 []) toy_env)))
    by (vm_compute; reflexivity).
  assert (Hsave : In (Disallow,
                      EvSave 3 (@mkCheckpointState (TrainState toy) 3 (mkTimer 0 8 3) 3%nat))
                    (new_events toy_env
                       (out_machine
                          (train_impl toy (toy_trainer (Some 4) None 1 1 []) toy_env)))).
  { apply nth_error_In with (n := 29%nat). vm_compute. reflexivity. }
  assert (Hf1 : filter (fun sb : Z * nat => 3 <=? fst sb)
                  (fetched
                     (new_events toy_env
                        (out_machine
                           (train_impl toy (toy_trainer (Some 4) None 1 1 []) toy_env)))) =
                [(3, 3%nat); (4, 4%nat)]) by (vm_compute; reflexivity).
  split; [exact Hrun|]. split; [exact Hsave|]. split; [reflexivity|].
  destruct (resume_replays_batches toy (toy_trainer (Some 4) None 1 1 [])
              toy_env (toy_env_at 3) _ _ _ _ _ Hrun Hsave eq_refl)
    as [m2 [Hrun2 [Hf2 _]]].
  exists m2. split; [exact Hrun2|].
  rewrite Hf2. exact Hf1.
Defined.

(** ** How a loop ends *)

Section LoopEnds.

Variable C : Collaborators.

(** The three ways in which the body of the loop raises. *)
Lemma abort_cases (trainer : Trainer) (i : Z) (L L' : Locals C) (e : Env C)
    (x : Exn) ck (evs : list (Event C)) :
  body_view C trainer i L e (Raised x (L', env_extend e ck evs)) ->
  ck = saved_ckpt C i L e /\
  ((x = ZeroDivisionError /\
    (log_summaries_every trainer = 0 \/ log_metrics_every trainer = 0) /\
    L' = L /\ evs = dispatch_events C trainer i L e) \/
   (x = StopIteration /\
    log_summaries_every trainer <> 0 /\ log_metrics_every trainer <> 0 /\
    train_ds C (l_ds_iter L) = None /\
    L' = L /\ evs = dispatch_events C trainer i L e) \/
   (exists b,
      x = JaxRuntimeError /\
      log_summaries_every trainer <> 0 /\ log_metrics_every trainer <> 0 /\
      train_ds C (l_ds_iter L) = Some b /\
      checkify_raises C trainer i L b = true /\
      L' = stepped C trainer i L b /\
      evs = dispatch_events C trainer i L e ++ exec_events C trainer i L b)).
Proof.
  intros H.
  inversion H as [Hz Heq|Hs Hm Hds Heq|b Hs Hm Hds Hc Heq|];
    match goal with Hx : _ ++ map _ _ = _ ++ map _ _ |- _ =>
      apply app_inv_head, pair_inj in Hx end;
    subst; (split; [reflexivity|]).
  - left. now repeat split.
  - right. left. now repeat split.
  - right. right. exists b. now repeat split.
Qed.

(** A loop that raises has completed the steps before the one that raised. *)
Lemma loop_abort_at (trainer : Trainer) (hooks : list Hook) l L e out evs :
  loop_view C trainer hooks l L e out evs ->
  completed out = false ->
  exists l1 i l2 Li ei pre seg x L' ck,
    l = l1 ++ i :: l2 /\
    loop_view C trainer hooks l1 L e (Ok tt (Li, ei)) pre /\
    body_view C trainer i Li ei (Raised x (L', env_extend ei ck seg)) /\
    out = Raised x (L', env_extend ei ck seg) /\
    evs = pre ++ seg.
Proof.
  induction 1 as [L e|i rest L e x L' ck evs Hb|i rest L e b out evs Hs Hm Hds Hc Hl IH];
    intros Hdone.
  - discriminate.
  - exists [], i, rest, L, e, [], evs, x, L', ck.
    repeat split; [apply LoopEnd|exact Hb].
  - destruct (IH Hdone)
      as [l1 [j [l2 [Li [ei [pre [seg [x [L' [ck [Hl1 [Hpre [Hb [Hout Hevs]]]]]]]]]]]]]].
    exists (i :: l1), j, l2, Li, ei.
    exists (dispatch_events C trainer i L e ++ exec_events C trainer i L b ++
            write_events C trainer i e ++ hook_events C hooks i ++ pre).
    exists seg, x, L', ck.
    split; [now rewrite Hl1|]. split; [now apply LoopStep|].
    split; [exact Hb|]. split; [exact Hout|].
    rewrite Hevs, <- !app_assoc. reflexivity.
Qed.

(** A completed loop over [l1 ++ l2] is a completed loop over [l1]
    followed by a loop over [l2]. *)
Lemma loop_app_inv (trainer : Trainer) (hooks : list Hook) (l1 l2 : list Z) :
  forall L e out evs,
    loop_view C trainer hooks (l1 ++ l2) L e out evs ->
    completed out = true ->
    exists L' e' evs1 evs2,
      loop_view C trainer hooks l1 L e (Ok tt (L', e')) evs1 /\
      loop_view C trainer hooks l2 L' e' out evs2 /\
      evs = evs1 ++ evs2.
Proof.
  induction l1 as [|i l1 IH]; intros L e out evs Hv Hdone.
  - exists L, e, [], evs. repeat split; [apply LoopEnd|exact Hv].
  - cbn [app] in Hv.
    inversion Hv as [|? ? ? ? x L' ck evs' Hb|? ? ? ? b out' evs' Hs Hm Hds Hc Hl]; subst.
    + discriminate.
    + destruct (IH _ _ _ _ Hl Hdone) as [L' [e' [evs1 [evs2 [H1 [H2 Hevs]]]]]].
      exists L', e'.
      exists (dispatch_events C trainer i L e ++ exec_events C trainer i L b ++
              write_events C trainer i e ++ hook_events C hooks i ++ evs1).
      exists evs2.
      split; [now apply LoopStep|]. split; [exact H2|].
      rewrite Hevs, <- !app_assoc. reflexivity.
Qed.

(** What a completed loop has done to the dataset iterator and the timer,
    and which batches it fetched. *)
Lemma loop_accounting (trainer : Trainer) (hooks : list Hook) l L e out evs :
  loop_view C trainer hooks l L e out evs ->
  completed out = true ->
  l_ds_iter (fst (out_machine out)) = (l_ds_iter L + List.length l)%nat /\
  steps_finished (l_timer (fst (out_machine out))) =
    (steps_finished (l_timer L) + List.length l)%nat /\
  initial_step_num (l_timer (fst (out_machine out))) = initial_step_num (l_timer L) /\
  map fst (efetched evs) = l /\
  map (fun sb => Some (snd sb)) (efetched evs) =
    map (train_ds C) (seq (l_ds_iter L) (List.length l)).
Proof.
  induction 1 as [L e|i rest L e x L' ck evs Hb|i rest L e b out evs Hs Hm Hds Hc Hl IH];
    intros Hdone.
  - cbn. rewrite !Nat.add_0_r. now repeat split.
  - discriminate.
  - destruct (IH Hdone) as [Hcur [Hfin [Hinit [Hsteps Hbatches]]]].
    cbn [stepped l_ds_iter l_timer finish_step steps_finished initial_step_num]
      in Hcur, Hfin, Hinit, Hbatches.
    rewrite efetched_step. cbn [List.length map seq fst snd].
    repeat split.
    + rewrite Hcur. lia.
    + rewrite Hfin. lia.
    + exact Hinit.
    + now rewrite Hsteps.
    + now rewrite Hds, Hbatches.
Qed.

End LoopEnds.

(** ** Batches, iterator and timer *)

Section Accounting.

Variable C : Collaborators.

Lemma finish_locals (trainer : Trainer) (e : Env C) (out : Outcome C unit)
    (evs : list (Event C)) :
  fst (out_machine (finish C trainer e out evs)) = fst (out_machine out).
Proof. now destruct out as [[] [L e']|x [L e']]. Qed.

Lemma count_from_prefix_length (l1 : list Z) :
  forall a N k l2,
    count_from a N = l1 ++ k :: l2 -> k = a + Z.of_nat (List.length l1).
Proof.
  induction l1 as [|x l1 IH]; intros a N k l2 H.
  - destruct N as [|N]; [discriminate|]. cbn in H. injection H as -> _. cbn. lia.
  - destruct N as [|N]; [discriminate|]. cbn in H. injection H as _ H.
    apply IH in H. cbn [List.length]. lia.
Qed.

(** A save in the trace of a loop was made with the locals reached by the
    completed steps before it. *)
Lemma loop_reach_save (trainer : Trainer) (hooks : list Hook) l L e out evs :
  loop_view C trainer hooks l L e out evs ->
  forall k cs, In (EvSave k cs) evs ->
  exists l1 l2 Lk ek pre,
    l = l1 ++ k :: l2 /\
    loop_view C trainer hooks l1 L e (Ok tt (Lk, ek)) pre /\
    cs = cs_of Lk.
Proof.
  assert (Hdisp : forall i L0 e0 k cs,
             In (EvSave k cs) (dispatch_events C trainer i L0 e0) ->
             k = i /\ cs = cs_of L0).
  { intros i L0 e0 k cs Hin. unfold dispatch_events in Hin.
    apply in_app_or in Hin. destruct Hin as [Hin|Hin].
    - destruct (should_save C (e_ckpt e0) i); [|destruct Hin].
      destruct Hin as [[= <- <-]|[]]. now split.
    - apply in_map_iff in Hin. destruct Hin as [? [[=] _]]. }
  induction 1 as [L e|i rest L e x L' ck evs Hb|i rest L e b out evs Hs Hm Hds Hc Hl IH];
    intros k cs Hin.
  - destruct Hin.
  - apply abort_cases in Hb. destruct Hb as [_ Hb].
    assert (Hin' : In (EvSave k cs) (dispatch_events C trainer i L e)).
    { destruct Hb as [[_ [_ [_ ->]]]|[[_ [_ [_ [_ [_ ->]]]]]|
                      [b [_ [_ [_ [_ [_ [_ ->]]]]]]]]]; trivial.
      apply in_app_or in Hin. destruct Hin as [Hin|Hin]; [exact Hin|].
      cbn in Hin. intuition discriminate. }
    destruct (Hdisp _ _ _ _ _ Hin') as [-> ->].
    exists [], rest, L, e, []. repeat split. apply LoopEnd.
  - apply in_app_or in Hin. destruct Hin as [Hin|Hin].
    + destruct (Hdisp _ _ _ _ _ Hin) as [-> ->].
      exists [], rest, L, e, []. repeat split. apply LoopEnd.
    + assert (Hin' : In (EvSave k cs) evs).
      { apply in_app_or in Hin. destruct Hin as [Hin|Hin].
        { cbn in Hin. intuition discriminate. }
        apply in_app_or in Hin. destruct Hin as [Hin|Hin].
        { pose proof (write_events_kind C trainer i e) as Hk.
          rewrite Forall_forall in Hk. now apply Hk in Hin. }
        apply in_app_or in Hin. destruct Hin as [Hin|Hin]; [|exact Hin].
        pose proof (hook_events_kind C hooks i) as Hk.
        rewrite Forall_forall in Hk. now apply Hk in Hin. }
      destruct (IH k cs Hin') as [l1 [l2 [Lk [ek [pre [Hl1 [Hv Hcs]]]]]]].
      exists (i :: l1), l2, Lk, ek.
      exists (dispatch_events C trainer i L e ++ exec_events C trainer i L b ++
              write_events C trainer i e ++ hook_events C hooks i ++ pre).
      split; [now rewrite Hl1|]. split; [now apply LoopStep|exact Hcs].
Qed.

(** X2. Every checkpoint that [train_impl] saves at a step [k] holds the
    iterator cursor and the timer of the start of step [k]: the restored
    cursor advanced by [k - initial_step] batches and the restored timer
    with [k - initial_step] more finished steps.  So the saved cursor points
    at the batch that step [k] is about to fetch. *)
Theorem saved_checkpoint_contents (trainer : Trainer) (e : Env C) g k cs :
  let m := out_machine (train_impl C trainer e) in
  let L0 := init_locals C trainer e in
  In (g, EvSave k cs) (new_events e m) ->
  initial_step_of C e <= k /\
  cs_ds_iter cs = (l_ds_iter L0 + Z.to_nat (k - initial_step_of C e))%nat /\
  steps_finished (cs_timer cs) =
    (steps_finished (l_timer L0) + Z.to_nat (k - initial_step_of C e))%nat /\
  initial_step_num (cs_timer cs) = initial_step_num (l_timer L0).
Proof.
  cbv zeta. intros Hin.
  destruct (train_impl_events C trainer e) as [evs [Hd Hcase]].
  rewrite Hd in Hin. apply run_trace_stamped in Hin; [|discriminate].
  destruct (num_train_steps trainer) as [n|].
  2:{ destruct Hcase as [-> _]. destruct Hin. }
  destruct Hcase as [out [Hv _]].
  destruct (loop_reach_save _ _ _ _ _ _ _ Hv k cs Hin)
    as [l1 [l2 [Lk [ek [pre [Hl [Hpre ->]]]]]]].
  unfold loop_steps in Hl.
  apply count_from_prefix_length in Hl.
  destruct (loop_accounting C _ _ _ _ _ _ _ Hpre eq_refl) as [Hcur [Hfin [Hinit _]]].
  cbn [out_machine fst] in Hcur, Hfin, Hinit.
  cbn [cs_of cs_ds_iter cs_timer].
  replace (Z.to_nat (k - initial_step_of C e)) with (List.length l1) by lia.
  repeat split; try assumption. lia.
Qed.

End Accounting.

(** ** Failures of the loop *)

Section Failures.

Variable C : Collaborators.

Lemma loop_steps_nonempty (trainer : Trainer) (e : Env C) n :
  initial_step_of C e < total_steps_of n (stop_after_steps trainer) ->
  exists rest, loop_steps C n trainer e = initial_step_of C e :: rest.
Proof.
  intros Hlt. unfold loop_steps.
  destruct (Z.to_nat _) as [|N] eqn:HN; [lia|].
  eexists. reflexivity.
Qed.

Lemma loop_steps_empty (trainer : Trainer) (e : Env C) n :
  total_steps_of n (stop_after_steps trainer) <= initial_step_of C e ->
  loop_steps C n trainer e = [].
Proof.
  intros Hle. unfold loop_steps.
  replace (Z.to_nat _) with 0%nat by lia. reflexivity.
Qed.

(** A completed step shows that both cadences are non-zero. *)
Lemma loop_completed_cadences (trainer : Trainer) (hooks : list Hook) i l L e m evs :
  loop_view C trainer hooks (i :: l) L e (Ok tt m) evs ->
  log_summaries_every trainer <> 0 /\ log_metrics_every trainer <> 0.
Proof.
  intros Hv. inversion Hv; subst. now split.
Qed.

(** X3. With a step budget, [train_impl] raises [ZeroDivisionError] exactly
    when one of the two logging cadences is 0 and the step range is not
    empty.  The error is raised at the first step, once the checkpoint (when
    due) and the evaluators of that step are done, and before any batch is
    fetched: the locals are those of loop entry. *)
Theorem zero_cadence_raises (trainer : Trainer) (e : Env C) n :
  num_train_steps trainer = Some n ->
  ((exists m, train_impl C trainer e = Raised ZeroDivisionError m) <->
   (initial_step_of C e < total_steps_of n (stop_after_steps trainer) /\
    (log_summaries_every trainer = 0 \/ log_metrics_every trainer = 0))) /\
  (forall m,
      train_impl C trainer e = Raised ZeroDivisionError m ->
      fst m = init_locals C trainer e /\
      fetched (new_events e m) = [] /\
      stamps (new_events e m) =
        (if should_save C (e_ckpt e) (initial_step_of C e)
         then [(initial_step_of C e, PSave)] else []) ++
        map (fun _ => (initial_step_of C e, PEval)) (evals trainer)).
Proof.
  intros Hn.
  destruct (train_impl_some C trainer e n Hn) as [out [evs [Hv Hrun]]].
  assert (Hfirst : forall m,
             train_impl C trainer e = Raised ZeroDivisionError m ->
             (initial_step_of C e < total_steps_of n (stop_after_steps trainer) /\
              (log_summaries_every trainer = 0 \/ log_metrics_every trainer = 0)) /\
             fst m = init_locals C trainer e /\
             evs = dispatch_events C trainer (initial_step_of C e)
                     (init_locals C trainer e) (loop_env C e) /\
             new_events e m = run_trace C trainer e evs false).
  { intros m Hm. rewrite Hrun in Hm.
    pose proof (finish_new_events C trainer e out evs) as Hd.
    rewrite Hm in Hd. cbn [out_machine] in Hd.
    destruct out as [[] [L' e']|x [L' e']]; [discriminate|].
    cbn [finish] in Hm. injection Hm as -> <-.
    destruct (loop_abort_at C _ _ _ _ _ _ _ Hv eq_refl)
      as [l1 [i [l2 [Li [ei [pre [seg [x [L1 [ck [Hl [Hpre [Hb [Hout Hevs]]]]]]]]]]]]]].
    injection Hout as <- -> _.
    apply abort_cases in Hb. destruct Hb as [_ Hb].
    destruct Hb as [[_ [Hz [-> ->]]]|[[[=] _]|[b [[=] _]]]].
    destruct l1 as [|j l1].
    - inversion Hpre; subst. cbn [app] in *.
      assert (Hne : initial_step_of C e < total_steps_of n (stop_after_steps trainer)).
      { unfold loop_steps in Hl. destruct (Z.to_nat _) eqn:HN in Hl; [discriminate|lia]. }
      destruct (loop_steps_nonempty trainer e n Hne) as [rest Hrest].
      rewrite Hrest in Hl. injection Hl as <- _.
      repeat split; trivial.
    - apply loop_completed_cadences in Hpre. tauto. }
  split; [split|].
  - intros [m Hm]. now apply Hfirst in Hm.
  - intros [Hne Hz].
    destruct (loop_steps_nonempty trainer e n Hne) as [rest Hrest].
    rewrite Hrest in Hv.
    inversion Hv as [|? ? ? ? x L' ck evs' Hb|? ? ? ? b out' evs' Hs Hm]; subst.
    + apply abort_cases in Hb. destruct Hb as [_ Hb].
      destruct Hb as [[-> _]|[[_ [Hs [Hm _]]]|[b [_ [Hs [Hm _]]]]]]; [|tauto|tauto].
      rewrite Hrun. cbn [finish]. eexists. reflexivity.
    + tauto.
  - intros m Hm. destruct (Hfirst m Hm) as [_ [HL [Hevs Hd]]].
    split; [exact HL|].
    rewrite Hd, fetched_run_trace, stamps_run_trace, Hevs.
    split; [apply efetched_dispatch|].
    now rewrite estamps_dispatch.
Qed.

(** A loop over more steps than the dataset has batches left raises
    [StopIteration] once the batches are consumed. *)
Lemma loop_short_dataset (trainer : Trainer) (hooks : list Hook) l L e out evs :
  loop_view C trainer hooks l L e out evs ->
  (forall i L' b, checkify_raises C trainer i L' b = false) ->
  log_summaries_every trainer <> 0 ->
  log_metrics_every trainer <> 0 ->
  forall k,
    (k < List.length l)%nat ->
    (forall j, (j < k)%nat -> train_ds C (l_ds_iter L + j) <> None) ->
    train_ds C (l_ds_iter L + k) = None ->
    exists L' e',
      out = Raised StopIteration (L', e') /\
      l_ds_iter L' = (l_ds_iter L + k)%nat /\
      map fst (efetched evs) = firstn k l.
Proof.
  induction 1 as [L e|i rest L e x L' ck evs Hb|i rest L e b out evs Hs Hm Hds Hc Hl IH];
    intros Hok Hs' Hm' k Hk Hdata Hnone.
  - cbn in Hk. lia.
  - apply abort_cases in Hb. destruct Hb as [_ Hb].
    destruct Hb as [[_ [Hz _]]|[[-> [_ [_ [Hnone' [-> ->]]]]]|[b [_ [_ [_ [_ [Hc _]]]]]]]].
    + tauto.
    + destruct k as [|k].
      * eexists. eexists. split; [reflexivity|]. split; [lia|].
        now rewrite efetched_dispatch.
      * exfalso. apply (Hdata 0%nat); [lia|]. now rewrite Nat.add_0_r.
    + now rewrite Hok in Hc.
  - destruct k as [|k].
    { rewrite Nat.add_0_r in Hnone. congruence. }
    destruct (IH Hok Hs' Hm' k) as [L' [e' [Hout [Hcur Hf]]]].
    + cbn in Hk. lia.
    + intros j Hj. cbn [stepped l_ds_iter].
      replace (S (l_ds_iter L) + j)%nat with (l_ds_iter L + S j)%nat by lia.
      apply Hdata. lia.
    + cbn [stepped l_ds_iter].
      now replace (S (l_ds_iter L) + k)%nat with (l_ds_iter L + S k)%nat by lia.
    + exists L', e'. split; [exact Hout|]. split.
      * rewrite Hcur. cbn [stepped l_ds_iter]. lia.
      * rewrite efetched_step. cbn [map firstn fst]. now rewrite Hf.
Qed.

Lemma checkify_off (trainer : Trainer) :
  checkify_error_categories trainer = [] \/
  (forall s b rl rm rs,
      aux_error C (snd (trainstep_step C s b rl rm rs
                          (checkify_error_categories trainer))) = false) ->
  forall i L b, checkify_raises C trainer i L b = false.
Proof.
  intros [Hoff|Hok] i L b; unfold checkify_raises, step_result.
  - now rewrite Hoff.
  - rewrite Hok. apply andb_false_r.
Qed.

(** X5. When the dataset runs out before the step range does ([k] batches
    are left at the restored cursor, for a range of more than [k] steps),
    [train_impl] raises [StopIteration]: it has run exactly the first [k]
    steps of the range, the iterator is at the end of the dataset, and no
    sentinel is written. *)
Theorem short_dataset_raises (trainer : Trainer) (e : Env C) n (k : nat) :
  num_train_steps trainer = Some n ->
  log_summaries_every trainer <> 0 ->
  log_metrics_every trainer <> 0 ->
  (checkify_error_categories trainer = [] \/
   forall s b rl rm rs,
     aux_error C (snd (trainstep_step C s b rl rm rs
                         (checkify_error_categories trainer))) = false) ->
  (k < Z.to_nat (total_steps_of n (stop_after_steps trainer) - initial_step_of C e))%nat ->
  (forall j, (j < k)%nat ->
             train_ds C (l_ds_iter (init_locals C trainer e) + j) <> None) ->
  train_ds C (l_ds_iter (init_locals C trainer e) + k) = None ->
  exists m,
    train_impl C trainer e = Raised StopIteration m /\
    l_ds_iter (fst m) = (l_ds_iter (init_locals C trainer e) + k)%nat /\
    map fst (fetched (new_events e m)) = count_from (initial_step_of C e) k /\
    e_fs (snd m) = e_fs e.
Proof.
  intros Hn Hs Hm Hok Hk Hdata Hnone.
  destruct (train_impl_some C trainer e n Hn) as [out [evs [Hv Hrun]]].
  destruct (loop_short_dataset _ _ _ _ _ _ _ Hv (checkify_off trainer Hok) Hs Hm k)
    as [L' [e' [-> [Hcur Hf]]]]; trivial.
  { unfold loop_steps. now rewrite count_from_length. }
  rewrite Hrun. cbn [finish]. eexists. split; [reflexivity|].
  split; [exact Hcur|]. split; [|reflexivity].
  rewrite (new_events_app C e _ (run_trace C trainer e evs false)) by reflexivity.
  rewrite fetched_run_trace, Hf. unfold loop_steps.
  set (N := Z.to_nat _) in *.
  replace N with (k + (N - k))%nat by lia.
  rewrite count_from_app, firstn_app, count_from_length, Nat.sub_diag.
  cbn [firstn]. rewrite app_nil_r.
  apply firstn_all2. rewrite count_from_length. lia.
Qed.

(** X7. When the step range is empty ([total_steps <= initial_step], as on
    a restart after the last step when [stop_after_steps] cuts at or before
    the latest checkpoint), [train_impl] returns the restored state and no
    auxiliaries without running the body of the loop: no call of the loop is
    made and no checkpoint is saved, whatever the cadences and the dataset. *)
Theorem empty_range_returns (trainer : Trainer) (e : Env C) n :
  num_train_steps trainer = Some n ->
  total_steps_of n (stop_after_steps trainer) <= initial_step_of C e ->
  exists m,
    train_impl C trainer e = Ok (l_state (init_locals C trainer e), None) m /\
    fst m = init_locals C trainer e /\
    stamps (new_events e m) = [] /\
    e_ckpt (snd m) = e_ckpt e.
Proof.
  intros Hn Hle.
  destruct (train_impl_some C trainer e n Hn) as [out [evs [Hv Hrun]]].
  rewrite (loop_steps_empty trainer e n Hle) in Hv.
  inversion Hv; subst.
  rewrite Hrun. cbn [finish]. eexists. split; [reflexivity|].
  split; [reflexivity|]. split; [|reflexivity].
  rewrite (new_events_app C e _ (run_trace C trainer e [] true)) by reflexivity.
  now rewrite stamps_run_trace.
Qed.

End Failures.

(** ** Hosts *)

Section Hosts.

Variable C : Collaborators.

Lemma loop_worker (trainer : Trainer) l L e out evs :
  loop_view C trainer [] l L e out evs ->
  e_is_lead_host e = false ->
  Forall (fun ev => lead_only ev = false) evs.
Proof.
  assert (Hd : forall i L0 e0,
             Forall (fun ev : Event C => lead_only ev = false)
               (dispatch_events C trainer i L0 e0)).
  { intros i L0 e0. eapply Forall_impl; [|apply dispatch_events_kind].
    intros ev. now destruct ev. }
  assert (Hx : forall i L0 b,
             Forall (fun ev : Event C => lead_only ev = false)
               (exec_events C trainer i L0 b)).
  { intros i L0 b. repeat constructor. }
  induction 1 as [L e|i rest L e x L' ck evs Hb|i rest L e b out evs Hs Hm Hds Hc Hl IH];
    intros Hlead.
  - constructor.
  - apply abort_cases in Hb. destruct Hb as [_ Hb].
    destruct Hb as [[_ [_ [_ ->]]]|[[_ [_ [_ [_ [_ ->]]]]]|
                    [b [_ [_ [_ [_ [_ [_ ->]]]]]]]]]; try apply Hd.
    apply Forall_app. split; [apply Hd|apply Hx].
  - apply Forall_app; split; [apply Hd|].
    apply Forall_app; split; [apply Hx|].
    unfold write_events. rewrite Hlead, andb_false_r. cbn [app hook_events map].
    now apply IH.
Qed.

(** X8. A process that is not the lead host never calls
    [write_step_metrics] and runs no hook, whatever the cadences and the
    outcome of the run. *)
Theorem worker_never_logs (trainer : Trainer) (e : Env C) :
  e_is_lead_host e = false ->
  Forall (fun pe : Policy * Event C => lead_only (snd pe) = false)
    (new_events e (out_machine (train_impl C trainer e))) /\
  metric_writes (new_events e (out_machine (train_impl C trainer e))) = [].
Proof.
  intros Hlead.
  destruct (train_impl_events C trainer e) as [evs [Hd Hcase]].
  assert (Hevs : Forall (fun ev : Event C => lead_only ev = false) evs).
  { destruct (num_train_steps trainer) as [n|].
    - destruct Hcase as [out [Hv _]].
      unfold loop_hooks in Hv. rewrite Hlead in Hv.
      exact (loop_worker _ _ _ _ _ _ Hv Hlead).
    - destruct Hcase as [-> _]. constructor. }
  rewrite Hd. split.
  - unfold run_trace. apply Forall_app. split; [|apply Forall_app; split].
    + apply Forall_forall. intros [g ev] Hin. apply in_map_iff in Hin.
      destruct Hin as [ev' [[= <- <-] Hin]].
      pose proof (init_events_unstamped C e) as Hi. rewrite Forall_forall in Hi.
      destruct (Hi _ Hin) as [Hs _]. now destruct ev'.
    + apply Forall_forall. intros [g ev] Hin. apply in_map_iff in Hin.
      destruct Hin as [ev' [[= <- <-] Hin]].
      rewrite Forall_forall in Hevs. now apply Hevs.
    + destruct (completed (train_impl C trainer e)); [|constructor].
      unfold finish_events.
      destruct (workdir_exists C trainer e); repeat constructor.
  - rewrite metric_writes_run_trace. apply flat_map_nil.
    eapply Forall_impl; [|exact Hevs]. intros ev. now destruct ev.
Qed.

End Hosts.

(** ** The step range *)

Lemma firstn_count_from (k N : nat) :
  forall a, firstn k (count_from a N) = count_from a (Nat.min k N).
Proof.
  revert N; induction k as [|k IH]; intros N a; [reflexivity|].
  destruct N as [|N]; [reflexivity|].
  cbn. now rewrite IH.
Qed.

(** X10. [stop_after_steps] only cuts the enumeration: the steps enumerated
    with [stop_after_steps = s] are those enumerated without it up to, and
    excluding, step [s], with the same hooks; a cut at or beyond
    [num_train_steps + 1] changes nothing. *)
Theorem stop_after_steps_cuts (initial_step n s : Z) (lead : bool) :
  exists full cut,
    _enum_steps_with_hooks initial_step (Some n) None lead = inr full /\
    _enum_steps_with_hooks initial_step (Some n) (Some s) lead = inr cut /\
    g_steps cut = firstn (Z.to_nat (s - initial_step)) (g_steps full) /\
    g_steps cut = filter (fun i => i <? s) (g_steps full) /\
    g_hooks cut = g_hooks full /\
    (n + 1 <= s -> cut = full).
Proof.
  eexists. eexists. split; [reflexivity|]. split; [reflexivity|].
  cbn [g_steps g_hooks]. rewrite !enum_iter_steps.
  unfold total_steps_of.
  assert (Hfirst : count_from initial_step (Z.to_nat (Z.min (n + 1) s - initial_step)) =
                   firstn (Z.to_nat (s - initial_step))
                     (count_from initial_step (Z.to_nat (n + 1 - initial_step)))).
  { rewrite firstn_count_from. f_equal. lia. }
  split; [exact Hfirst|]. split; [|split; [reflexivity|]].
  - rewrite Hfirst.
    set (N := Z.to_nat (n + 1 - initial_step)).
    destruct (Z.le_gt_cases s initial_step) as [Hle|Hgt].
    + replace (Z.to_nat (s - initial_step)) with 0%nat by lia. cbn [firstn].
      symmetry. apply filter_none. apply Forall_forall. intros i Hi.
      apply count_from_In in Hi. lia.
    + destruct (Nat.le_gt_cases N (Z.to_nat (s - initial_step))) as [HN|HN].
      * rewrite firstn_all2 by (rewrite count_from_length; lia).
        symmetry. apply filter_all. apply Forall_forall. intros i Hi.
        apply count_from_In in Hi. lia.
      * replace N with (Z.to_nat (s - initial_step) + (N - Z.to_nat (s - initial_step)))%nat
          by lia.
        rewrite count_from_app, firstn_app, count_from_length, Nat.sub_diag.
        cbn [firstn]. rewrite app_nil_r, firstn_all2 by (rewrite count_from_length; lia).
        rewrite filter_app.
        rewrite (filter_all _ (count_from initial_step _)).
        2:{ apply Forall_forall. intros i Hi. apply count_from_In in Hi. lia. }
        rewrite filter_none; [now rewrite app_nil_r|].
        apply Forall_forall. intros i Hi. apply count_from_In in Hi. lia.
  - intros Hle. now rewrite Z.min_l by lia.
Qed.

(** ** Cutting a run with [stop_after_steps] *)

Section CutRun.

Variable C : Collaborators.

(** The body of the loop ends in one way only. *)
Lemma body_view_fun (trainer : Trainer) (i : Z) (L : Locals C) (e : Env C) o1 o2 :
  body_view C trainer i L e o1 -> body_view C trainer i L e o2 -> o1 = o2.
Proof.
  intros H1 H2.
  destruct H1 as [Hz|Hs Hm Hds|b Hs Hm Hds Hc|b Hs Hm Hds Hc];
    destruct H2 as [Hz2|Hs2 Hm2 Hds2|b2 Hs2 Hm2 Hds2 Hc2|b2 Hs2 Hm2 Hds2 Hc2];
    try reflexivity; try tauto; try congruence;
    assert (b2 = b) by congruence; subst b2; congruence.
Qed.

Lemma loop_view_fun (trainer : Trainer) (hooks : list Hook) l L e o1 evs1 :
  loop_view C trainer hooks l L e o1 evs1 ->
  forall o2 evs2,
    loop_view C trainer hooks l L e o2 evs2 -> o1 = o2 /\ evs1 = evs2.
Proof.
  induction 1 as [L e|i rest L e x L' ck evs Hb|i rest L e b out evs Hs Hm Hds Hc Hl IH];
    intros o2 evs2 H2.
  - inversion H2; subst. now split.
  - inversion H2 as [|? ? ? ? x2 L2 ck2 evs2' Hb2|? ? ? ? b2 out2 evs2' Hs2 Hm2 Hds2 Hc2 Hl2];
      subst.
    + pose proof (body_view_fun _ _ _ _ _ _ Hb Hb2) as Heq.
      split; [exact Heq|].
      apply (f_equal (fun o => snd (out_machine o))) in Heq.
      cbn [out_machine snd] in Heq. now apply env_extend_inj in Heq.
    + pose proof (body_view_fun _ _ _ _ _ _ Hb
                    (BodyDone C trainer i L e b2 Hs2 Hm2 Hds2 Hc2)).
      discriminate.
  - inversion H2 as [|? ? ? ? x2 L2 ck2 evs2' Hb2|? ? ? ? b2 out2 evs2' Hs2 Hm2 Hds2 Hc2 Hl2];
      subst.
    + pose proof (body_view_fun _ _ _ _ _ _ Hb2
                    (BodyDone C trainer i L e b Hs Hm Hds Hc)).
      discriminate.
    + assert (b2 = b) by congruence. subst b2.
      destruct (IH _ _ Hl2) as [-> ->]. now split.
Qed.

(** The loop does not read [stop_after_steps]. *)
Lemma body_view_stop (trainer : Trainer) (stop : option Z) i L e out :
  body_view C trainer i L e out ->
  body_view C (with_stop_after_steps trainer stop) i L e out.
Proof.
  intros H.
  destruct H as [Hz|Hs Hm Hds|b Hs Hm Hds Hc|b Hs Hm Hds Hc].
  - exact (BodyZeroDivision C (with_stop_after_steps trainer stop) i L e Hz).
  - exact (BodyStopIteration C (with_stop_after_steps trainer stop) i L e Hs Hm Hds).
  - exact (BodyCheckify C (with_stop_after_steps trainer stop) i L e b Hs Hm Hds Hc).
  - exact (BodyDone C (with_stop_after_steps trainer stop) i L e b Hs Hm Hds Hc).
Qed.

Lemma loop_view_stop (trainer : Trainer) (stop : option Z) hooks l L e out evs :
  loop_view C trainer hooks l L e out evs ->
  loop_view C (with_stop_after_steps trainer stop) hooks l L e out evs.
Proof.
  induction 1 as [L e|i rest L e x L' ck evs Hb|i rest L e b out evs Hs Hm Hds Hc Hl IH].
  - apply LoopEnd.
  - apply LoopAbort. now apply body_view_stop.
  - exact (LoopStep C (with_stop_after_steps trainer stop) hooks i rest L e b out evs
             Hs Hm Hds Hc IH).
Qed.

(** The calls of the loop in the trace of a run. *)
Lemma loop_calls_run_trace (trainer : Trainer) (e : Env C) evs done :
  Forall (fun ev : Event C => stamp ev <> None) evs ->
  loop_calls (run_trace C trainer e evs done) = map (pair (loop_guard C e)) evs.
Proof.
  intros Hst. unfold loop_calls, run_trace. rewrite !filter_app.
  rewrite (filter_none _ (map (pair (e_guard e)) (init_events C e))).
  2:{ apply Forall_forall. intros [g ev] Hin. apply in_map_iff in Hin.
      destruct Hin as [ev' [[= <- <-] Hin]].
      pose proof (init_events_unstamped C e) as Hi. rewrite Forall_forall in Hi.
      destruct (Hi _ Hin) as [Hs _]. cbn [snd]. now rewrite Hs. }
  rewrite (filter_none _ (if done then _ else _)).
  2:{ destruct done; [|constructor]. unfold finish_events.
      destruct (workdir_exists C trainer e); repeat constructor. }
  rewrite app_nil_r. cbn [app]. apply filter_all.
  apply Forall_forall. intros [g ev] Hin. apply in_map_iff in Hin.
  destruct Hin as [ev' [[= <- <-] Hin]].
  rewrite Forall_forall in Hst. specialize (Hst _ Hin). cbn [snd].
  now destruct (stamp ev').
Qed.

(** The steps of the calls of a loop over increasing steps are steps of the
    loop. *)
Lemma loop_call_steps (trainer : Trainer) (hooks : list Hook) l L e out evs :
  loop_view C trainer hooks l L e out evs ->
  StronglySorted Z.lt l ->
  Forall (fun ev => exists i p, stamp ev = Some (i, p) /\ In i l) evs.
Proof.
  intros Hv Hsorted.
  pose proof (loop_events_stamped C _ _ _ _ _ _ _ Hv) as Hst.
  destruct (loop_sorted C _ _ _ _ _ _ _ Hv Hsorted) as [_ Hin].
  rewrite Forall_forall in Hst, Hin. apply Forall_forall. intros ev Hev.
  specialize (Hst _ Hev).
  destruct (stamp ev) as [[i p]|] eqn:Hs; [|now elim Hst].
  exists i, p. split; [reflexivity|].
  exact (Hin (i, p) (In_estamps C _ _ _ Hev Hs)).
Qed.

(** X11. Cutting a run that completes with a smaller [stop_after_steps]
    gives a run that completes too and makes, in the same order and under the
    same policy, exactly the calls that the longer run makes at the steps
    below the cut: the same saves, evaluations, fetches, executions, writes
    and hooks. *)
Theorem cut_run_is_a_prefix (trainer : Trainer) (e : Env C) (s : Z) r m :
  train_impl C trainer e = Ok r m ->
  match stop_after_steps trainer with Some s0 => s <= s0 | None => True end ->
  exists r' m',
    train_impl C (with_stop_after_steps trainer (Some s)) e = Ok r' m' /\
    loop_calls (new_events e m') =
      filter (before_step s) (loop_calls (new_events e m)).
Proof.
  intros Hrun Hcut.
  destruct (train_impl_completed C trainer e _ _ Hrun)
    as [n [Lf [ef [evs [Hn [Hv Hfin]]]]]].
  pose proof (f_equal (fun o => new_events e (out_machine o)) Hfin) as Hd.
  cbn beta in Hd. rewrite finish_new_events in Hd. cbn [out_machine completed] in Hd.
  set (init := initial_step_of C e) in *.
  set (total := total_steps_of n (stop_after_steps trainer)) in *.
  set (total' := total_steps_of n (Some s)).
  assert (Htot : total' <= total /\ total' <= s /\ (total' < total -> total' = s)).
  { subst total total'. unfold total_steps_of.
    destruct (stop_after_steps trainer); lia. }
  set (N' := Z.to_nat (total' - init)).
  set (N := Z.to_nat (total - init)).
  assert (Hsplit : loop_steps C n trainer e =
                   count_from init N' ++ count_from (init + Z.of_nat N') (N - N')).
  { unfold loop_steps. fold init total N.
    replace N with (N' + (N - N'))%nat at 1 by lia. apply count_from_app. }
  rewrite Hsplit in Hv.
  destruct (loop_app_inv C _ _ _ _ _ _ _ _ Hv eq_refl)
    as [L' [e' [evs1 [evs2 [Hv1 [Hv2 Hevs]]]]]].
  assert (Hn' : num_train_steps (with_stop_after_steps trainer (Some s)) = Some n)
    by exact Hn.
  destruct (train_impl_some C _ e n Hn') as [out' [evs' [Hv' Hfin']]].
  change (loop_steps C n (with_stop_after_steps trainer (Some s)) e)
    with (count_from init N') in Hv'.
  change (init_locals C (with_stop_after_steps trainer (Some s)) e)
    with (init_locals C trainer e) in Hv'.
  destruct (loop_view_fun _ _ _ _ _ _ _ (loop_view_stop _ (Some s) _ _ _ _ _ _ Hv1)
              _ _ Hv') as [<- <-].
  cbn [finish] in Hfin'.
  eexists. eexists. split; [exact Hfin'|].
  rewrite (new_events_app C e _
             (run_trace C (with_stop_after_steps trainer (Some s)) e evs1 true))
    by reflexivity.
  rewrite Hd, Hevs.
  pose proof (loop_call_steps _ _ _ _ _ _ _ Hv1 (count_from_sorted _ _)) as Hs1.
  pose proof (loop_call_steps _ _ _ _ _ _ _ Hv2 (count_from_sorted _ _)) as Hs2.
  rewrite !loop_calls_run_trace.
  2:{ apply Forall_app. split.
      - eapply Forall_impl; [|exact Hs1]. intros ev [i [p [-> _]]]. discriminate.
      - eapply Forall_impl; [|exact Hs2]. intros ev [i [p [-> _]]]. discriminate. }
  2:{ eapply Forall_impl; [|exact Hs1]. intros ev [i [p [-> _]]]. discriminate. }
  rewrite map_app, filter_app.
  rewrite filter_all, filter_none; [now rewrite app_nil_r| |].
  - apply Forall_forall. intros [g ev] Hin. apply in_map_iff in Hin.
    destruct Hin as [ev' [[= <- <-] Hin]].
    rewrite Forall_forall in Hs2. destruct (Hs2 _ Hin) as [i [p [Hst Hi]]].
    unfold before_step. cbn [snd]. rewrite Hst.
    apply count_from_In in Hi. apply Z.ltb_ge. lia.
  - apply Forall_forall. intros [g ev] Hin. apply in_map_iff in Hin.
    destruct Hin as [ev' [[= <- <-] Hin]].
    rewrite Forall_forall in Hs1. destruct (Hs1 _ Hin) as [i [p [Hst Hi]]].
    unfold before_step. cbn [snd]. rewrite Hst.
    apply count_from_In in Hi. apply Z.ltb_lt. lia.
Qed.

End CutRun.

(** ** Runs that return, and the sentinel *)

Section Outcomes.

Variable C : Collaborators.

(** X1. When [train_impl] returns, it has fetched one batch for each step of
    the range, in the order of the steps, and executed a step on each; the
    dataset iterator has advanced and the timer has finished a step once per
    step of the range, counted from the restored values; the batches are the
    consecutive elements of the dataset from the restored cursor on. *)
Theorem iterator_and_timer_accounting (trainer : Trainer) (e : Env C) r m :
  train_impl C trainer e = Ok r m ->
  exists n,
    num_train_steps trainer = Some n /\
    let l := loop_steps C n trainer e in
    let d := new_events e m in
    let L0 := init_locals C trainer e in
    map fst (fetched d) = l /\
    map fst (step_requests d) = l /\
    l_ds_iter (fst m) = (l_ds_iter L0 + List.length l)%nat /\
    steps_finished (l_timer (fst m)) =
      (steps_finished (l_timer L0) + List.length l)%nat /\
    map (fun sb => Some (snd sb)) (fetched d) =
      map (train_ds C) (seq (l_ds_iter L0) (List.length l)).
Proof.
  intros Hrun.
  destruct (train_impl_completed C trainer e _ _ Hrun)
    as [n [L [e' [evs [Hn [Hv Hfin]]]]]].
  exists n. split; [exact Hn|]. cbv zeta.
  pose proof (f_equal (fun o => new_events e (out_machine o)) Hfin) as Hd.
  cbn beta in Hd. rewrite finish_new_events in Hd. cbn [out_machine completed] in Hd.
  pose proof (f_equal (fun o => fst (out_machine o)) Hfin) as HL.
  cbn beta in HL. rewrite finish_locals in HL. cbn [out_machine fst] in HL.
  rewrite Hd, HL, fetched_run_trace, step_requests_run_trace.
  destruct (loop_accounting C _ _ _ _ _ _ _ Hv eq_refl)
    as (Hcur & Htim & _ & Hf & Hds).
  destruct (loop_logging C _ _ _ _ _ _ _ Hv eq_refl) as [_ Hreq].
  cbn [out_machine fst] in Hcur, Htim.
  split; [exact Hf|]. split.
  - rewrite Hreq, map_map. cbn [fst]. apply map_id.
  - split; [exact Hcur|]. split; [exact Htim | exact Hds].
Qed.

(** X4. A run of [train_impl] that returns had a step budget, non-zero
    cadences unless its step range was empty, a batch in the dataset for each
    step of the range, counted from the restored cursor, and, when error
    tracking is on, no step execution that reported an error. *)
Theorem train_impl_returns_only_if (trainer : Trainer) (e : Env C) r m :
  train_impl C trainer e = Ok r m ->
  exists n,
    num_train_steps trainer = Some n /\
    (initial_step_of C e < total_steps_of n (stop_after_steps trainer) ->
     log_summaries_every trainer <> 0 /\ log_metrics_every trainer <> 0) /\
    (forall j,
        (j < Z.to_nat (total_steps_of n (stop_after_steps trainer) -
                       initial_step_of C e))%nat ->
        train_ds C (l_ds_iter (init_locals C trainer e) + j) <> None) /\
    (truthy (checkify_error_categories trainer) = true ->
     forall g k rl rm rs res,
       In (g, EvStep k rl rm rs res) (new_events e m) ->
       aux_error C (snd res) = false).
Proof.
  intros Hrun.
  destruct (train_impl_completed C trainer e _ _ Hrun)
    as [n [L [e' [evs [Hn [Hv Hfin]]]]]].
  exists n. split; [exact Hn|].
  pose proof (f_equal (fun o => new_events e (out_machine o)) Hfin) as Hd.
  cbn beta in Hd. rewrite finish_new_events in Hd. cbn [out_machine completed] in Hd.
  split; [|split].
  - intros Hlt. destruct (loop_steps_nonempty C trainer e n Hlt) as [rest Hl].
    rewrite Hl in Hv. eapply loop_completed_cadences. exact Hv.
  - intros j Hj.
    destruct (loop_accounting C _ _ _ _ _ _ _ Hv eq_refl) as (_ & _ & _ & _ & Hds).
    unfold loop_steps in Hds. rewrite count_from_length in Hds.
    assert (Hin : In (train_ds C (l_ds_iter (init_locals C trainer e) + j))
                    (map (train_ds C)
                       (seq (l_ds_iter (init_locals C trainer e))
                          (Z.to_nat (total_steps_of n (stop_after_steps trainer) -
                                     initial_step_of C e))))).
    { apply in_map, in_seq. lia. }
    rewrite <- Hds in Hin. apply in_map_iff in Hin as [sb [Hsb _]].
    rewrite <- Hsb. discriminate.
  - intros Hcat g k rl rm rs res Hin.
    destruct (aux_error C (snd res)) eqn:Herr; [exfalso | reflexivity].
    rewrite Hd in Hin. apply run_trace_stamped in Hin; [|discriminate].
    destruct (loop_reported_error C _ _ _ _ _ _ _ Hv Hcat _ _ _ _ _ Hin Herr)
      as (Lk & bk & pre & ek & Hout & _). discriminate.
Qed.

(** X6. Whatever the outcome of [train_impl], a touch of the sentinel or a
    barrier is in its trace only when the run had a step budget and the timer
    has finished every step of the range before it, and no call of the loop
    follows it. *)
Theorem sentinel_after_last_step (trainer : Trainer) (e : Env C) g ev :
  In (g, ev) (new_events e (out_machine (train_impl C trainer e))) ->
  is_touch ev = true \/ is_sync ev = true ->
  exists n pre post,
    num_train_steps trainer = Some n /\
    new_events e (out_machine (train_impl C trainer e)) = pre ++ (g, ev) :: post /\
    (forall i, In i (loop_steps C n trainer e) ->
               In (i, PStep) (stamps pre) /\ In (i, PTimer) (stamps pre)) /\
    stamps post = [].
Proof.
  intros Hin Hev.
  destruct (train_impl_events C trainer e) as [evs [Hd Hcase]].
  rewrite Hd in *.
  assert (Hquiet : forall out hooks l L e0,
             loop_view C trainer hooks l L e0 out evs \/ evs = [] ->
             In (g, ev) (map (pair (e_guard e)) (init_events C e) ++
                         map (pair (loop_guard C e)) evs) -> False).
  { intros out hooks l L e0 Hv Hq.
    assert (Hf : Forall (fun pe : Policy * Event C =>
                           is_touch (snd pe) = false /\ is_sync (snd pe) = false)
                   (map (pair (e_guard e)) (init_events C e) ++
                    map (pair (loop_guard C e)) evs)).
    { destruct Hv as [Hv| ->].
      - exact (before_finish_quiet C _ _ _ _ _ _ _ _ _ e Hv).
      - exact (before_finish_quiet C trainer [] [] L e0 _ _ _ _ e (LoopEnd C trainer [] L e0)). }
    rewrite Forall_forall in Hf. destruct (Hf _ Hq) as [Ht Hs]. cbn in Ht, Hs.
    destruct Hev; congruence. }
  destruct (num_train_steps trainer) as [n|] eqn:Hn.
  2:{ exfalso. destruct Hcase as [-> Hc]. rewrite Hc in Hin.
      unfold run_trace in Hin. rewrite app_nil_r in Hin.
      apply (Hquiet (Ok tt (init_locals C trainer e, e)) [] []
               (init_locals C trainer e) e (or_intror eq_refl)).
      apply in_or_app. now left. }
  destruct Hcase as [out [Hv Hrun]].
  assert (Hc : completed (train_impl C trainer e) = completed out)
    by (rewrite Hrun; now destruct out as [[] [L' e']|x [L' e']]).
  rewrite Hc in *.
  destruct (completed out) eqn:Hdone.
  2:{ exfalso. unfold run_trace in Hin. rewrite app_nil_r in Hin.
      exact (Hquiet _ _ _ _ _ (or_introl Hv) Hin). }
  exists n.
  assert (Hsteps : forall tail i, In i (loop_steps C n trainer e) ->
             In (i, PStep)
               (stamps ((map (pair (e_guard e)) (init_events C e) ++
                         map (pair (loop_guard C e)) evs) ++ tail)) /\
             In (i, PTimer)
               (stamps ((map (pair (e_guard e)) (init_events C e) ++
                         map (pair (loop_guard C e)) evs) ++ tail))).
  { intros tail i Hi.
    destruct (loop_completed_steps C _ _ _ _ _ _ _ Hv Hdone i Hi)
      as [(_ & _ & Hs & Ht) _].
    rewrite !stamps_app, stamps_init, stamps_pair. cbn [app].
    split; apply in_or_app; left; assumption. }
  unfold run_trace in Hin |- *.
  rewrite app_assoc in Hin. apply in_app_or in Hin as [Hin|Hin].
  { exfalso. exact (Hquiet _ _ _ _ _ (or_introl Hv) Hin). }
  apply in_app_or in Hin as [Hin|[Hin|[]]].
  - unfold finish_events in Hin |- *.
    destruct (workdir_exists C trainer e); [|contradiction].
    destruct Hin as [Hin|[]]. cbn [map app].
    exists (map (pair (e_guard e)) (init_events C e) ++
            map (pair (loop_guard C e)) evs), [(Allow, EvSync)].
    split; [reflexivity|]. split; [now rewrite Hin, <- app_assoc|].
    split; [|reflexivity].
    intros i Hi. specialize (Hsteps [] i Hi). now rewrite app_nil_r in Hsteps.
  - exists ((map (pair (e_guard e)) (init_events C e) ++
             map (pair (loop_guard C e)) evs) ++
            map (pair (e_guard e)) (finish_events C trainer e)), [].
    split; [reflexivity|]. split; [now rewrite Hin, <- !app_assoc|].
    split; [|reflexivity].
    intros i Hi. exact (Hsteps _ i Hi).
Qed.

(** X9. The result of a run that returns does not depend on the lead-host
    status of the process, on the files present nor on what the
    checkpointer decides to save: two processes with the same jit setting and
    ambient policy that find the same latest checkpoint (or none) and both
    return, return the same state and auxiliaries, having fetched the same
    batches at the same steps and asked [trainstep.step] for the same
    outputs. *)
Theorem result_independent_of_host (trainer : Trainer) (e1 e2 : Env C)
    r1 r2 m1 m2 :
  ckpt_latest (e_ckpt e1) = ckpt_latest (e_ckpt e2) ->
  e_disable_jit e1 = e_disable_jit e2 ->
  e_guard e1 = e_guard e2 ->
  train_impl C trainer e1 = Ok r1 m1 ->
  train_impl C trainer e2 = Ok r2 m2 ->
  r2 = r1 /\
  fst m2 = fst m1 /\
  fetched (new_events e2 m2) = fetched (new_events e1 m1) /\
  step_requests (new_events e2 m2) = step_requests (new_events e1 m1).
Proof.
  intros Hsame _ _ Hrun1 Hrun2.
  destruct (train_impl_completed C trainer e1 _ _ Hrun1)
    as [n [L1 [e1' [evs1 [Hn [Hv1 Hfin1]]]]]].
  destruct (train_impl_completed C trainer e2 _ _ Hrun2)
    as [n2 [L2 [e2' [evs2 [Hn2 [Hv2 Hfin2]]]]]].
  assert (n2 = n) as -> by congruence.
  assert (Hinit : initial_step_of C e2 = initial_step_of C e1)
    by (unfold initial_step_of, ckpt_latest_step; now rewrite Hsame).
  assert (HL : init_locals C trainer e2 = init_locals C trainer e1).
  { unfold init_locals, ckpt_restore, ckpt_latest_step.
    now rewrite Hinit, Hsame. }
  unfold loop_steps in Hv2. rewrite Hinit, HL in Hv2. fold (loop_steps C n trainer e1) in Hv2.
  destruct (loop_sim C _ _ _ _ _ _ _ _ Hv1 eq_refl _ _ _ _ eq_refl Hv2)
    as [_ [Hf Hloc]].
  cbn [out_machine fst] in Hloc. specialize (Hloc (or_introl eq_refl)). subst L2.
  destruct (loop_logging C _ _ _ _ _ _ _ Hv1 eq_refl) as [_ Hr1].
  destruct (loop_logging C _ _ _ _ _ _ _ Hv2 eq_refl) as [_ Hr2].
  pose proof (f_equal (fun o => new_events e1 (out_machine o)) Hfin1) as Hd1.
  pose proof (f_equal (fun o => new_events e2 (out_machine o)) Hfin2) as Hd2.
  cbn beta in Hd1, Hd2. rewrite finish_new_events in Hd1, Hd2.
  cbn [out_machine completed] in Hd1, Hd2.
  cbn [finish] in Hfin1, Hfin2. injection Hfin1 as -> ->. injection Hfin2 as -> ->.
  split; [reflexivity|]. split; [reflexivity|].
  rewrite Hd1, Hd2, !fetched_run_trace, !step_requests_run_trace.
  split; [exact Hf|]. now rewrite Hr1, Hr2.
Qed.

End Outcomes.

(** ** Runs of the small trainer *)

(** A fresh run of five steps saves at step 3, with three batches consumed. *)
Lemma saved_checkpoint_contents_witness :
  let trainer := toy_trainer (Some 4) None 1 1 [] in
  let m := out_machine (train_impl toy trainer toy_env) in
  let cs := @mkCheckpointState (TrainState toy) 3 (mkTimer 0 8 3) 3%nat in
  In (Disallow, EvSave 3 cs) (new_events toy_env m) /\
  cs_ds_iter cs =
    (l_ds_iter (init_locals toy trainer toy_env) +
     Z.to_nat (3 - initial_step_of toy toy_env))%nat.
Proof.
  cbv zeta.
  assert (Hsave : In (Disallow,
                      EvSave 3 (@mkCheckpointState (TrainState toy) 3 (mkTimer 0 8 3) 3%nat))
                    (new_events toy_env
                       (out_machine
                          (train_impl toy (toy_trainer (Some 4) None 1 1 []) toy_env)))).
  { apply nth_error_In with (n := 29%nat). vm_compute. reflexivity. }
  split; [exact Hsave|].
  exact (proj1 (proj2 (saved_checkpoint_contents toy _ _ _ _ _ Hsave))).
Defined.

(** A summary cadence of 0 on a fresh run. *)
Lemma zero_cadence_raises_witness :
  let trainer := toy_trainer (Some 4) None 0 1 [] in
  num_train_steps trainer = Some 4 /\
  exists m, train_impl toy trainer toy_env = Raised ZeroDivisionError m.
Proof.
  cbv zeta. split; [reflexivity|].
  apply (proj1 (zero_cadence_raises toy (toy_trainer (Some 4) None 0 1 []) toy_env 4
                  eq_refl)).
  split; [vm_compute; reflexivity|left; reflexivity].
Defined.

(** Ten steps asked of a dataset of three batches. *)
Lemma short_dataset_raises_witness :
  let trainer := toy_trainer (Some 9) None 1 1 [] in
  exists m,
    train_impl toy_short trainer toy_short_env = Raised StopIteration m /\
    l_ds_iter (fst m) = 3%nat /\
    map fst (fetched (new_events toy_short_env m)) = [0; 1; 2].
Proof.
  cbv zeta.
  destruct (short_dataset_raises toy_short (toy_trainer (Some 9) None 1 1 [])
              toy_short_env 9 3) as [m [Hrun [Hcur [Hf _]]]].
  - reflexivity.
  - cbn. lia.
  - cbn. lia.
  - left. reflexivity.
  - cbn. lia.
  - intros j Hj. cbn [train_ds toy_short init_locals].
    destruct j as [|[|[|j]]]; try discriminate. lia.
  - reflexivity.
  - exists m. split; [exact Hrun|]. split; [exact Hcur|exact Hf].
Defined.

(** A restart from the checkpoint of step 5 with a budget of 4 steps. *)
Lemma empty_range_returns_witness :
  let trainer := toy_trainer (Some 4) None 0 0 [] in
  num_train_steps trainer = Some 4 /\
  total_steps_of 4 None <= initial_step_of toy (toy_env_at 5) /\
  exists m, train_impl toy trainer (toy_env_at 5) = Ok (5, None) m.
Proof.
  cbv zeta.
  assert (Hle : total_steps_of 4 None <= initial_step_of toy (toy_env_at 5))
    by (vm_compute; discriminate).
  split; [reflexivity|]. split; [exact Hle|].
  destruct (empty_range_returns toy (toy_trainer (Some 4) None 0 0 []) (toy_env_at 5) 4
              eq_refl Hle) as [m [Hrun _]].
  exists m. exact Hrun.
Defined.

(** A worker with the cadences of the lead host. *)
Lemma worker_never_logs_witness :
  e_is_lead_host toy_env_worker = false /\
  metric_writes
    (new_events toy_env_worker
       (out_machine (train_impl toy (toy_trainer (Some 4) None 1 1 []) toy_env_worker))) =
  [].
Proof.
  split; [reflexivity|].
  exact (proj2 (worker_never_logs toy (toy_trainer (Some 4) None 1 1 []) toy_env_worker
                  eq_refl)).
Defined.

(** A fresh run of five steps that returns. *)
Lemma iterator_and_timer_accounting_witness :
  let trainer := toy_trainer (Some 4) None 1 1 [] in
  let m := out_machine (train_impl toy trainer toy_env) in
  train_impl toy trainer toy_env = Ok (5, Some false) m /\
  map fst (fetched (new_events toy_env m)) = [0; 1; 2; 3; 4] /\
  l_ds_iter (fst m) = 5%nat /\
  steps_finished (l_timer (fst m)) = 5%nat.
Proof.
  cbv zeta.
  assert (Hrun : train_impl toy (toy_trainer (Some 4) None 1 1 []) toy_env =
                 Ok (5, Some false)
                   (out_machine (train_impl toy (toy_trainer (Some 4) None 1 1 []) toy_env)))
    by (vm_compute; reflexivity).
  split; [exact Hrun|].
  destruct (iterator_and_timer_accounting toy _ _ _ _ Hrun)
    as [n [Hn (Hf & _ & Hcur & Htim & _)]].
  injection Hn as <-.
  assert (Hl : loop_steps toy 4 (toy_trainer (Some 4) None 1 1 []) toy_env =
               [0; 1; 2; 3; 4]) by (vm_compute; reflexivity).
  rewrite Hl in Hf, Hcur, Htim.
  split; [exact Hf|]. split; [exact Hcur | exact Htim].
Defined.

(** The same run: what its return shows. *)
Lemma train_impl_returns_only_if_witness :
  let trainer := toy_trainer (Some 4) None 1 1 ["nan"%string] in
  let m := out_machine (train_impl toy trainer toy_env) in
  train_impl toy trainer toy_env = Ok (5, Some false) m /\
  forall g k rl rm rs res,
    In (g, @EvStep toy k rl rm rs res) (new_events toy_env m) ->
    aux_error toy (snd res) = false.
Proof.
  cbv zeta.
  assert (Hrun : train_impl toy (toy_trainer (Some 4) None 1 1 ["nan"%string]) toy_env =
                 Ok (5, Some false)
                   (out_machine
                      (train_impl toy (toy_trainer (Some 4) None 1 1 ["nan"%string])
                         toy_env)))
    by (vm_compute; reflexivity).
  split; [exact Hrun|].
  destruct (train_impl_returns_only_if toy _ _ _ _ Hrun) as [n [_ (_ & _ & Hc)]].
  apply Hc. reflexivity.
Defined.

(** The barrier of a run that returns. *)
Lemma sentinel_after_last_step_witness :
  let trainer := toy_trainer (Some 4) None 1 1 [] in
  let d := new_events toy_env (out_machine (train_impl toy trainer toy_env)) in
  In (Allow, @EvSync toy) d /\
  exists pre post,
    d = pre ++ (Allow, EvSync) :: post /\
    (forall i, In i [0; 1; 2; 3; 4] ->
               In (i, PStep) (stamps pre) /\ In (i, PTimer) (stamps pre)) /\
    stamps post = [].
Proof.
  cbv zeta.
  assert (Hin : In (Allow, @EvSync toy)
                  (new_events toy_env
                     (out_machine
                        (train_impl toy (toy_trainer (Some 4) None 1 1 []) toy_env)))).
  { apply (nth_error_In _ 45). vm_compute. reflexivity. }
  split; [exact Hin|].
  destruct (sentinel_after_last_step toy (toy_trainer (Some 4) None 1 1 []) toy_env
              Allow EvSync Hin (or_intror eq_refl))
    as (n & pre & post & Hn & Hd & Hsteps & Hpost).
  injection Hn as <-.
  exists pre, post. split; [exact Hd|]. split; [|exact Hpost].
  assert (Hl : loop_steps toy 4 (toy_trainer (Some 4) None 1 1 []) toy_env =
               [0; 1; 2; 3; 4]) by (vm_compute; reflexivity).
  rewrite Hl in Hsteps. exact Hsteps.
Defined.

(** The lead host and a worker on the same run. *)
Lemma result_independent_of_host_witness :
  let trainer := toy_trainer (Some 4) None 1 1 [] in
  let m1 := out_machine (train_impl toy trainer toy_env) in
  let m2 := out_machine (train_impl toy trainer toy_env_worker) in
  train_impl toy trainer toy_env = Ok (5, Some false) m1 /\
  train_impl toy trainer toy_env_worker = Ok (5, Some false) m2 /\
  fst m2 = fst m1 /\
  fetched (new_events toy_env_worker m2) = fetched (new_events toy_env m1).
Proof.
  cbv zeta.
  assert (Hrun1 : train_impl toy (toy_trainer (Some 4) None 1 1 []) toy_env =
                  Ok (5, Some false)
                    (out_machine (train_impl toy (toy_trainer (Some 4) None 1 1 []) toy_env)))
    by (vm_compute; reflexivity).
  assert (Hrun2 : train_impl toy (toy_trainer (Some 4) None 1 1 []) toy_env_worker =
                  Ok (5, Some false)
                    (out_machine
                       (train_impl toy (toy_trainer (Some 4) None 1 1 []) toy_env_worker)))
    by (vm_compute; reflexivity).
  split; [exact Hrun1|]. split; [exact Hrun2|].
  destruct (result_independent_of_host toy (toy_trainer (Some 4) None 1 1 [])
              toy_env toy_env_worker _ _ _ _ eq_refl eq_refl eq_refl Hrun1 Hrun2)
    as (_ & Hl & Hf & _).
  split; [exact Hl | exact Hf].
Defined.

(** A budget of 10 steps, resumed at step 3 and cut at 7 or at 20. *)
Lemma stop_after_steps_cuts_witness :
  exists full cut,
    _enum_steps_with_hooks 3 (Some 10) None true = inr full /\
    _enum_steps_with_hooks 3 (Some 10) (Some 7) true = inr cut /\
    g_steps cut = firstn 4 (g_steps full) /\
    _enum_steps_with_hooks 3 (Some 10) (Some 20) true = inr full.
Proof.
  destruct (stop_after_steps_cuts 3 10 7 true) as [full [cut [Hf [Hc [Hfirst _]]]]].
  destruct (stop_after_steps_cuts 3 10 20 true) as [full' [cut' [Hf' [Hc' [_ [_ [_ Hsame]]]]]]].
  exists full, cut. split; [exact Hf|]. split; [exact Hc|]. split; [exact Hfirst|].
  rewrite Hc', (Hsame ltac:(lia)), <- Hf'. exact Hf.
Defined.

(** A run of five steps cut after two. *)
Lemma cut_run_is_a_prefix_witness :
  let trainer := toy_trainer (Some 4) None 1 1 [] in
  let m := out_machine (train_impl toy trainer toy_env) in
  train_impl toy trainer toy_env = Ok (5, Some false) m /\
  exists r' m',
    train_impl toy (with_stop_after_steps trainer (Some 2)) toy_env = Ok r' m' /\
    loop_calls (new_events toy_env m') =
      filter (before_step 2) (loop_calls (new_events toy_env m)).
Proof.
  cbv zeta.
  assert (Hrun : train_impl toy (toy_trainer (Some 4) None 1 1 []) toy_env =
                 Ok (5, Some false)
                   (out_machine (train_impl toy (toy_trainer (Some 4) None 1 1 []) toy_env)))
    by (vm_compute; reflexivity).
  split; [exact Hrun|].
  exact (cut_run_is_a_prefix toy (toy_trainer (Some 4) None 1 1 []) toy_env 2 _ _ Hrun I).
Defined.

(** * Feature dictionaries *)

Section DictFacts.

Context {V : Type}.

Lemma str_in_In (k : string) (keys : list string) :
  str_in k keys = true <-> In k keys.
Proof.
  unfold str_in. rewrite existsb_exists. split.
  - intros [x [Hx He]]. apply String.eqb_eq in He. now subst.
  - intros H. exists k. split; [exact H | apply String.eqb_refl].
Qed.

Lemma str_in_not_In (k : string) (keys : list string) :
  str_in k keys = false <-> ~ In k keys.
Proof.
  rewrite <- str_in_In. destruct (str_in k keys); split; congruence.
Qed.

Lemma dict_get_None (d : dict V) (k : string) :
  dict_get d k = None <-> ~ In k (dict_keys d).
Proof.
  induction d as [|[k' v] d IH]; cbn.
  - tauto.
  - destruct (String.eqb_spec k' k) as [->|Hne].
    + split; [discriminate | intros H; exfalso; apply H; now left].
    + rewrite IH. tauto.
Qed.

Lemma dict_get_In (d : dict V) (k : string) (v : V) :
  dict_get d k = Some v -> In (k, v) d.
Proof.
  induction d as [|[k' v'] d IH]; cbn; [discriminate|].
  destruct (String.eqb_spec k' k) as [->|Hne].
  - intros [= ->]. now left.
  - intros H. right. now apply IH.
Qed.

Lemma In_dict_get (d : dict V) (k : string) (v : V) :
  NoDup (dict_keys d) -> In (k, v) d -> dict_get d k = Some v.
Proof.
  induction d as [|[k' v'] d IH]; cbn; [tauto|].
  intros Hnd [[= -> ->]|Hin].
  - now rewrite String.eqb_refl.
  - inversion Hnd as [|? ? Hk Hnd']; subst.
    destruct (String.eqb_spec k' k) as [->|Hne].
    + exfalso. apply Hk. change k with (fst (k, v)). now apply in_map.
    + now apply IH.
Qed.

Lemma dict_get_str_in (d : dict V) (k : string) :
  str_in k (dict_keys d) = is_some (dict_get d k).
Proof.
  destruct (dict_get d k) eqn:Hg; cbn.
  - apply str_in_In. apply dict_get_In in Hg.
    change k with (fst (k, v)). now apply in_map.
  - apply str_in_not_In. now apply dict_get_None.
Qed.

Lemma dict_get_app (d1 d2 : dict V) (k : string) :
  dict_get (d1 ++ d2) k =
  match dict_get d1 k with Some v => Some v | None => dict_get d2 k end.
Proof.
  induction d1 as [|[k' v'] d1 IH]; cbn; [reflexivity|].
  now destruct (String.eqb k' k).
Qed.

Lemma dict_get_set (d : dict V) (k k' : string) (v : V) :
  dict_get (dict_set d k v) k' =
  if String.eqb k k' then Some v else dict_get d k'.
Proof.
  induction d as [|[k0 v0] d IH]; cbn.
  - reflexivity.
  - destruct (String.eqb_spec k0 k) as [->|Hne]; cbn.
    + now destruct (String.eqb k k').
    + rewrite IH. destruct (String.eqb_spec k0 k') as [->|Hne'].
      * destruct (String.eqb_spec k k'); congruence.
      * reflexivity.
Qed.

Lemma dict_set_fresh (d : dict V) (k : string) (v : V) :
  ~ In k (dict_keys d) -> dict_set d k v = d ++ [(k, v)].
Proof.
  induction d as [|[k0 v0] d IH]; cbn; [reflexivity|].
  intros H. destruct (String.eqb_spec k0 k) as [->|Hne]; [tauto|].
  f_equal. apply IH. tauto.
Qed.

Lemma dict_set_same (d : dict V) (k : string) (v : V) :
  dict_get d k = Some v -> dict_set d k v = d.
Proof.
  induction d as [|[k0 v0] d IH]; cbn; [discriminate|].
  destruct (String.eqb_spec k0 k) as [->|Hne].
  - now intros [= ->].
  - intros H. f_equal. now apply IH.
Qed.

Lemma dict_keys_set (d : dict V) (k : string) (v : V) :
  dict_keys (dict_set d k v) =
  if str_in k (dict_keys d) then dict_keys d else dict_keys d ++ [k].
Proof.
  unfold dict_keys, str_in.
  induction d as [|[k0 v0] d IH]; cbn; [reflexivity|].
  rewrite (String.eqb_sym k k0).
  destruct (String.eqb_spec k0 k) as [->|Hne]; cbn; [reflexivity|].
  rewrite IH. now destruct (existsb (String.eqb k) (map fst d)).
Qed.

Lemma dict_set_NoDup (d : dict V) (k : string) (v : V) :
  NoDup (dict_keys d) -> NoDup (dict_keys (dict_set d k v)).
Proof.
  intros Hnd. rewrite dict_keys_set.
  destruct (str_in k (dict_keys d)) eqn:Hk; [exact Hnd|].
  apply str_in_not_In in Hk.
  apply NoDup_app; [exact Hnd | repeat constructor; tauto |].
  intros x Hx [<-|[]]. tauto.
Qed.

Lemma dict_update_cons (d : dict V) (k : string) (v : V) (items : list (string * V)) :
  dict_update d ((k, v) :: items) = dict_update (dict_set d k v) items.
Proof. reflexivity. Qed.

Lemma dict_update_NoDup (items : list (string * V)) :
  forall d, NoDup (dict_keys d) -> NoDup (dict_keys (dict_update d items)).
Proof.
  induction items as [|[k v] items IH]; intros d Hnd; [exact Hnd|].
  rewrite dict_update_cons. apply IH. now apply dict_set_NoDup.
Qed.

Lemma dict_of_NoDup (items : list (string * V)) : NoDup (dict_keys (dict_of items)).
Proof. apply dict_update_NoDup. constructor. Qed.

Lemma dict_get_update (items : list (string * V)) :
  forall (d : dict V) (k : string),
    dict_get (dict_update d items) k =
    match dict_get (rev items) k with
    | Some v => Some v
    | None => dict_get d k
    end.
Proof.
  induction items as [|[k0 v0] items IH]; intros d k; [reflexivity|].
  rewrite dict_update_cons, IH. cbn [rev]. rewrite dict_get_app, dict_get_set. cbn.
  destruct (dict_get (rev items) k); [reflexivity|].
  now destruct (String.eqb k0 k).
Qed.

Lemma dict_get_rev (d : dict V) (k : string) :
  NoDup (dict_keys d) -> dict_get (rev d) k = dict_get d k.
Proof.
  intros Hnd. destruct (dict_get d k) as [v|] eqn:Hg.
  - apply In_dict_get.
    + unfold dict_keys. rewrite map_rev. now apply NoDup_rev.
    + apply in_rev. rewrite rev_involutive. now apply dict_get_In.
  - apply dict_get_None. apply dict_get_None in Hg.
    unfold dict_keys in *. rewrite map_rev. now rewrite <- in_rev.
Qed.

Lemma dict_update_fresh (items : list (string * V)) :
  forall d, NoDup (dict_keys d ++ dict_keys items) ->
            dict_update d items = d ++ items.
Proof.
  induction items as [|[k v] items IH]; intros d Hnd.
  - cbn. now rewrite app_nil_r.
  - rewrite dict_update_cons. cbn in Hnd. assert (Hk : ~ In k (dict_keys d)).
    { apply NoDup_remove_2 in Hnd. intros H. apply Hnd. apply in_or_app. now left. }
    rewrite (dict_set_fresh _ _ _ Hk). rewrite IH.
    + now rewrite <- app_assoc.
    + unfold dict_keys in *. rewrite map_app. cbn. now rewrite <- app_assoc.
Qed.

Lemma dict_of_id (d : dict V) : NoDup (dict_keys d) -> dict_of d = d.
Proof. intros Hnd. unfold dict_of. now rewrite dict_update_fresh. Qed.

Lemma dict_update_same (items : list (string * V)) :
  forall d, (forall k v, In (k, v) items -> dict_get d k = Some v) ->
            dict_update d items = d.
Proof.
  induction items as [|[k v] items IH]; intros d H; [reflexivity|].
  rewrite dict_update_cons, dict_set_same by (apply H; now left).
  apply IH. intros k' v' Hin. apply H. now right.
Qed.

Lemma dict_keys_filter (p : string -> bool) (d : dict V) :
  dict_keys (filter (fun kv => p (fst kv)) d) = filter p (dict_keys d).
Proof.
  unfold dict_keys.
  induction d as [|[k v] d IH]; cbn; [reflexivity|].
  destruct (p k); cbn; now rewrite IH.
Qed.

Lemma NoDup_filter_keys (p : string -> bool) (d : dict V) :
  NoDup (dict_keys d) -> NoDup (dict_keys (filter (fun kv => p (fst kv)) d)).
Proof. intros H. rewrite dict_keys_filter. now apply NoDup_filter. Qed.

Lemma dict_get_filter (p : string -> bool) (d : dict V) (k : string) :
  dict_get (filter (fun kv => p (fst kv)) d) k =
  if p k then dict_get d k else None.
Proof.
  induction d as [|[k0 v0] d IH]; cbn.
  - now destruct (p k).
  - destruct (p k0) eqn:Hp; cbn.
    + destruct (String.eqb_spec k0 k) as [->|Hne]; [now rewrite Hp | exact IH].
    + destruct (String.eqb_spec k0 k) as [->|Hne]; [now rewrite IH, Hp | exact IH].
Qed.

Lemma truthy_filter {A : Type} (p : A -> bool) (l : list A) :
  truthy (filter p l) = existsb p l.
Proof.
  induction l as [|a l IH]; cbn; [reflexivity|].
  destruct (p a); cbn; [reflexivity | exact IH].
Qed.

End DictFacts.


(** * [Elements] *)

Section ElementsFacts.

Context {V : Type}.
Variable meta : list string.

Lemma str_set_In (k : string) (l : list string) : In k (str_set l) <-> In k l.
Proof.
  induction l as [|x l IH]; cbn; [tauto|].
  destruct (str_in x l) eqn:Hx.
  - apply str_in_In in Hx. rewrite IH. split; [tauto|]. intros [<-|H]; tauto.
  - cbn. rewrite IH. tauto.
Qed.

Lemma str_set_NoDup (l : list string) : NoDup (str_set l).
Proof.
  induction l as [|x l IH]; cbn; [constructor|].
  destruct (str_in x l) eqn:Hx; [exact IH|].
  constructor; [|exact IH]. rewrite str_set_In. now apply str_in_not_In.
Qed.

Lemma existsb_set (p : string -> bool) (l : list string) :
  existsb p (str_set l) = existsb p l.
Proof.
  destruct (existsb p l) eqn:He.
  - apply existsb_exists in He as [x [Hx Hp]]. apply existsb_exists.
    exists x. split; [now apply str_set_In | exact Hp].
  - destruct (existsb p (str_set l)) eqn:Hs; [|reflexivity].
    apply existsb_exists in Hs as [x [Hx Hp]]. rewrite <- He. symmetry.
    apply existsb_exists. exists x. split; [now apply str_set_In | exact Hp].
Qed.

Lemma str_in_set (k : string) (l : list string) :
  str_in k (str_set l) = str_in k l.
Proof. apply existsb_set. Qed.

Lemma truthy_set (l : list string) : truthy (str_set l) = truthy l.
Proof.
  induction l as [|x l IH]; cbn; [reflexivity|].
  destruct (str_in x l) eqn:Hx; [|reflexivity].
  rewrite IH. destruct l; [discriminate | reflexivity].
Qed.

Lemma existsb_pointwise {A : Type} (p q : A -> bool) (l : list A) :
  (forall x, p x = q x) -> existsb p l = existsb q l.
Proof.
  intros H. induction l as [|a l IH]; cbn; [reflexivity|]. now rewrite H, IH.
Qed.

Lemma Elements_post_init_eq (self : Elements) :
  Elements_post_init meta self =
  if truthy (el_keep self) && truthy (el_drop self) then inl DataValueError
  else if existsb (fun k => str_in k (map fst (el_rename self)) ||
                            str_in k (map snd (el_rename self))) (el_keep self)
  then inl DataKeyError
  else if existsb (fun k => str_in k (map fst (el_rename self))) (el_drop self)
  then inl DataKeyError
  else if existsb (fun k => str_in k (el_drop self) ||
                            str_in k (map fst (el_rename self)) ||
                            str_in k (map snd (el_rename self))) meta
  then inl DataKeyError
  else if existsb (fun k => str_in k meta) (el_keep self) then inl DataKeyError
  else inr (Elements_sets self).
Proof.
  unfold Elements_post_init. cbv zeta. rewrite !truthy_filter, !existsb_set.
  rewrite (existsb_pointwise
             (fun k => str_in k (str_set (el_drop self)) ||
                       str_in k (map fst (el_rename self)) ||
                       str_in k (map snd (el_rename self)))
             (fun k => str_in k (el_drop self) ||
                       str_in k (map fst (el_rename self)) ||
                       str_in k (map snd (el_rename self))))
    by (intros k; now rewrite str_in_set).
  reflexivity.
Qed.

Lemma Elements_post_init_sets (self self' : Elements) :
  Elements_post_init meta self = inr self' -> self' = Elements_sets self.
Proof.
  rewrite Elements_post_init_eq.
  repeat match goal with |- context [if ?b then _ else _] => destruct b end;
    try discriminate.
  now intros [= <-].
Qed.

Lemma Elements_map_sets (self : Elements) (features : dict V) :
  Elements_map meta (Elements_sets self) features = Elements_map meta self features.
Proof.
  unfold Elements_map, Elements_sets. cbn [el_keep el_drop el_rename].
  rewrite !truthy_set.
  rewrite (filter_ext (fun kv : string * V => str_in (fst kv) (str_set (el_keep self)))
             (fun kv => str_in (fst kv) (el_keep self)))
    by (intros kv; apply str_in_set).
  rewrite (filter_ext
             (fun kv : string * V => negb (str_in (fst kv) (str_set (el_drop self))) &&
                        negb (str_in (fst kv) (dict_keys (el_rename self))))
             (fun kv => negb (str_in (fst kv) (el_drop self)) &&
                        negb (str_in (fst kv) (dict_keys (el_rename self)))))
    by (intros kv; now rewrite str_in_set).
  reflexivity.
Qed.

Lemma existsb_false_forall {A : Type} (p : A -> bool) (l : list A) :
  existsb p l = false <-> forall x, In x l -> p x = false.
Proof.
  split.
  - intros H x Hx. destruct (p x) eqn:Hp; [|reflexivity].
    rewrite <- H. symmetry. apply existsb_exists. now exists x.
  - intros H. destruct (existsb p l) eqn:He; [|reflexivity].
    apply existsb_exists in He as [x [Hx Hp]]. specialize (H x Hx). congruence.
Qed.

Lemma truthy_nil {A : Type} (l : list A) : truthy l = false <-> l = [].
Proof. destruct l; cbn; split; congruence. Qed.

Lemma Elements_post_init_ok (self : Elements) :
  Elements_post_init meta self = inr (Elements_sets self) <->
  Elements_valid meta self.
Proof.
  unfold Elements_valid. rewrite Elements_post_init_eq.
  destruct (truthy (el_keep self) && truthy (el_drop self)) eqn:Hkd.
  { split; [discriminate|]. intros [[H|H] _]; rewrite H in Hkd; cbn in Hkd;
      [discriminate | now rewrite andb_false_r in Hkd]. }
  assert (Hkd' : el_keep self = [] \/ el_drop self = []).
  { apply andb_false_iff in Hkd as [H|H]; apply truthy_nil in H; tauto. }
  destruct (existsb _ (el_keep self)) eqn:H1 at 1.
  { split; [discriminate|]. intros (_ & Hk & _). exfalso.
    apply existsb_exists in H1 as [k [Hin Hk1]]. destruct (Hk k Hin) as (Ha & Hb & _).
    apply orb_true_iff in Hk1 as [H|H]; apply str_in_In in H; tauto. }
  destruct (existsb _ (el_drop self)) eqn:H2 at 1.
  { split; [discriminate|]. intros (_ & _ & Hd & _). exfalso.
    apply existsb_exists in H2 as [k [Hin Hk1]]. destruct (Hd k Hin) as (Ha & _).
    apply str_in_In in Hk1. tauto. }
  destruct (existsb _ meta) eqn:H3 at 1.
  { split; [discriminate|]. intros (_ & _ & Hd & Hm). exfalso.
    apply existsb_exists in H3 as [k [Hin Hk1]]. destruct (Hm k Hin) as (Ha & Hb).
    apply orb_true_iff in Hk1 as [Hk1|H]; [|apply str_in_In in H; tauto].
    apply orb_true_iff in Hk1 as [H|H]; apply str_in_In in H; [|tauto].
    destruct (Hd k H). tauto. }
  destruct (existsb _ (el_keep self)) eqn:H4 at 1.
  { split; [discriminate|]. intros (_ & Hk & _). exfalso.
    apply existsb_exists in H4 as [k [Hin Hk1]]. destruct (Hk k Hin) as (_ & _ & Hc).
    apply str_in_In in Hk1. tauto. }
  split; [intros _ | intros _; reflexivity].
  split; [exact Hkd'|].
  rewrite existsb_false_forall in H1, H2, H3, H4.
  split; [|split].
  - intros k Hin. specialize (H1 k Hin). specialize (H4 k Hin).
    apply orb_false_iff in H1 as [Ha Hb].
    apply str_in_not_In in Ha, Hb, H4. tauto.
  - intros k Hin. specialize (H2 k Hin). apply str_in_not_In in H2.
    split; [exact H2|]. intros Hm. specialize (H3 k Hm).
    apply orb_false_iff in H3 as [H3 _]. apply orb_false_iff in H3 as [H3 _].
    apply str_in_not_In in H3. tauto.
  - intros k Hin. specialize (H3 k Hin).
    apply orb_false_iff in H3 as [H3 Hb]. apply orb_false_iff in H3 as [_ Ha].
    apply str_in_not_In in Ha, Hb. tauto.
Qed.

Lemma dict_get_of (items : list (string * V)) (k : string) :
  dict_get (dict_of items) k = dict_get (rev items) k.
Proof.
  unfold dict_of. rewrite dict_get_update. now destruct (dict_get (rev items) k).
Qed.

Lemma dict_keys_of (items : list (string * V)) (k : string) :
  In k (dict_keys (dict_of items)) <-> In k (dict_keys items).
Proof.
  assert (H : dict_get (dict_of items) k = None <-> dict_get (rev items) k = None)
    by now rewrite dict_get_of.
  rewrite !dict_get_None in H. unfold dict_keys in H at 2.
  rewrite map_rev, <- in_rev in H. fold (dict_keys items) in H.
  destruct (in_dec string_dec k (dict_keys (dict_of items)));
    destruct (in_dec string_dec k (dict_keys items)); tauto.
Qed.

Lemma In_renamed_items (rename : dict string) (features : dict V)
    (k : string) (v : V) :
  In (k, v) (renamed_items rename features) <->
  exists k0, In (k0, v) features /\ dict_get rename k0 = Some k.
Proof.
  unfold renamed_items. rewrite in_flat_map. split.
  - intros [[k0 v0] [Hin Hk]]. cbn in Hk.
    destruct (dict_get rename k0) as [k'|] eqn:Hr; [|contradiction].
    destruct Hk as [[= -> ->]|[]]. now exists k0.
  - intros [k0 [Hin Hr]]. exists (k0, v). split; [exact Hin|].
    cbn. rewrite Hr. now left.
Qed.

Lemma In_keys (d : dict V) (k : string) :
  In k (dict_keys d) <-> exists v, In (k, v) d.
Proof.
  unfold dict_keys. rewrite in_map_iff. split.
  - intros [[k' v] [<- Hin]]. now exists v.
  - intros [v Hin]. now exists (k, v).
Qed.

Lemma renamed_get_Some (rename : dict string) (features : dict V)
    (k : string) (v : V) :
  dict_get (dict_of (renamed_items rename features)) k = Some v ->
  exists k0, In (k0, v) features /\ dict_get rename k0 = Some k.
Proof.
  rewrite dict_get_of. intros H. apply dict_get_In, in_rev in H.
  now apply In_renamed_items.
Qed.

Lemma renamed_get_None (rename : dict string) (features : dict V) (k : string) :
  dict_get (dict_of (renamed_items rename features)) k = None <->
  forall k0, In k0 (dict_keys features) -> dict_get rename k0 <> Some k.
Proof.
  rewrite dict_get_None, dict_keys_of, In_keys. split.
  - intros H k0 Hin Hr. apply In_keys in Hin as [v Hin]. apply H. exists v.
    apply In_renamed_items. now exists k0.
  - intros H [v Hin]. apply In_renamed_items in Hin as [k0 [Hin Hr]].
    apply (H k0); [|exact Hr]. apply In_keys. now exists v.
Qed.

Lemma renamed_get_injective (rename : dict string) (features : dict V)
    (k0 k : string) (v : V) :
  rename_injective rename -> NoDup (dict_keys features) ->
  dict_get rename k0 = Some k -> dict_get features k0 = Some v ->
  dict_get (dict_of (renamed_items rename features)) k = Some v.
Proof.
  intros Hinj Hnd Hr Hf.
  destruct (dict_get (dict_of (renamed_items rename features)) k) as [v'|] eqn:Hg.
  - apply renamed_get_Some in Hg as [k1 [Hin Hr1]].
    assert (k1 = k0) as -> by exact (Hinj _ _ _ Hr1 Hr).
    apply (In_dict_get _ _ _ Hnd) in Hin. congruence.
  - exfalso. rewrite renamed_get_None in Hg. apply (Hg k0); [|exact Hr].
    apply In_keys. exists v. now apply dict_get_In.
Qed.

Lemma Elements_map_eq (self : Elements) (features : dict V) :
  NoDup (dict_keys features) ->
  Elements_map meta self features =
  let output := filter (fun kv => el_selected self (fst kv)) features in
  let renamed := dict_of (renamed_items (el_rename self) features) in
  if existsb (fun k => str_in k (dict_keys output)) (dict_keys renamed)
  then inl DataKeyError
  else inr (dict_update (dict_update output renamed)
              (filter (fun kv => str_in (fst kv) meta) features)).
Proof.
  intros Hnd. unfold Elements_map. fold (renamed_items (el_rename self) features).
  rewrite truthy_filter.
  rewrite (dict_of_id (filter (fun kv => str_in (fst kv) meta) features))
    by now apply (NoDup_filter_keys (fun k => str_in k meta)).
  assert (Hout :
    (if truthy (el_keep self)
     then dict_of (filter (fun kv => str_in (fst kv) (el_keep self)) features)
     else if truthy (el_drop self)
     then dict_of (filter (fun kv => negb (str_in (fst kv) (el_drop self)) &&
                            negb (str_in (fst kv) (dict_keys (el_rename self))))
                     features)
     else dict_of (filter (fun kv => negb (str_in (fst kv) (dict_keys (el_rename self))))
                     features)) =
    filter (fun kv => el_selected self (fst kv)) features).
  { unfold el_selected. destruct (truthy (el_keep self)).
    - apply dict_of_id. now apply (NoDup_filter_keys (fun k => str_in k (el_keep self))).
    - destruct (truthy (el_drop self)) eqn:Hd.
      + apply dict_of_id.
        now apply (NoDup_filter_keys (fun k => negb (str_in k (el_drop self)) &&
            negb (str_in k (dict_keys (el_rename self))))).
      + apply truthy_nil in Hd. rewrite Hd. cbn [str_in existsb negb andb].
        apply dict_of_id.
        now apply (NoDup_filter_keys (fun k => 
            negb (str_in k (dict_keys (el_rename self))))). }
  rewrite Hout. reflexivity.
Qed.

Lemma Elements_map_get (self : Elements) (features out : dict V) (k : string) :
  NoDup (dict_keys features) ->
  Elements_map meta self features = inr out ->
  dict_get out k =
  if str_in k meta && is_some (dict_get features k) then dict_get features k
  else match dict_get (dict_of (renamed_items (el_rename self) features)) k with
       | Some v => Some v
       | None => if el_selected self k then dict_get features k else None
       end.
Proof.
  intros Hnd. rewrite (Elements_map_eq _ _ Hnd). cbv zeta.
  destruct (existsb _ _); [discriminate|]. intros [= <-].
  rewrite !dict_get_update.
  rewrite (dict_get_rev (dict_of _)) by apply dict_of_NoDup.
  rewrite dict_get_rev by now apply (NoDup_filter_keys (fun k => str_in k meta)).
  rewrite (dict_get_filter (fun k => str_in k meta)).
  rewrite (dict_get_filter (el_selected self)).
  destruct (str_in k meta); cbn [andb]; [|reflexivity].
  now destruct (dict_get features k).
Qed.

Lemma Elements_map_no_overwrite (self : Elements) (features out : dict V) (k : string) :
  NoDup (dict_keys features) ->
  Elements_map meta self features = inr out ->
  el_selected self k = true -> In k (dict_keys features) ->
  dict_get (dict_of (renamed_items (el_rename self) features)) k = None.
Proof.
  intros Hnd. rewrite (Elements_map_eq _ _ Hnd). cbv zeta.
  destruct (existsb _ _) eqn:He; [discriminate|]. intros _ Hsel Hin.
  rewrite existsb_false_forall in He.
  apply dict_get_None. intros Hk. specialize (He k Hk).
  apply str_in_not_In in He. apply He.
  rewrite (dict_keys_filter (el_selected self)). apply filter_In. now split.
Qed.

End ElementsFacts.

Section ElementsMap.

Context {V : Type}.
Variable meta : list string.

Lemma dict_get_In_values (d : dict string) (k0 k : string) :
  dict_get d k0 = Some k -> In k (map snd d).
Proof.
  intros H. apply dict_get_In in H. change k with (snd (k0, k)). now apply in_map.
Qed.

Lemma dict_get_In_keys {A : Type} (d : dict A) (k : string) (v : A) :
  dict_get d k = Some v -> In k (dict_keys d).
Proof.
  intros H. apply dict_get_In in H. change k with (fst (k, v)). now apply in_map.
Qed.

Lemma Elements_map_entries_valid (self : Elements) (features out : dict V) :
  Elements_valid meta self ->
  rename_injective (el_rename self) ->
  NoDup (dict_keys features) ->
  Elements_map meta self features = inr out ->
  forall k v,
    dict_get out k = Some v <->
    (exists k0, dict_get (el_rename self) k0 = Some k /\
                dict_get features k0 = Some v) \/
    ((el_selected self k || str_in k meta) = true /\ dict_get features k = Some v).
Proof.
  intros (Hkd & Hk & Hd & Hm) Hinj Hnd Hmap k v.
  rewrite (Elements_map_get meta _ _ _ k Hnd Hmap).
  assert (Hnometa : forall k0, str_in k meta = true ->
                               dict_get (el_rename self) k0 = Some k -> False).
  { intros k0 Hin Hr. apply str_in_In in Hin. destruct (Hm k Hin) as [_ Hv].
    apply Hv. now apply (dict_get_In_values _ k0). }
  destruct (dict_get (dict_of (renamed_items (el_rename self) features)) k)
    as [v1|] eqn:Hr.
  - destruct (renamed_get_Some _ _ _ _ Hr) as [k1 [Hin1 Hr1]].
    destruct (str_in k meta) eqn:Hmeta; [exfalso; now apply (Hnometa k1)|].
    cbn [andb]. split.
    + intros [= <-]. left. exists k1. split; [exact Hr1 | now apply In_dict_get].
    + intros [[k0 [Hr0 Hf0]]|[Hsel Hf]].
      * now rewrite <- (renamed_get_injective _ _ _ _ _ Hinj Hnd Hr0 Hf0).
      * exfalso. rewrite orb_false_r in Hsel.
        rewrite (Elements_map_no_overwrite meta _ _ _ k Hnd Hmap Hsel) in Hr;
          [discriminate|]. now apply (dict_get_In_keys _ _ v).
  - rewrite renamed_get_None in Hr.
    assert (Hleft : (exists k0, dict_get (el_rename self) k0 = Some k /\
                                dict_get features k0 = Some v) -> False).
    { intros [k0 [Hr0 Hf0]]. apply (Hr k0); [|exact Hr0].
      now apply (dict_get_In_keys _ _ v). }
    destruct (str_in k meta) eqn:Hmeta; cbn [andb].
    + rewrite orb_true_r.
      destruct (dict_get features k) as [v0|] eqn:Hf; cbn [is_some].
      * split; [intros ->; right; now split | intros [H|[_ H]]; [tauto | exact H]].
      * split; [now destruct (el_selected self k) | intros [H|[_ H]]; [tauto | discriminate]].
    + rewrite orb_false_r. destruct (el_selected self k).
      * split; [intros H; right; now split | intros [H|[_ H]]; [tauto | exact H]].
      * split; [discriminate | intros [H|[H _]]; [tauto | discriminate]].
Qed.

(** X12. [Elements.__post_init__] raises [ValueError] exactly when both
    [keep] and [drop] are given, whatever the other fields hold.  It accepts
    exactly when one of the two is empty, [keep] shares no key with the keys
    and values of [rename] nor with the internal keys, [drop] shares no key
    with the keys of [rename] nor with the internal keys, and no internal key
    is a key or value of [rename].  When it accepts, it leaves [rename] as it
    is and replaces [keep] and [drop] by their sets: the same keys, each
    once. *)
Theorem Elements_post_init_checks (self : Elements) :
  (Elements_post_init meta self = inl DataValueError <->
   el_keep self <> [] /\ el_drop self <> []) /\
  ((exists self', Elements_post_init meta self = inr self') <->
   Elements_valid meta self) /\
  (forall self',
     Elements_post_init meta self = inr self' ->
     el_rename self' = el_rename self /\
     NoDup (el_keep self') /\ NoDup (el_drop self') /\
     forall k, (In k (el_keep self') <-> In k (el_keep self)) /\
               (In k (el_drop self') <-> In k (el_drop self))).
Proof.
  split; [|split].
  - rewrite Elements_post_init_eq.
    destruct (el_keep self) as [|a ks]; cbn [truthy andb].
    + split; [|tauto].
      repeat match goal with |- context [if ?b then _ else _] => destruct b end;
        discriminate.
    + destruct (el_drop self) as [|b ds]; cbn [truthy andb].
      * split; [|tauto].
        repeat match goal with |- context [if ?b then _ else _] => destruct b end;
          discriminate.
      * split; [split; discriminate | reflexivity].
  - split.
    + intros [self' H]. pose proof (Elements_post_init_sets _ _ _ H) as ->.
      now apply Elements_post_init_ok.
    + intros H. exists (Elements_sets self). now apply Elements_post_init_ok.
  - intros self' H. pose proof (Elements_post_init_sets _ _ _ H) as ->.
    cbn [Elements_sets el_rename el_keep el_drop].
    split; [reflexivity|]. split; [apply str_set_NoDup|].
    split; [apply str_set_NoDup|].
    intros k. split; apply str_set_In.
Qed.

(** X13. On a validated [Elements] that renames no two keys to the same
    name, the features that [map] returns are exactly the renamed features,
    under their new name, and the selected features and the internal
    features, under their own name, each with the value it had. *)
Theorem Elements_map_entries (self self' : Elements) (features out : dict V) :
  Elements_post_init meta self = inr self' ->
  rename_injective (el_rename self) ->
  NoDup (dict_keys features) ->
  Elements_map meta self' features = inr out ->
  forall k v,
    dict_get out k = Some v <->
    (exists k0, dict_get (el_rename self) k0 = Some k /\
                dict_get features k0 = Some v) \/
    ((el_selected self k || str_in k meta) = true /\ dict_get features k = Some v).
Proof.
  intros Hpi. pose proof (Elements_post_init_sets _ _ _ Hpi) as ->.
  apply Elements_post_init_ok in Hpi. rewrite Elements_map_sets.
  now apply Elements_map_entries_valid.
Qed.

(** X14. [Elements.map] raises only [KeyError], and exactly when a feature
    is renamed to the name of a feature that is selected under its own
    name. *)
Theorem Elements_map_raises_iff (self : Elements) (features : dict V) (x : DataExn) :
  NoDup (dict_keys features) ->
  (Elements_map meta self features = inl x <->
   x = DataKeyError /\
   exists k0 k, dict_get (el_rename self) k0 = Some k /\
                In k0 (dict_keys features) /\ In k (dict_keys features) /\
                el_selected self k = true).
Proof.
  intros Hnd. rewrite (Elements_map_eq meta _ _ Hnd). cbv zeta.
  destruct (existsb _ _) eqn:He.
  - split.
    + intros [= <-]. split; [reflexivity|].
      apply existsb_exists in He as [k [Hk Hout]].
      apply str_in_In in Hout.
      rewrite (dict_keys_filter (el_selected self)) in Hout.
      apply filter_In in Hout as [Hin Hsel].
      rewrite dict_keys_of, In_keys in Hk. destruct Hk as [v Hk].
      apply In_renamed_items in Hk as [k0 [Hin0 Hr]].
      exists k0, k. repeat split; try assumption.
      apply In_keys. now exists v.
    + now intros [-> _].
  - split; [discriminate|]. intros [_ (k0 & k & Hr & Hin0 & Hin & Hsel)]. exfalso.
    rewrite existsb_false_forall in He.
    assert (Hk : In k (dict_keys (dict_of (renamed_items (el_rename self) features)))).
    { rewrite dict_keys_of, In_keys. apply In_keys in Hin0 as [v Hin0].
      exists v. apply In_renamed_items. now exists k0. }
    specialize (He k Hk). apply str_in_not_In in He. apply He.
    rewrite (dict_keys_filter (el_selected self)). apply filter_In. now split.
Qed.

(** X15. A validated [Elements] with a non-empty [keep] never raises in
    [map]. *)
Theorem Elements_keep_never_raises (self self' : Elements) (features : dict V) :
  Elements_post_init meta self = inr self' ->
  el_keep self <> [] ->
  NoDup (dict_keys features) ->
  exists out, Elements_map meta self' features = inr out.
Proof.
  intros Hpi Hkeep Hnd. pose proof (Elements_post_init_sets _ _ _ Hpi) as ->.
  apply Elements_post_init_ok in Hpi as (_ & Hk & _).
  rewrite Elements_map_sets, (Elements_map_eq meta _ _ Hnd). cbv zeta.
  destruct (existsb _ _) eqn:He; [exfalso | eexists; reflexivity].
  apply existsb_exists in He as [k [Hin Hout]].
  apply str_in_In in Hout.
  rewrite (dict_keys_filter (el_selected self)) in Hout.
  apply filter_In in Hout as [_ Hsel].
  unfold el_selected in Hsel.
  destruct (el_keep self) as [|a ks] eqn:Hks; [congruence|]. cbn [truthy] in Hsel.
  apply str_in_In in Hsel.
  rewrite dict_keys_of, In_keys in Hin. destruct Hin as [v Hin].
  apply In_renamed_items in Hin as [k0 [_ Hr]].
  destruct (Hk k Hsel) as (_ & Hv & _). apply Hv.
  now apply (dict_get_In_values _ k0).
Qed.

(** X16. Whatever the fields, an internal feature is in the result of
    [Elements.map] with the value it had. *)
Theorem Elements_map_keeps_meta (self : Elements) (features out : dict V)
    (k : string) (v : V) :
  NoDup (dict_keys features) ->
  Elements_map meta self features = inr out ->
  In k meta -> dict_get features k = Some v ->
  dict_get out k = Some v.
Proof.
  intros Hnd Hmap Hin Hf. rewrite (Elements_map_get meta _ _ _ k Hnd Hmap).
  apply str_in_In in Hin. rewrite Hin, Hf. reflexivity.
Qed.

End ElementsMap.

Section ElementsIdempotent.

Context {V : Type}.
Variable meta : list string.

Lemma str_in_app (k : string) (l1 l2 : list string) :
  str_in k (l1 ++ l2) = str_in k l1 || str_in k l2.
Proof. unfold str_in. apply existsb_app. Qed.

Lemma dict_keys_app (d1 d2 : dict V) :
  dict_keys (d1 ++ d2) = dict_keys d1 ++ dict_keys d2.
Proof. apply map_app. Qed.

Lemma dict_update_app (d : dict V) (items1 items2 : list (string * V)) :
  dict_update d (items1 ++ items2) = dict_update (dict_update d items1) items2.
Proof. apply fold_left_app. Qed.

Lemma dict_update_agree (items : list (string * V)) :
  forall d,
    NoDup (dict_keys items) ->
    (forall k v v', In (k, v) items -> dict_get d k = Some v' -> v' = v) ->
    dict_update d items =
    d ++ filter (fun kv => negb (str_in (fst kv) (dict_keys d))) items.
Proof.
  induction items as [|[k v] items IH]; intros d Hnd Hag.
  - cbn. now rewrite app_nil_r.
  - rewrite dict_update_cons. cbn [filter fst].
    inversion Hnd as [|? ? Hk Hnd']; subst.
    rewrite dict_get_str_in.
    destruct (dict_get d k) as [v'|] eqn:Hg; cbn [is_some negb].
    + assert (v' = v) as -> by (apply (Hag k); [now left | exact Hg]).
      rewrite (dict_set_same _ _ _ Hg). apply IH; [exact Hnd'|].
      intros k1 v1 v1' Hin. apply Hag. now right.
    + apply dict_get_None in Hg. rewrite (dict_set_fresh _ _ _ Hg).
      rewrite IH; [|exact Hnd'|].
      * rewrite <- app_assoc. cbn [app]. do 2 f_equal.
        apply filter_ext_in. intros [k1 v1] Hin. cbn [fst].
        rewrite dict_keys_app, str_in_app. cbn.
        destruct (String.eqb_spec k1 k) as [->|Hne]; [|now rewrite !orb_false_r].
        exfalso. apply Hk. change k with (fst (k, v1)). now apply in_map.
      * intros k1 v1 v1' Hin. rewrite dict_get_app.
        destruct (dict_get d k1) as [v2|] eqn:Hg1.
        -- intros [= <-]. apply (Hag k1); [now right | exact Hg1].
        -- cbn. destruct (String.eqb_spec k k1) as [->|Hne]; [|discriminate].
           exfalso. apply Hk. change k1 with (fst (k1, v1)). now apply in_map.
Qed.

Lemma filter_filter {A : Type} (p q : A -> bool) (l : list A) :
  filter p (filter q l) = filter (fun x => q x && p x) l.
Proof.
  induction l as [|a l IH]; cbn; [reflexivity|].
  destruct (q a); cbn; [destruct (p a); now rewrite IH | exact IH].
Qed.

Lemma filter_nothing {A : Type} (p : A -> bool) (l : list A) :
  (forall x, In x l -> p x = false) -> filter p l = [].
Proof.
  induction l as [|a l IH]; cbn; intros H; [reflexivity|].
  rewrite (H a) by now left. apply IH. intros x Hx. apply H. now right.
Qed.

Lemma filter_whole {A : Type} (p : A -> bool) (l : list A) :
  (forall x, In x l -> p x = true) -> filter p l = l.
Proof.
  induction l as [|a l IH]; cbn; intros H; [reflexivity|].
  rewrite (H a) by now left. f_equal. apply IH. intros x Hx. apply H. now right.
Qed.

Lemma renamed_items_nil (features : dict V) : renamed_items [] features = [].
Proof. unfold renamed_items. now induction features. Qed.

(** Without renaming, [map] is the selected features followed by the
    internal features that were not selected. *)
Lemma Elements_map_plain (self : Elements) (features : dict V) :
  el_rename self = [] -> NoDup (dict_keys features) ->
  Elements_map meta self features =
  inr (filter (fun kv => el_selected self (fst kv)) features ++
       filter (fun kv => str_in (fst kv) meta && negb (el_selected self (fst kv)))
         features).
Proof.
  intros Hr Hnd. rewrite (Elements_map_eq meta _ _ Hnd). cbv zeta.
  rewrite Hr, renamed_items_nil. cbn [dict_of dict_update fold_left dict_keys map existsb].
  f_equal. rewrite dict_update_agree.
  - f_equal. rewrite filter_filter. apply filter_ext_in. intros [k v] Hin. cbn [fst].
    f_equal. f_equal. rewrite (dict_keys_filter (fun k => el_selected self k)).
    destruct (el_selected self k) eqn:Hsel.
    + apply str_in_In, filter_In. split; [|exact Hsel].
      change k with (fst (k, v)). now apply in_map.
    + apply str_in_not_In. intros H. apply filter_In in H. destruct H. congruence.
  - now apply (NoDup_filter_keys (fun k => str_in k meta)).
  - intros k v v' Hin Hg. apply filter_In in Hin as [Hin _].
    rewrite (dict_get_filter (fun k => el_selected self k)) in Hg.
    destruct (el_selected self k); [|discriminate].
    rewrite (In_dict_get _ _ _ Hnd Hin) in Hg. congruence.
Qed.

(** X17. Without renaming, [Elements.map] never raises and applying it
    twice gives what applying it once gives. *)
Theorem Elements_map_idempotent (self : Elements) (features : dict V) :
  el_rename self = [] -> NoDup (dict_keys features) ->
  exists out, Elements_map meta self features = inr out /\
              Elements_map meta self out = inr out.
Proof.
  intros Hr Hnd. rewrite (Elements_map_plain _ _ Hr Hnd).
  eexists. split; [reflexivity|].
  set (S := filter (fun kv => el_selected self (fst kv)) features).
  set (M := filter (fun kv => str_in (fst kv) meta && negb (el_selected self (fst kv)))
              features).
  assert (HndSM : NoDup (dict_keys (S ++ M))).
  { rewrite dict_keys_app. unfold S, M.
    rewrite (dict_keys_filter (fun k => el_selected self k)).
    rewrite (dict_keys_filter (fun k => str_in k meta && negb (el_selected self k))).
    apply NoDup_app; [now apply NoDup_filter | now apply NoDup_filter |].
    intros k H1 H2. apply filter_In in H1 as [_ H1], H2 as [_ H2].
    rewrite H1, andb_false_r in H2. discriminate. }
  rewrite (Elements_map_plain _ _ Hr HndSM). f_equal.
  rewrite !filter_app.
  assert (HS : forall kv, In kv S -> el_selected self (fst kv) = true)
    by (intros kv Hin; now apply filter_In in Hin).
  assert (HM : forall kv, In kv M ->
             str_in (fst kv) meta && negb (el_selected self (fst kv)) = true)
    by (intros kv Hin; now apply filter_In in Hin).
  set (pS := fun kv : string * V => el_selected self (fst kv)) in *.
  set (pM := fun kv : string * V =>
               str_in (fst kv) meta && negb (el_selected self (fst kv))) in *.
  rewrite (filter_whole pS S) by exact HS.
  rewrite (filter_whole pM M) by exact HM.
  rewrite (filter_nothing pS M).
  2:{ intros kv Hin. specialize (HM kv Hin). apply andb_true_iff in HM as [_ HM].
      now apply negb_true_iff in HM. }
  rewrite (filter_nothing pM S).
  2:{ intros kv Hin. unfold pM. rewrite (HS kv Hin). apply andb_false_r. }
  now rewrite app_nil_r.
Qed.

End ElementsIdempotent.

(** * Element-wise transforms *)

Section ElementWiseFacts.

Context {V : Type}.

Lemma seq_key_get (ks : list string) (k : string) :
  dict_get (dict_of (map (fun k => (k, k)) ks)) k =
  if str_in k ks then Some k else None.
Proof.
  rewrite dict_get_of.
  destruct (dict_get (rev (map (fun k => (k, k)) ks)) k) as [k'|] eqn:Hg.
  - apply dict_get_In, in_rev, in_map_iff in Hg as [x [[= -> ->] Hin]].
    apply str_in_In in Hin. now rewrite Hin.
  - apply dict_get_None in Hg. unfold dict_keys in Hg.
    rewrite map_rev, <- in_rev, map_map, map_id in Hg.
    apply str_in_not_In in Hg. now rewrite Hg.
Qed.

Lemma post_init_identity (spec : KeySpec) (key : dict string) :
  _ElementWise_post_init spec = inr key ->
  (forall d, spec <> KeyDict d) ->
  forall k, dict_get key k = if str_in k (dict_keys key) then Some k else None.
Proof.
  intros Hpi Hspec k. destruct spec as [k0|ks|d]; cbn in Hpi.
  - destruct (String.eqb k0 ""); [discriminate|]. injection Hpi as <-. cbn.
    rewrite (String.eqb_sym k k0).
    destruct (String.eqb_spec k0 k) as [->|]; reflexivity.
  - destruct (truthy ks); [|discriminate]. injection Hpi as <-.
    rewrite dict_get_str_in, seq_key_get. now destruct (str_in k ks).
  - now destruct (Hspec d).
Qed.

Lemma fold_left_map {A B C : Type} (f : A -> B -> A) (h : C -> B) (l : list C) :
  forall a, fold_left f (map h l) a = fold_left (fun a x => f a (h x)) l a.
Proof. induction l as [|x l IH]; cbn; intros a; [reflexivity | apply IH]. Qed.

Lemma fold_left_ext {A B : Type} (f g : A -> B -> A) (l : list B) :
  (forall a x, f a x = g a x) -> forall a, fold_left f l a = fold_left g l a.
Proof.
  intros H. induction l as [|x l IH]; cbn; intros a; [reflexivity|].
  now rewrite H, IH.
Qed.

Lemma ElementWiseTransform_map_eq (key : dict string) (f : V -> V)
    (features : dict V) :
  ElementWiseTransform_map key f features =
  if existsb (fun kv => str_in (fst kv) (dict_keys key)) features
  then inr (dict_of (map (fun kv => (out_key key (fst kv),
                                     if is_some (dict_get key (fst kv))
                                     then f (snd kv) else snd kv))
                       features))
  else inl DataKeyError.
Proof.
  unfold ElementWiseTransform_map, _per_element.
  destruct (existsb _ features); cbn [negb]; [|reflexivity].
  f_equal. rewrite map_map. f_equal. apply map_ext. intros [k v]. cbn [fst snd].
  unfold out_key. now destruct (dict_get key k).
Qed.

Lemma existsb_map' {A B : Type} (p : B -> bool) (h : A -> B) (l : list A) :
  existsb p (map h l) = existsb (fun x => p (h x)) l.
Proof. induction l as [|a l IH]; cbn; [reflexivity | now rewrite IH]. Qed.

Lemma elementwise_identity (spec : KeySpec) (key : dict string)
    (f : V -> V) (features : dict V) :
  _ElementWise_post_init spec = inr key ->
  (forall d, spec <> KeyDict d) ->
  NoDup (dict_keys features) ->
  ElementWiseTransform_map key f features =
  if existsb (fun kv => str_in (fst kv) (dict_keys key)) features
  then inr (map (fun kv => (fst kv, if str_in (fst kv) (dict_keys key)
                                    then f (snd kv) else snd kv))
              features)
  else inl DataKeyError.
Proof.
  intros Hpi Hspec Hnd. rewrite ElementWiseTransform_map_eq.
  destruct (existsb _ features); [|reflexivity]. f_equal.
  assert (Hmap :
    map (fun kv : string * V => (out_key key (fst kv),
                    if is_some (dict_get key (fst kv)) then f (snd kv) else snd kv))
      features =
    map (fun kv => (fst kv, if str_in (fst kv) (dict_keys key)
                            then f (snd kv) else snd kv)) features).
  { apply map_ext. intros [k v]. cbn [fst snd]. unfold out_key.
    rewrite (post_init_identity _ _ Hpi Hspec k).
    now destruct (str_in k (dict_keys key)). }
  rewrite Hmap. apply dict_of_id. unfold dict_keys. rewrite map_map. exact Hnd.
Qed.

(** X18. With a key or a sequence of keys, [ElementWiseTransform.map]
    raises [KeyError] when no feature has one of the keys, and otherwise
    returns the features in their order under their names, those with one of
    the keys transformed and the others as they were. *)
Theorem elementwise_map_in_place (spec : KeySpec) (key : dict string)
    (f : V -> V) (features : dict V) :
  _ElementWise_post_init spec = inr key ->
  (forall d, spec <> KeyDict d) ->
  NoDup (dict_keys features) ->
  ElementWiseTransform_map key f features =
  if existsb (fun kv => str_in (fst kv) (dict_keys key)) features
  then inr (map (fun kv => (fst kv, if str_in (fst kv) (dict_keys key)
                                    then f (snd kv) else snd kv))
              features)
  else inl DataKeyError.
Proof. exact (elementwise_identity spec key f features). Qed.

(** X19. With a key or a sequence of keys, transforming with [f] and then
    with [g] is transforming once with the composition of the two. *)
Theorem elementwise_map_compose (spec : KeySpec) (key : dict string)
    (f g : V -> V) (features out : dict V) :
  _ElementWise_post_init spec = inr key ->
  (forall d, spec <> KeyDict d) ->
  NoDup (dict_keys features) ->
  ElementWiseTransform_map key f features = inr out ->
  ElementWiseTransform_map key g out =
  ElementWiseTransform_map key (fun v => g (f v)) features.
Proof.
  intros Hpi Hspec Hnd Hmap.
  rewrite (elementwise_identity _ _ _ _ Hpi Hspec Hnd) in Hmap.
  rewrite (elementwise_identity _ _ (fun v => g (f v)) _ Hpi Hspec Hnd).
  destruct (existsb _ features) eqn:He; [|discriminate]. injection Hmap as <-.
  rewrite (elementwise_identity _ _ g _ Hpi Hspec).
  2:{ unfold dict_keys. rewrite map_map. exact Hnd. }
  rewrite existsb_map'. cbn [fst]. rewrite He.
  rewrite map_map. f_equal. apply map_ext. intros [k v]. cbn [fst snd].
  now destruct (str_in k (dict_keys key)).
Qed.

(** X20. [ElementWiseRandomTransform.random_map] with a seed is
    [ElementWiseTransform.map] with the element transform at that seed. *)
Theorem random_map_is_map {S : Type} (key : dict string) (g : V -> S -> V)
    (features : dict V) (seed : S) :
  ElementWiseRandomTransform_random_map key g features seed =
  ElementWiseTransform_map key (fun v => g v seed) features.
Proof.
  unfold ElementWiseRandomTransform_random_map, ElementWiseTransform_map.
  destruct (_per_element key features) as [x|yielded]; [reflexivity|].
  f_equal. unfold dict_of, dict_update. rewrite fold_left_map.
  apply fold_left_ext. intros a [[k v] []]; reflexivity.
Qed.

(** X21. A feature is in the result of [ElementWiseTransform.map] under
    its output key, transformed if it has one of the keys, when no later
    feature has the same output key; a later feature with the same output key
    replaces it without an error. *)
Theorem elementwise_map_last_wins (key : dict string) (f : V -> V)
    (features out l1 l2 : dict V) (k0 : string) (v : V) :
  ElementWiseTransform_map key f features = inr out ->
  features = l1 ++ (k0, v) :: l2 ->
  (forall k1, In k1 (dict_keys l2) -> out_key key k1 <> out_key key k0) ->
  dict_get out (out_key key k0) =
  Some (if is_some (dict_get key k0) then f v else v).
Proof.
  intros Hmap -> Hlater. rewrite ElementWiseTransform_map_eq in Hmap.
  destruct (existsb _ _); [|discriminate]. injection Hmap as <-.
  rewrite dict_get_of, map_app, rev_app_distr. cbn [map rev fst snd].
  rewrite <- app_assoc, dict_get_app.
  match goal with |- context [dict_get (rev ?l) ?k] =>
    assert (Hnone : dict_get (rev l) k = None) end.
  { apply dict_get_None. unfold dict_keys. rewrite map_rev, <- in_rev, map_map.
    cbn [fst]. intros Hin. apply in_map_iff in Hin as [[k1 v1] [Heq Hin]].
    cbn [fst] in Heq. apply (Hlater k1); [|exact Heq].
    change k1 with (fst (k1, v1)). now apply in_map. }
  rewrite Hnone. cbn. now rewrite String.eqb_refl.
Qed.

End ElementWiseFacts.

(** * The transforms on concrete features *)

Lemma nodupb_NoDup (l : list string) : nodupb l = true -> NoDup l.
Proof.
  induction l as [|k l IH]; cbn; intros H; constructor.
  - apply andb_true_iff in H as [H _]. apply negb_true_iff in H.
    now apply str_in_not_In.
  - apply IH. now apply andb_true_iff in H as [_ H].
Qed.

Lemma NoDup_values_injective (rename : dict string) :
  NoDup (map snd rename) -> rename_injective rename.
Proof.
  intros Hnd a b c Ha Hb. apply dict_get_In in Ha, Hb.
  induction rename as [|[k v] rename IH]; [contradiction|].
  cbn in Hnd. inversion Hnd as [|? ? Hv Hnd']; subst.
  destruct Ha as [Ha|Ha], Hb as [Hb|Hb].
  - congruence.
  - injection Ha as -> ->. exfalso. apply Hv.
    change c with (snd (b, c)). now apply in_map.
  - injection Hb as -> ->. exfalso. apply Hv.
    change c with (snd (a, c)). now apply in_map.
  - now apply IH.
Qed.

Lemma toy_features_NoDup : NoDup (dict_keys toy_features).
Proof. apply nodupb_NoDup. reflexivity. Qed.

Lemma Elements_map_entries_witness :
  Elements_post_init toy_meta toy_elements = inr toy_elements /\
  Elements_map toy_meta toy_elements toy_features =
    inr [("image"%string, 1); ("y"%string, 2); ("_index"%string, 0)] /\
  forall k v,
    dict_get [("image"%string, 1); ("y"%string, 2); ("_index"%string, 0)] k = Some v <->
    (exists k0, dict_get (el_rename toy_elements) k0 = Some k /\
                dict_get toy_features k0 = Some v) \/
    ((el_selected toy_elements k || str_in k toy_meta) = true /\
     dict_get toy_features k = Some v).
Proof.
  assert (Hpi : Elements_post_init toy_meta toy_elements = inr toy_elements)
    by (vm_compute; reflexivity).
  assert (Hmap : Elements_map toy_meta toy_elements toy_features =
                 inr [("image"%string, 1); ("y"%string, 2); ("_index"%string, 0)])
    by (vm_compute; reflexivity).
  split; [exact Hpi|]. split; [exact Hmap|].
  apply (Elements_map_entries toy_meta toy_elements toy_elements toy_features _ Hpi).
  - apply NoDup_values_injective. apply nodupb_NoDup. reflexivity.
  - exact toy_features_NoDup.
  - exact Hmap.
Defined.

Lemma Elements_map_raises_iff_witness :
  Elements_map toy_meta toy_elements_clash toy_features = inl DataKeyError /\
  exists k0 k, dict_get (el_rename toy_elements_clash) k0 = Some k /\
               In k0 (dict_keys toy_features) /\ In k (dict_keys toy_features) /\
               el_selected toy_elements_clash k = true.
Proof.
  assert (Hmap : Elements_map toy_meta toy_elements_clash toy_features =
                 inl DataKeyError) by (vm_compute; reflexivity).
  split; [exact Hmap|].
  exact (proj2 (proj1 (Elements_map_raises_iff toy_meta toy_elements_clash
                         toy_features DataKeyError toy_features_NoDup) Hmap)).
Defined.

Lemma Elements_keep_never_raises_witness :
  exists out, Elements_map toy_meta toy_elements toy_features = inr out.
Proof.
  apply (Elements_keep_never_raises toy_meta toy_elements toy_elements).
  - vm_compute. reflexivity.
  - discriminate.
  - exact toy_features_NoDup.
Defined.

Lemma Elements_map_keeps_meta_witness :
  dict_get [("image"%string, 1); ("y"%string, 2); ("_index"%string, 0)]
    "_index"%string = Some 0.
Proof.
  apply (Elements_map_keeps_meta toy_meta toy_elements toy_features).
  - exact toy_features_NoDup.
  - vm_compute. reflexivity.
  - left. reflexivity.
  - reflexivity.
Defined.

Lemma Elements_map_idempotent_witness :
  exists out, Elements_map toy_meta toy_elements_plain toy_features = inr out /\
              Elements_map toy_meta toy_elements_plain out = inr out.
Proof.
  apply Elements_map_idempotent.
  - reflexivity.
  - exact toy_features_NoDup.
Defined.

Lemma elementwise_map_in_place_witness :
  ElementWiseTransform_map
    [("image"%string, "image"%string); ("label"%string, "label"%string)]
    Z.succ toy_features =
  inr [("image"%string, 2); ("label"%string, 3); ("extra"%string, 3);
       ("_index"%string, 0)].
Proof.
  rewrite (elementwise_map_in_place (KeySeq ["image"%string; "label"%string])).
  - vm_compute. reflexivity.
  - vm_compute. reflexivity.
  - intros d. discriminate.
  - exact toy_features_NoDup.
Defined.

Lemma elementwise_map_compose_witness :
  ElementWiseTransform_map [("image"%string, "image"%string)] Z.opp
    [("image"%string, 2); ("label"%string, 2); ("extra"%string, 3);
     ("_index"%string, 0)] =
  ElementWiseTransform_map [("image"%string, "image"%string)]
    (fun v => Z.opp (Z.succ v)) toy_features.
Proof.
  apply (elementwise_map_compose (KeyStr "image"%string)).
  - vm_compute. reflexivity.
  - intros d. discriminate.
  - exact toy_features_NoDup.
  - vm_compute. reflexivity.
Defined.

(** The transformed label is replaced by the later feature of its output
    key. *)
Lemma elementwise_map_last_wins_witness :
  ElementWiseTransform_map [("label"%string, "extra"%string)] Z.succ toy_features =
    inr [("image"%string, 1); ("extra"%string, 3); ("_index"%string, 0)] /\
  dict_get [("image"%string, 1); ("extra"%string, 3); ("_index"%string, 0)]
    "extra"%string = Some 3.
Proof.
  assert (Hmap : ElementWiseTransform_map [("label"%string, "extra"%string)] Z.succ
                   toy_features =
                 inr [("image"%string, 1); ("extra"%string, 3); ("_index"%string, 0)])
    by (vm_compute; reflexivity).
  split; [exact Hmap|].
  apply (elementwise_map_last_wins [("label"%string, "extra"%string)] Z.succ
           toy_features _ [("image"%string, 1); ("label"%string, 2)]
           [("_index"%string, 0)] "extra"%string 3 Hmap).
  - reflexivity.
  - intros k1 [<-|[]]. discriminate.
Defined.

(** * The cycle tracker *)

Section TrackerFacts.

Lemma track_seen (t : _VisitedTracker) (q p : Z) :
  seen (snd (track_if_visited t q)) p =
  if q =? p then Nat.min 2 (S (seen t p)) else seen t p.
Proof.
  unfold track_if_visited, seen.
  destruct (Z.eqb_spec q p) as [->|Hne].
  - destruct (pyid_to_id t p) as [[i|]|] eqn:Hp; cbn; unfold pyid_set;
      rewrite ?Z.eqb_refl, ?Hp; reflexivity.
  - destruct (pyid_to_id t q) as [[i|]|] eqn:Hq; cbn; unfold pyid_set;
      try (destruct (Z.eqb_spec p q); [congruence|]); reflexivity.
Qed.

Lemma track_all_cons (q : Z) (l : list Z) (t : _VisitedTracker) :
  track_all (q :: l) t = track_all l (snd (track_if_visited t q)).
Proof. reflexivity. Qed.

Lemma track_all_seen (p : Z) (l : list Z) :
  forall t, seen (track_all l t) p =
            Nat.min 2 (seen t p + count_occ Z.eq_dec l p).
Proof.
  induction l as [|q l IH]; intros t.
  - cbn [track_all fold_left count_occ].
    assert (seen t p <= 2)%nat
      by (unfold seen; destruct (pyid_to_id t p) as [[?|]|]; lia).
    lia.
  - rewrite track_all_cons, IH, track_seen. cbn [count_occ].
    destruct (Z.eq_dec q p) as [->|Hne].
    + rewrite Z.eqb_refl. lia.
    + destruct (Z.eqb_spec q p); [contradiction|]. reflexivity.
Qed.

Lemma tracker_inv_new : tracker_inv _VisitedTracker_new.
Proof.
  split; [cbn; lia|]. split; [intros p i H | intros p q i H]; discriminate.
Qed.

Lemma tracker_inv_track (t : _VisitedTracker) (q : Z) :
  tracker_inv t -> tracker_inv (snd (track_if_visited t q)).
Proof.
  intros (Hc & Hr & Hd). unfold track_if_visited.
  destruct (pyid_to_id t q) as [[i|]|] eqn:Hq; cbn [snd].
  - split; [exact Hc|]. split; [exact Hr | exact Hd].
  - unfold tracker_inv. cbn [count pyid_to_id]. unfold pyid_set.
    split; [lia|]. split.
    + intros p j. destruct (Z.eqb_spec p q).
      * intros [= <-]. lia.
      * intros H. apply Hr in H. lia.
    + intros p p' j. destruct (Z.eqb_spec p q), (Z.eqb_spec p' q).
      * congruence.
      * intros [= <-] H. apply Hr in H. lia.
      * intros H [= <-]. apply Hr in H. lia.
      * apply Hd.
  - unfold tracker_inv. cbn [count pyid_to_id]. unfold pyid_set.
    split; [exact Hc|]. split.
    + intros p j. destruct (Z.eqb_spec p q); [discriminate|]. apply Hr.
    + intros p p' j. destruct (Z.eqb_spec p q), (Z.eqb_spec p' q);
        try discriminate. apply Hd.
Qed.

Lemma tracker_inv_track_all (l : list Z) :
  forall t, tracker_inv t -> tracker_inv (track_all l t).
Proof.
  induction l as [|q l IH]; intros t Ht; [exact Ht|].
  rewrite track_all_cons. apply IH. now apply tracker_inv_track.
Qed.

Lemma track_all_was_repr (l : list Z) :
  forall t, pyid_was_repr (track_all l t) = pyid_was_repr t.
Proof.
  induction l as [|q l IH]; intros t; [reflexivity|].
  rewrite track_all_cons, IH. unfold track_if_visited.
  now destruct (pyid_to_id t q) as [[?|]|].
Qed.

Lemma get_id_keeps (t t' : _VisitedTracker) (q : Z) (r : Z * bool) :
  get_id_and_was_repr t q = inr (r, t') ->
  pyid_to_id t' = pyid_to_id t /\
  (forall i, In i (pyid_was_repr t) -> In i (pyid_was_repr t')) /\
  (forall i, In i (pyid_was_repr t') ->
             In i (pyid_was_repr t) \/ pyid_to_id t q = Some (Some i)).
Proof.
  unfold get_id_and_was_repr.
  destruct (pyid_to_id t q) as [[i|]|]; [| |discriminate].
  - destruct (i =? 0); [intros [= _ <-]; tauto|].
    destruct (existsb _ _); intros [= _ <-]; [tauto|]. cbn.
    repeat split; [tauto|]. intros j [<-|H]; tauto.
  - intros [= _ <-]. tauto.
Qed.

Lemma repr_all_keeps (qs : list Z) :
  forall (t t' : _VisitedTracker) (rs : list (Z * bool)),
    repr_all qs t = inr (rs, t') ->
    pyid_to_id t' = pyid_to_id t /\
    (forall i, In i (pyid_was_repr t) -> In i (pyid_was_repr t')) /\
    (forall i, In i (pyid_was_repr t') ->
               In i (pyid_was_repr t) \/
               exists q, In q qs /\ pyid_to_id t q = Some (Some i)).
Proof.
  induction qs as [|q qs IH]; intros t t' rs; cbn [repr_all].
  - intros [= _ <-]. tauto.
  - destruct (get_id_and_was_repr t q) as [x|[r t1]] eqn:Hg; [discriminate|].
    destruct (repr_all qs t1) as [x|[rs1 t2]] eqn:Hr; [discriminate|].
    intros [= _ <-]. apply get_id_keeps in Hg as (Hm1 & Hup1 & Hdn1).
    apply IH in Hr as (Hm2 & Hup2 & Hdn2).
    split; [congruence|]. split; [auto|].
    intros i Hi. apply Hdn2 in Hi as [Hi|[q' [Hq' Hi]]].
    + apply Hdn1 in Hi as [Hi|Hi]; [now left|].
      right. exists q. split; [now left | exact Hi].
    + right. exists q'. split; [now right | congruence].
Qed.

(** X22. After the watch pass from a new tracker, an object is unknown to
    the tracker when it was never met, has no id when it was met once, and
    has an id when it was met twice or more. *)
Theorem tracker_id_iff_revisited (pyids : list Z) (p : Z) :
  let t := track_all pyids _VisitedTracker_new in
  (pyid_to_id t p = None <-> count_occ Z.eq_dec pyids p = 0%nat) /\
  (pyid_to_id t p = Some None <-> count_occ Z.eq_dec pyids p = 1%nat) /\
  ((exists i, pyid_to_id t p = Some (Some i)) <->
   (2 <= count_occ Z.eq_dec pyids p)%nat).
Proof.
  cbv zeta. pose proof (track_all_seen p pyids _VisitedTracker_new) as H.
  change (seen _VisitedTracker_new p) with 0%nat in H. cbn [Nat.add] in H.
  unfold seen in H.
  destruct (pyid_to_id (track_all pyids _VisitedTracker_new) p) as [[i|]|].
  - repeat split; try discriminate; try lia. intros _. now exists i.
  - repeat split; try discriminate; try lia. intros [i Hi]. discriminate.
  - repeat split; try discriminate; try lia. intros [i Hi]. discriminate.
Qed.

(** X23. The ids that the watch pass gives from a new tracker start at one,
    stay below the counter, and no two objects share one. *)
Theorem tracker_ids_distinct (pyids : list Z) (p q i : Z) :
  let t := track_all pyids _VisitedTracker_new in
  pyid_to_id t p = Some (Some i) ->
  pyid_to_id t q = Some (Some i) ->
  p = q /\ 1 <= i < count t.
Proof.
  cbv zeta. intros Hp Hq.
  destruct (tracker_inv_track_all pyids _ tracker_inv_new) as (_ & Hr & Hd).
  split; [exact (Hd _ _ _ Hp Hq) | exact (Hr _ _ Hp)].
Qed.

(** X24. In the repr pass after a watch pass from a new tracker, an object
    with an id is reported as not yet shown the first time it is asked for,
    whatever was asked for before, and as shown every time after, whatever
    is asked for in between; the id is the same every time. *)
Theorem anchor_shown_once (pyids qs1 : list Z) (p i : Z)
    (rs1 : list (Z * bool)) (t1 : _VisitedTracker) :
  pyid_to_id (track_all pyids _VisitedTracker_new) p = Some (Some i) ->
  ~ In p qs1 ->
  repr_all qs1 (track_all pyids _VisitedTracker_new) = inr (rs1, t1) ->
  exists t2,
    get_id_and_was_repr t1 p = inr (i, false, t2) /\
    forall qs2 rs2 t3,
      repr_all qs2 t2 = inr (rs2, t3) ->
      get_id_and_was_repr t3 p = inr (i, true, t3).
Proof.
  intros Hp Hnin Hr1.
  destruct (tracker_inv_track_all pyids _ tracker_inv_new) as (_ & Hr & Hd).
  set (t0 := track_all pyids _VisitedTracker_new) in *.
  assert (Hw0 : pyid_was_repr t0 = [])
    by (unfold t0; now rewrite track_all_was_repr).
  apply repr_all_keeps in Hr1 as (Hm1 & _ & Hdn1).
  assert (Hi0 : (i =? 0) = false) by (apply Z.eqb_neq; specialize (Hr _ _ Hp); lia).
  assert (Hfresh : existsb (Z.eqb i) (pyid_was_repr t1) = false).
  { destruct (existsb _ _) eqn:He; [|reflexivity]. exfalso.
    apply existsb_exists in He as [j [Hj Hij]]. apply Z.eqb_eq in Hij. subst j.
    apply Hdn1 in Hj as [Hj|[q [Hq Hqi]]].
    - rewrite Hw0 in Hj. contradiction.
    - apply Hnin. now rewrite (Hd _ _ _ Hp Hqi). }
  exists {| count := count t1; pyid_to_id := pyid_to_id t1;
            pyid_was_repr := i :: pyid_was_repr t1 |}.
  split.
  - unfold get_id_and_was_repr. rewrite Hm1, Hp, Hi0, Hfresh. reflexivity.
  - intros qs2 rs2 t3 Hr2. apply repr_all_keeps in Hr2 as (Hm2 & Hup2 & _).
    cbn [pyid_to_id pyid_was_repr] in Hm2, Hup2.
    unfold get_id_and_was_repr. rewrite Hm2, Hm1, Hp, Hi0.
    assert (He : existsb (Z.eqb i) (pyid_was_repr t3) = true).
    { apply existsb_exists. exists i. split; [apply Hup2; now left | apply Z.eqb_refl]. }
    now rewrite He.
Qed.

(** X25. In the repr pass, an object that the watch pass met once is
    reported without an id every time, and asking for it leaves the tracker
    as it is. *)
Theorem unique_object_plain (pyids qs : list Z) (p : Z)
    (rs : list (Z * bool)) (t1 : _VisitedTracker) :
  count_occ Z.eq_dec pyids p = 1%nat ->
  repr_all qs (track_all pyids _VisitedTracker_new) = inr (rs, t1) ->
  get_id_and_was_repr t1 p = inr (0, false, t1).
Proof.
  intros Hocc Hr.
  pose proof (track_all_seen p pyids _VisitedTracker_new) as H.
  change (seen _VisitedTracker_new p) with 0%nat in H. cbn [Nat.add] in H.
  rewrite Hocc in H. unfold seen in H.
  apply repr_all_keeps in Hr as (Hm & _).
  unfold get_id_and_was_repr. rewrite Hm.
  destruct (pyid_to_id (track_all pyids _VisitedTracker_new) p) as [[i|]|];
    [discriminate | reflexivity | discriminate].
Qed.

End TrackerFacts.

Lemma tracker_ids_distinct_witness :
  pyid_to_id toy_watched 20 = Some (Some 2) /\
  (20 = 20 /\ 1 <= 2 < count toy_watched).
Proof.
  assert (H : pyid_to_id toy_watched 20 = Some (Some 2)) by (vm_compute; reflexivity).
  split; [exact H|].
  exact (tracker_ids_distinct [10; 20; 10; 30; 20; 10] 20 20 2 H H).
Defined.

Lemma anchor_shown_once_witness :
  let t1 := repr_tracker (repr_all [10; 30] toy_watched) toy_watched in
  repr_all [10; 30] toy_watched = inr ([(1, false); (0, false)], t1) /\
  exists t2,
    get_id_and_was_repr t1 20 = inr (2, false, t2) /\
    forall qs2 rs2 t3,
      repr_all qs2 t2 = inr (rs2, t3) ->
      get_id_and_was_repr t3 20 = inr (2, true, t3).
Proof.
  cbv zeta.
  assert (Hr : repr_all [10; 30] toy_watched =
               inr ([(1, false); (0, false)],
                    repr_tracker (repr_all [10; 30] toy_watched) toy_watched))
    by (vm_compute; reflexivity).
  split; [exact Hr|].
  apply (anchor_shown_once [10; 20; 10; 30; 20; 10] [10; 30] 20 2
           [(1, false); (0, false)]
           (repr_tracker (repr_all [10; 30] toy_watched) toy_watched)).
  - vm_compute. reflexivity.
  - intros [H|[H|[]]]; discriminate.
  - exact Hr.
Defined.

Lemma unique_object_plain_witness :
  let t1 := repr_tracker (repr_all [10; 30; 10] toy_watched) toy_watched in
  get_id_and_was_repr t1 30 = inr (0, false, t1).
Proof.
  cbv zeta.
  apply (unique_object_plain [10; 20; 10; 30; 20; 10] [10; 30; 10] 30
           [(1, false); (0, false); (1, true)]).
  - vm_compute. reflexivity.
  - vm_compute. reflexivity.
Defined.

(** * [RandomCrop] and [_normalize_arg_key] *)

Section RandomCropFacts.

Context {V S : Type}.
Variable shape_of : V -> list (option Z).

Lemma dim_eqb_eq (a b : option Z) : dim_eqb a b = true -> a = b.
Proof.
  destruct a, b; cbn; try discriminate; [|reflexivity].
  intros H. apply Z.eqb_eq in H. now subst.
Qed.

Lemma nth_error_combine {A B : Type} (l1 : list A) :
  forall (l2 : list B) (j : nat) (a : A) (b : B),
    nth_error l1 j = Some a -> nth_error l2 j = Some b ->
    nth_error (combine l1 l2) j = Some (a, b).
Proof.
  induction l1 as [|x l1 IH]; intros [|y l2] [|j] a b; cbn; try discriminate.
  - now intros [= ->] [= ->].
  - apply IH.
Qed.

Lemma nth_error_length {A : Type} (l : list A) (j : nat) :
  (j < List.length l)%nat -> exists a, nth_error l j = Some a.
Proof.
  intros H. destruct (nth_error l j) as [a|] eqn:Hn; [now exists a|].
  apply nth_error_None in Hn. lia.
Qed.

(** X26. When [RandomCrop.random_map] returns, no entry of the target shape
    is negative, every feature with one of the keys has the rank of the
    target shape, any two of them have the same size on every dimension that
    is cropped, and the result is that of the element-wise random map. *)
Theorem random_crop_compatible (key : dict string) (shape : list (option Z))
    (g : V -> S -> V) (features out : dict V) (seed : S) :
  NoDup (dict_keys features) ->
  RandomCrop_random_map shape_of key shape g features seed = inr out ->
  ElementWiseRandomTransform_random_map key g features seed = inr out /\
  (forall d, In (Some d) shape -> 0 <= d) /\
  forall k1 v1 k2 v2,
    In (k1, v1) features -> In (k2, v2) features ->
    In k1 (dict_keys key) -> In k2 (dict_keys key) ->
    List.length (shape_of v1) = List.length shape /\
    forall j d, nth_error shape j = Some (Some d) ->
                nth_error (shape_of v1) j = nth_error (shape_of v2) j.
Proof.
  intros Hnd. unfold RandomCrop_random_map.
  destruct (forallb dim_ok shape) eqn:Hok; cbn [negb]; [|discriminate].
  rewrite dict_of_id.
  2:{ unfold dict_keys. rewrite map_map. cbn [fst].
      apply (NoDup_filter_keys (fun k => str_in k (dict_keys key))). exact Hnd. }
  set (sel := filter (fun kv : string * V => str_in (fst kv) (dict_keys key)) features).
  set (shapes := map (fun kv : string * V => (fst kv, shape_of (snd kv))) sel).
  destruct (existsb _ shapes) eqn:Hrank; [discriminate|].
  assert (Hlen : forall k v, In (k, v) features -> In k (dict_keys key) ->
                             List.length (shape_of v) = List.length shape).
  { intros k v Hin Hk. rewrite existsb_false_forall in Hrank.
    specialize (Hrank (k, shape_of v)). cbn [snd] in Hrank.
    apply negb_false_iff, Nat.eqb_eq in Hrank; [exact Hrank|].
    unfold shapes. apply (in_map (fun kv : string * V => (fst kv, shape_of (snd kv)))
                            sel (k, v)).
    apply filter_In. split; [exact Hin | now apply str_in_In]. }
  destruct shapes as [|[ref_key ref_shape] rest] eqn:Hshapes.
  - intros Hmap. split; [exact Hmap|]. split.
    + intros d Hd. rewrite forallb_forall in Hok. specialize (Hok _ Hd). cbn in Hok. lia.
    + intros k1 v1 k2 v2 Hin1 _ Hk1 _. exfalso.
      assert (Hs : In (k1, shape_of v1) shapes).
      { unfold shapes. apply (in_map (fun kv : string * V => (fst kv, shape_of (snd kv)))
                                sel (k1, v1)).
        apply filter_In. split; [exact Hin1 | now apply str_in_In]. }
      rewrite Hshapes in Hs. contradiction.
  - match goal with |- context [if ?b then _ else _] => destruct b eqn:Hclash end;
      [discriminate|].
    intros Hmap. split; [exact Hmap|]. split.
    + intros d Hd. rewrite forallb_forall in Hok. specialize (Hok _ Hd). cbn in Hok. lia.
    + assert (Href : exists kr vr, In (kr, vr) features /\ In kr (dict_keys key) /\
                                   shape_of vr = ref_shape).
      { assert (Hs : In (ref_key, ref_shape) shapes) by (rewrite Hshapes; now left).
        unfold shapes in Hs. apply in_map_iff in Hs as [[kr vr] [[= <- <-] Hs]].
        apply filter_In in Hs as [Hs Hk]. exists kr, vr.
        split; [exact Hs|]. split; [now apply str_in_In | reflexivity]. }
      destruct Href as (kr & vr & Hinr & Hkr & Hvr).
      assert (Hsame : forall k v j d,
                 In (k, v) features -> In k (dict_keys key) ->
                 nth_error shape j = Some (Some d) ->
                 nth_error (shape_of v) j = nth_error ref_shape j).
      { intros k v j d Hin Hk Hj.
        assert (Hjl : (j < List.length shape)%nat)
          by (apply nth_error_Some; congruence).
        destruct (nth_error_length (shape_of v) j) as [a Ha];
          [rewrite (Hlen k v Hin Hk); exact Hjl|].
        destruct (nth_error_length ref_shape j) as [b Hb];
          [rewrite <- Hvr, (Hlen kr vr Hinr Hkr); exact Hjl|].
        rewrite Ha, Hb. f_equal. symmetry. apply dim_eqb_eq.
        rewrite existsb_false_forall in Hclash.
        assert (Hs : In (k, shape_of v) ((ref_key, ref_shape) :: rest)).
        { rewrite <- Hshapes. unfold shapes.
          apply (in_map (fun kv : string * V => (fst kv, shape_of (snd kv))) sel (k, v)).
          apply filter_In. split; [exact Hin | now apply str_in_In]. }
        specialize (Hclash _ Hs). cbn [snd] in Hclash.
        rewrite existsb_false_forall in Hclash.
        specialize (Hclash (b, a, Some d)).
        cbn [is_some] in Hclash. rewrite andb_true_r in Hclash.
        apply negb_false_iff. apply Hclash.
        apply (nth_error_In _ j). apply nth_error_combine; [|exact Hj].
        now apply nth_error_combine. }
      intros k1 v1 k2 v2 Hin1 Hin2 Hk1 Hk2. split; [now apply (Hlen k1)|].
      intros j d Hj.
      rewrite (Hsame k1 v1 j d Hin1 Hk1 Hj), (Hsame k2 v2 j d Hin2 Hk2 Hj).
      reflexivity.
Qed.

End RandomCropFacts.

Section ArgKeyFacts.

Lemma str_injective (i j : Z) : str i = str j -> i = j.
Proof.
  unfold str. intros H.
  assert (Hn : forall z, Z.to_int z <> Decimal.Pos Decimal.Nil /\
                         Z.to_int z <> Decimal.Neg Decimal.Nil).
  { intros z. split; intros Hz; pose proof (f_equal Z.of_int Hz) as Hz';
      rewrite DecimalZ.of_to in Hz'; cbn in Hz'; subst z; discriminate. }
  assert (Hs : Some (Z.to_int i) = Some (Z.to_int j)).
  { rewrite <- (DecimalString.NilZero.isi (Z.to_int i)),
            <- (DecimalString.NilZero.isi (Z.to_int j)); try apply Hn.
    now rewrite H. }
  injection Hs as Hs. now apply DecimalZ.to_int_inj.
Qed.

(** X27. An index key is accepted exactly from minus the number of
    arguments up to the number of arguments, this last one only when
    appending; an accepted index below the number of arguments is taken
    modulo that number, so that a negative index counts from the end. *)
Theorem normalize_arg_key_modulo (num_args key : Z) (can_append : bool) :
  0 <= num_args ->
  _normalize_arg_key num_args (KeyPos key) can_append =
  if (- num_args <=? key) && (key <? num_args)
  then inr (str (key mod num_args))
  else if can_append && (key =? num_args) then inr (str num_args)
  else inl KonfigIndexError.
Proof.
  intros Hn. unfold _normalize_arg_key.
  destruct (Z.leb_spec (- num_args) key), (Z.ltb_spec key num_args);
    cbn [andb].
  - destruct (Z.ltb_spec key 0).
    + replace (key mod num_args) with (num_args + key).
      2:{ apply (Z.mod_unique _ _ (-1)); lia. }
      destruct (Z.leb_spec 0 (num_args + key)); [|lia].
      destruct (Z.ltb_spec (num_args + key) (num_args + Z.b2z can_append));
        [reflexivity | destruct can_append; cbn in *; lia].
    + rewrite Z.mod_small by lia.
      destruct (Z.leb_spec 0 key); [|lia].
      destruct (Z.ltb_spec key (num_args + Z.b2z can_append));
        [reflexivity | destruct can_append; cbn in *; lia].
  - destruct (Z.ltb_spec key 0); [lia|].
    destruct (Z.leb_spec 0 key); [|lia]. cbn [andb].
    destruct can_append; cbn [Z.b2z andb].
    + destruct (Z.eqb_spec key num_args) as [->|Hne].
      * destruct (Z.ltb_spec num_args (num_args + 1)); [reflexivity | lia].
      * destruct (Z.ltb_spec key (num_args + 1)); [lia | reflexivity].
    + destruct (Z.ltb_spec key (num_args + 0)); [lia | reflexivity].
  - destruct (Z.ltb_spec key 0); [|lia].
    destruct (Z.leb_spec 0 (num_args + key)); [lia|]. cbn [andb negb].
    destruct (Z.eqb_spec key num_args); [lia|]. now rewrite andb_false_r.
  - lia.
Qed.

(** X28. Two accepted index keys name the same argument only when they are
    equal or differ by the number of arguments. *)
Theorem normalize_arg_key_same (num_args k1 k2 : Z) (a1 a2 : bool) (s : string) :
  _normalize_arg_key num_args (KeyPos k1) a1 = inr s ->
  _normalize_arg_key num_args (KeyPos k2) a2 = inr s ->
  k1 = k2 \/ k1 = k2 + num_args \/ k2 = k1 + num_args.
Proof.
  unfold _normalize_arg_key.
  destruct (negb _); [discriminate|]. destruct (negb _); [discriminate|].
  intros [= <-] [= H]. apply str_injective in H.
  destruct (k1 <? 0), (k2 <? 0); lia.
Qed.

End ArgKeyFacts.

Lemma random_crop_compatible_witness :
  RandomCrop_random_map (fun v => v) toy_crop_key [Some 4; Some 4; None]
    (fun v (_ : Z) => v) toy_shaped 0 = inr toy_shaped /\
  forall k1 v1 k2 v2,
    In (k1, v1) toy_shaped -> In (k2, v2) toy_shaped ->
    In k1 (dict_keys toy_crop_key) -> In k2 (dict_keys toy_crop_key) ->
    List.length v1 = 3%nat /\
    forall j d, nth_error [Some 4; Some 4; None] j = Some (Some d) ->
                nth_error v1 j = nth_error v2 j.
Proof.
  assert (Hmap : RandomCrop_random_map (fun v => v) toy_crop_key [Some 4; Some 4; None]
                   (fun v (_ : Z) => v) toy_shaped 0 = inr toy_shaped)
    by (vm_compute; reflexivity).
  split; [exact Hmap|].
  refine (proj2 (proj2 (random_crop_compatible (fun v => v) toy_crop_key
                          [Some 4; Some 4; None] (fun v (_ : Z) => v)
                          toy_shaped toy_shaped 0 _ Hmap))).
  apply nodupb_NoDup. reflexivity.
Defined.

Lemma normalize_arg_key_modulo_witness :
  _normalize_arg_key 3 (KeyPos (-1)) false = inr "2"%string.
Proof.
  rewrite normalize_arg_key_modulo by lia. reflexivity.
Defined.

Lemma normalize_arg_key_same_witness :
  -1 = 2 \/ -1 = 2 + 3 \/ 2 = -1 + 3.
Proof.
  apply (normalize_arg_key_same 3 (-1) 2 false true "2"%string); reflexivity.
Defined.

(** * [_normalize_qualname] *)

Section QualnameFacts.

Lemma colons_to_dots_get (name : string) :
  forall n, String.get n (colons_to_dots name) <> Some colon.
Proof.
  induction name as [|c rest IH]; intros [|n];
    cbn [colons_to_dots String.get]; try discriminate.
  - destruct (Ascii.eqb c colon) eqn:He.
    + intros H. vm_compute in H. discriminate.
    + intros [= ->]. rewrite Ascii.eqb_refl in He. discriminate.
  - apply IH.
Qed.

Lemma prefix_append (key rest : string) :
  String.prefix key (String.append key rest) = true.
Proof.
  induction key as [|c key IH]; cbn.
  - now destruct rest.
  - destruct (Ascii.ascii_dec c c); [exact IH | contradiction].
Qed.

Lemma string_drop_append (key rest : string) :
  string_drop (String.length key) (String.append key rest) = rest.
Proof. induction key as [|c key IH]; cbn; [reflexivity | exact IH]. Qed.

Lemma aliases_skipped (aliases : dict string) (name : string) :
  (forall k, In k (dict_keys aliases) -> String.prefix k name = false) ->
  fold_left (fun name ka =>
               if String.prefix (fst ka) name
               then replace_prefix (fst ka) (snd ka) name
               else name)
    aliases name = name.
Proof.
  induction aliases as [|[k a] aliases IH]; cbn; intros H; [reflexivity|].
  rewrite (H k) by now left. apply IH. intros k' Hk'. apply H. now right.
Qed.

(** X29. Whatever the aliases, the name that [_normalize_qualname] returns
    has no colon. *)
Theorem normalize_qualname_no_colon (aliases : dict string) (name : string) (n : nat) :
  String.get n (_normalize_qualname aliases name) <> Some colon.
Proof. apply colons_to_dots_get. Qed.

(** X30. When a name starts with the key of one alias, whatever follows the
    key, and no other alias key is a prefix of the name before or after the
    replacement, [_normalize_qualname] returns the alias followed by the rest
    of the name, with dots for the colons. *)
Theorem normalize_qualname_prefix (before after : dict string)
    (key alias rest : string) :
  (forall k, In k (dict_keys before) ->
             String.prefix k (String.append key rest) = false) ->
  (forall k, In k (dict_keys after) ->
             String.prefix k (String.append alias rest) = false) ->
  _normalize_qualname (before ++ (key, alias) :: after) (String.append key rest) =
  colons_to_dots (String.append alias rest).
Proof.
  intros Hb Ha. unfold _normalize_qualname. f_equal.
  rewrite fold_left_app, (aliases_skipped _ _ Hb). cbn [fold_left fst snd].
  rewrite prefix_append. unfold replace_prefix. rewrite string_drop_append.
  now apply aliases_skipped.
Qed.

End QualnameFacts.

(** An alias applies to every name that starts with its key:
    [numpyro.distributions] is shown as [npro.distributions]. *)
Lemma normalize_qualname_prefix_witness :
  _normalize_qualname
    (register_aliases _ALIASES [("jax.numpy"%string, "jnp"%string)])
    "numpyro.distributions:Normal"%string =
  "npro.distributions.Normal"%string.
Proof.
  apply (normalize_qualname_prefix []
           [("tensorflow"%string, "tf"%string); ("flax.linen"%string, "nn"%string);
            ("jax.numpy"%string, "jnp"%string)]
           "numpy"%string "np"%string "ro.distributions:Normal"%string).
  - intros k [].
  - intros k [<-|[<-|[<-|[]]]]; reflexivity.
Defined.
